(** * Chat front end: dispatcher, renderer, audio player and codecs

    A shallow embedding of the browser-side modules of the chat UI

      - [js/constants/chat-constants.js]   ([ChatConstants])
      - [js/utils/audio-utils.js]          ([AudioUtils])
      - [js/components/message-component.js] ([MessageComponent])
      - [js/modules/websocket-handler.js]  ([WebSocketHandler])

    together with the parts of the JavaScript platform these modules call
    ([Number], [String], [atob], the media element), modelled from the
    ECMAScript and HTML standards.

    Conventions.
      - A JavaScript number is an IEEE 754 binary64 value: [spec_float] at
        precision 53 and maximal exponent 1024, with the operations of
        [SpecFloat] (correctly rounded, round to nearest even).
      - A JavaScript string is a [string]; every character stands for one
        code unit below 256.
      - The page is an explicit state ([Page]): the message container, the
        cost ledger, the audio elements and [currentAudio].
      - An event handler that can throw returns an [Outcome] next to the
        state it leaves behind. *)

From Stdlib Require Import ZArith NArith Lia String Ascii List Bool.
From Stdlib Require Import Strings.Byte ZifyN.
From Stdlib Require Import Floats.SpecFloat.
From stdpp Require Import gmap strings list pretty.
From Equations Require Import Equations.

Set Default Proof Using "Type".
Local Open Scope Z_scope.

(* ===================================================================== *)
(** * JavaScript strings *)
(* ===================================================================== *)

Module JSString.

(** [s.startsWith(p)] *)
Definition startsWith (s p : string) : bool := String.prefix p s.

(** [s.substring(n)]: the code units from index [n] on (nothing when
    [n] is beyond the end). *)
Fixpoint substring (n : nat) (s : string) : string :=
  match n, s with
  | O, _ => s
  | S n', EmptyString => EmptyString
  | S n', String _ s' => substring n' s'
  end.

(** [s.slice(a, b)] for [0 <= a <= b]: the code units at [a .. b-1],
    clamped to the string. *)
Fixpoint take (n : nat) (s : string) : string :=
  match n, s with
  | O, _ => EmptyString
  | S n', EmptyString => EmptyString
  | S n', String c s' => String c (take n' s')
  end.

Definition slice (s : string) (a b : nat) : string :=
  take (b - a) (substring a s).

(** [s.includes(t)]: [t] occurs in [s] at some index. *)
Fixpoint includes (s t : string) : bool :=
  String.prefix t s ||
  match s with
  | EmptyString => false
  | String _ s' => includes s' t
  end.

(** White space and line terminators of ECMAScript among the code units
    below 256: TAB, LF, VT, FF, CR, SPACE, NBSP. *)
Definition isWhiteSpace (c : ascii) : bool :=
  match nat_of_ascii c with
  | 9 | 10 | 11 | 12 | 13 | 32 | 160 => true
  | _ => false
  end%nat.

Fixpoint trimStart (s : string) : string :=
  match s with
  | EmptyString => EmptyString
  | String c s' => if isWhiteSpace c then trimStart s' else s
  end.

(** [trimEnd] keeps a character when it is not white space or when
    something remains after it. *)
Fixpoint trimEnd (s : string) : string :=
  match s with
  | EmptyString => EmptyString
  | String c s' =>
      match trimEnd s' with
      | EmptyString => if isWhiteSpace c then EmptyString else String c EmptyString
      | r => String c r
      end
  end.

(** [s.trim()] *)
Definition trim (s : string) : string := trimEnd (trimStart s).

Fixpoint replicate (n : nat) (c : ascii) : string :=
  match n with
  | O => EmptyString
  | S n' => String c (replicate n' c)
  end.

(** [s.padStart(w, c)] with a one-character filler. *)
Definition padStart (w : nat) (c : ascii) (s : string) : string :=
  (replicate (w - String.length s) c ++ s)%string.

(** A non-empty string is truthy. *)
Definition ToBoolean (s : string) : bool :=
  match s with
  | EmptyString => false
  | _ => true
  end.

End JSString.

(* ===================================================================== *)
(** * JavaScript numbers *)
(* ===================================================================== *)

Module JSNumber.

Definition prec : Z := 53.
Definition emax : Z := 1024.

Definition number : Type := spec_float.

Definition NaN : number := S754_nan.
Definition Infinity : number := S754_infinity false.

(** The number an integer literal denotes. *)
Definition of_Z (z : Z) : number := binary_normalize prec emax z 0 false.

Definition mul : number -> number -> number := SFmul prec emax.
Definition div : number -> number -> number := SFdiv prec emax.
Definition ltb : number -> number -> bool := SFltb.

(** The number a decimal literal [m / 10^k] denotes (as [JSON.parse]
    reads 3.5 from the digits 35 and one fractional place), for
    [|m| < 2^53] and [k <= 22], where the division rounds as the
    literal does. *)
Definition decimal (m : Z) (k : nat) : number :=
  div (of_Z m) (of_Z (10 ^ Z.of_nat k)).

Definition isNaN (x : number) : bool :=
  match x with
  | S754_nan => true
  | _ => false
  end.

Definition isFinite (x : number) : bool :=
  match x with
  | S754_zero _ | S754_finite _ _ _ => true
  | _ => false
  end.

(** Truthiness of a number: everything but [+0], [-0] and [NaN]. *)
Definition ToBoolean (x : number) : bool :=
  match x with
  | S754_nan | S754_zero _ => false
  | _ => true
  end.

(** [Math.floor] *)
Definition Math_floor (x : number) : number :=
  match x with
  | S754_finite s m e =>
      if 0 <=? e then x
      else
        let d := 2 ^ (- e) in
        let q := Z.pos m / d in
        if s then
          of_Z (- (if Z.pos m mod d =? 0 then q else q + 1))
        else of_Z q
  | _ => x
  end.

(** The remainder operator [x % y]: exact, with the sign of the
    dividend. *)
Definition rem (x y : number) : number :=
  match x, y with
  | S754_nan, _ | _, S754_nan => NaN
  | S754_infinity _, _ => NaN
  | _, S754_zero _ => NaN
  | S754_zero _, _ => x
  | S754_finite _ _ _, S754_infinity _ => x
  | S754_finite sx mx ex, S754_finite _ my ey =>
      let e := Z.min ex ey in
      let r := (Z.pos mx * 2 ^ (ex - e)) mod (Z.pos my * 2 ^ (ey - e)) in
      if r =? 0 then S754_zero sx
      else binary_normalize prec emax (if sx then - r else r) e false
  end.

(** The integer [m * 2^e] stands for, when it is one. *)
Definition exact_integer (m : positive) (e : Z) : option Z :=
  if 0 <=? e then Some (Z.pos m * 2 ^ e)
  else if Z.pos m mod 2 ^ (- e) =? 0 then Some (Z.pos m / 2 ^ (- e))
  else None.

(** [k <= m * 2^e], decided on integers. *)
Definition scaled_ge (m : positive) (e : Z) (k : Z) : bool :=
  if 0 <=? e then k <=? Z.pos m * 2 ^ e
  else k * 2 ^ (- e) <=? Z.pos m.

(** The integer nearest to [m * 2^e * 10^f], the larger one on a tie. *)
Definition scaled_round (m : positive) (e : Z) (f : nat) : Z :=
  let p := 10 ^ Z.of_nat f in
  if 0 <=? e then Z.pos m * 2 ^ e * p
  else (2 * Z.pos m * p + 2 ^ (- e)) / 2 ^ (1 - e).

(** The digits of [n] with a point before the last [f] of them, zeros
    added on the left so that one digit precedes the point. *)
Definition fixed_digits (n : Z) (f : nat) : string :=
  let ds := pretty (Z.to_N n) in
  match f with
  | O => ds
  | _ =>
      let ds := JSString.padStart (f + 1)%nat "0" ds in
      let a := (String.length ds - f)%nat in
      (JSString.take a ds ++ "." ++ JSString.substring a ds)%string
  end.

Definition sign_prefix (s : bool) : string := if s then "-" else "".

Section Rendering.

(** [Number::toString] outside the cases below: the engine's
    shortest digits that read back as the same number (a fraction,
    or an integer of magnitude [2^53] and more, possibly in exponent
    notation). The digit generation belongs to the engine. *)
Variable toString_shortest : number -> string.

(** [String(x)], [x.toString()] and [`${x}`]. An integer below
    [2^53] in magnitude is written with all its digits. *)
Definition Number_toString (x : number) : string :=
  match x with
  | S754_nan => "NaN"
  | S754_infinity s => (sign_prefix s ++ "Infinity")%string
  | S754_zero _ => "0"
  | S754_finite s m e =>
      match exact_integer m e with
      | Some n =>
          if n <? 2 ^ 53 then (sign_prefix s ++ pretty (Z.to_N n))%string
          else toString_shortest x
      | None => toString_shortest x
      end
  end.

(** [x.toFixed(f)] for [0 <= f <= 100]. *)
Definition toFixed (x : number) (f : nat) : string :=
  match x with
  | S754_nan | S754_infinity _ => Number_toString x
  | S754_zero _ => fixed_digits 0 f
  | S754_finite s m e =>
      if scaled_ge m e (10 ^ 21)
      then (sign_prefix s ++ Number_toString (SFabs x))%string
      else (sign_prefix s ++ fixed_digits (scaled_round m e f) f)%string
  end.

End Rendering.

End JSNumber.

(* ===================================================================== *)
(** * chat-constants.js *)
(* ===================================================================== *)

Module ChatConstants.

Definition DEFAULT_BUDGET : JSNumber.number := JSNumber.of_Z 25.
Definition LOW_BUDGET_THRESHOLD : JSNumber.number := JSNumber.of_Z 5.
Definition AUDIO_CHUNK_SIZE : nat := 512.

Module MESSAGE_TYPES.
Definition USER : string := "user".
Definition BOT : string := "bot".
Definition ERROR : string := "error".
End MESSAGE_TYPES.

Module ERROR_TYPES.
Definition PROMPT_TOO_LONG : string := "Prompt Too Long".
Definition BUDGET_EXCEEDED : string := "Budget Exceeded".
Definition GENERIC : string := "Error".
End ERROR_TYPES.

Module MIME_TYPES.
Definition AUDIO : string := "audio/mp3".
Definition IMAGE : string := "image/png".
End MIME_TYPES.

End ChatConstants.

(* ===================================================================== *)
(** * Base64: the platform's [atob] and the producer's encoding *)
(* ===================================================================== *)

Module Base64.

Local Open Scope N_scope.

(** The base64 alphabet: A-Z, a-z, 0-9, plus and slash. *)
Definition char_of_sextet (i : N) : ascii :=
  ascii_of_N
    (if i <? 26 then 65 + i
     else if i <? 52 then 97 + (i - 26)
     else if i <? 62 then 48 + (i - 52)
     else if i =? 62 then 43
     else 47).

Definition sextet_of_char (c : ascii) : option N :=
  let n := N_of_ascii c in
  if (65 <=? n) && (n <=? 90) then Some (n - 65)
  else if (97 <=? n) && (n <=? 122) then Some (n - 71)
  else if (48 <=? n) && (n <=? 57) then Some (n + 4)
  else if n =? 43 then Some 62
  else if n =? 47 then Some 63
  else None.

Definition pad : ascii := "=".

(** ASCII white space, which [atob] skips: TAB, LF, FF, CR, SPACE. *)
Definition is_ascii_whitespace (c : ascii) : bool :=
  match N_of_ascii c with
  | 9 | 10 | 12 | 13 | 32 => true
  | _ => false
  end.

(** One or two trailing pad characters are dropped. *)
Definition strip_padding (d : list ascii) : list ascii :=
  match rev d with
  | p1 :: p2 :: r =>
      if Ascii.eqb p1 pad
      then if Ascii.eqb p2 pad then rev r else rev (p2 :: r)
      else d
  | [p1] => if Ascii.eqb p1 pad then [] else d
  | [] => d
  end.

Fixpoint sextets (d : list ascii) : option (list N) :=
  match d with
  | [] => Some []
  | c :: d' =>
      match sextet_of_char c, sextets d' with
      | Some i, Some r => Some (i :: r)
      | _, _ => None
      end
  end.

(** Four sextets give three bytes; three give two (the last two bits
    are discarded); two give one (the last four bits are discarded). *)
Fixpoint bytes_of_sextets (l : list N) : list N :=
  match l with
  | a :: b :: c :: d :: rest =>
      let n := ((a * 64 + b) * 64 + c) * 64 + d in
      n / 65536 :: (n / 256) mod 256 :: n mod 256 :: bytes_of_sextets rest
  | [a; b; c] =>
      let n := ((a * 64 + b) * 64 + c) / 4 in
      [n / 256; n mod 256]
  | [a; b] =>
      let n := (a * 64 + b) / 16 in
      [n]
  | _ => []
  end.

(** [atob(data)], the forgiving base64 decoding of the HTML standard.
    [None] stands for the [InvalidCharacterError] it throws. The result
    is a binary string: one character per byte. *)
Definition atob (data : string) : option string :=
  let d := List.filter (fun c => negb (is_ascii_whitespace c))
                       (list_ascii_of_string data) in
  let d := if N.of_nat (length d) mod 4 =? 0 then strip_padding d else d in
  if N.of_nat (length d) mod 4 =? 1 then None
  else
    match sextets d with
    | Some l => Some (string_of_list_ascii (map ascii_of_N (bytes_of_sextets l)))
    | None => None
    end.

(** Modelled from the spec: the producer of [base64_audio] is the
    server, which is not part of the client sources. [encode] is the
    standard base64 encoding with padding (RFC 4648, section 4) of a
    byte sequence. *)
Fixpoint encode_chars (l : list N) : list ascii :=
  match l with
  | a :: b :: c :: rest =>
      let n := (a * 256 + b) * 256 + c in
      char_of_sextet (n / 262144) :: char_of_sextet ((n / 4096) mod 64)
        :: char_of_sextet ((n / 64) mod 64) :: char_of_sextet (n mod 64)
        :: encode_chars rest
  | [a; b] =>
      let n := (a * 256 + b) * 4 in
      [char_of_sextet (n / 4096); char_of_sextet ((n / 64) mod 64);
       char_of_sextet (n mod 64); pad]
  | [a] =>
      let n := a * 16 in
      [char_of_sextet (n / 64); char_of_sextet (n mod 64); pad; pad]
  | [] => []
  end.

Definition encode (x : list Byte.byte) : string :=
  string_of_list_ascii (encode_chars (map Byte.to_N x)).

End Base64.

(* ===================================================================== *)
(** * audio-utils.js *)
(* ===================================================================== *)

Module AudioUtils.

Import JSNumber.

(** The binary payload of a [Blob]: its parts in order, and its type. *)
Record Blob := { parts : list (list Byte.byte); type : string }.

Definition blob_bytes (b : Blob) : list byte := concat (parts b).

(** An element of a [Uint8Array] built from a number: the number
    modulo 256. *)
Definition ToUint8 (n : N) : byte :=
  match Byte.of_N (n mod 256)%N with
  | Some b => b
  | None => Byte.x00
  end.

(** The inner loop: [byteNumbers[i] = slice.charCodeAt(i)]. *)
Definition byteNumbers (slice : string) : list N :=
  map N_of_ascii (list_ascii_of_string slice).

Definition Uint8Array (numbers : list N) : list byte := map ToUint8 numbers.

(** The outer loop of [base64ToBlob], from [offset] on, with the arrays
    pushed so far. *)
Equations? byteArrays_from (byteCharacters : string) (offset : nat)
    (byteArrays : list (list byte)) : list (list byte)
    by wf (String.length byteCharacters - offset)%nat lt :=
  byteArrays_from byteCharacters offset byteArrays
    with decide (offset < String.length byteCharacters)%nat := {
    | left _ =>
        let slice := JSString.slice byteCharacters offset
                       (offset + ChatConstants.AUDIO_CHUNK_SIZE) in
        byteArrays_from byteCharacters
          (offset + ChatConstants.AUDIO_CHUNK_SIZE)
          (byteArrays ++ [Uint8Array (byteNumbers slice)])
    | right _ => byteArrays }.
Proof. unfold ChatConstants.AUDIO_CHUNK_SIZE. lia. Qed.

(** [AudioUtils.base64ToBlob(base64, type)]; [None] when [atob] throws. *)
Definition base64ToBlob (base64 type : string) : option Blob :=
  match Base64.atob base64 with
  | Some byteCharacters =>
      Some {| parts := byteArrays_from byteCharacters 0 []; type := type |}
  | None => None
  end.

Section FormatTime.

Variable toString_shortest : number -> string.

(** [AudioUtils.formatTime(seconds)] *)
Definition formatTime (seconds : number) : string :=
  if isNaN seconds then "0:00"
  else
    let minutes := Math_floor (div seconds (of_Z 60)) in
    let seconds := Math_floor (rem seconds (of_Z 60)) in
    (Number_toString toString_shortest minutes ++ ":" ++
     JSString.padStart 2 "0" (Number_toString toString_shortest seconds))%string.

End FormatTime.

End AudioUtils.

(* ===================================================================== *)
(** * Inbound frames *)
(* ===================================================================== *)

(** The value [JSON.parse] gives for a frame that follows the wire format:
    every field is optional; an absent (or [null]) field is [None]. *)
Module Frame.

Import JSNumber.

Record CostInfo := {
  request_cost : option number;
  total_cost : option number;
  remaining_budget : option number }.

(** [parameters] is kept as its JSON text. *)
Record ToolCall := {
  name : string;
  parameters : string;
  result : option string }.

Record AgentFlow := {
  tool_calls : option (list ToolCall);
  internal_messages : option (list string) }.

Record InboundFrame := {
  message : option string;
  cost_info : option CostInfo;
  agent_flow : option AgentFlow;
  base64_image : option string;
  base64_audio : option string;
  research_result : option string }.

End Frame.

(* ===================================================================== *)
(** * The page *)
(* ===================================================================== *)

Module Dom.

Import JSNumber.

Inductive Chip :=
| CostChip (text : string)
| AgentFlowChip (collapsed : bool) (flow : Frame.AgentFlow).

(** The nodes the handlers append to the message container. An audio
    player is named by the key of its audio element in [audios]. *)
Inductive Node :=
| MessageNode (className : string) (innerHTML : string) (chips : option (list Chip))
| ErrorCard (title : string) (message : string)
| ImageNode (src : string)
| AudioPlayerNode (audio : nat)
| ResearchNode (markdown : string).

(** The state of an [<audio>] element the handlers read and write. *)
Record Audio := {
  src : string;
  paused : bool;
  currentTime : number;
  duration : number }.

(** The play button: it shows Pause and carries the class [playing], or it
    shows Play. *)
Record Button := { playing : bool }.

Record AudioControls := {
  audio : Audio;
  playButton : Button;
  base64Audio : string }.

Record Page := {
  messagesContainer : list Node;
  totalCost : string;
  remainingBudget : string;
  cost_warning : bool;
  audios : gmap nat AudioControls;
  currentAudio : option nat }.

Inductive Error := TypeError | InvalidCharacterError.

(** How a piece of handler code ends. *)
Inductive Outcome (A : Type) :=
| Returned (a : A)
| Threw (e : Error).
Arguments Returned {A} a.
Arguments Threw {A} e.

(** Code that reads and writes the page and may throw. The page that comes
    back holds the writes made before a throw. *)
Definition Handler (A : Type) : Type := Page -> Outcome A * Page.

Definition ret {A} (a : A) : Handler A := fun p => (Returned a, p).
Definition throw {A} (e : Error) : Handler A := fun p => (Threw e, p).
Definition bind {A B} (c : Handler A) (k : A -> Handler B) : Handler B :=
  fun p =>
    match c p with
    | (Returned a, p') => k a p'
    | (Threw e, p') => (Threw e, p')
    end.
Definition get : Handler Page := fun p => (Returned p, p).
Definition modify (f : Page -> Page) : Handler unit := fun p => (Returned tt, f p).

Declare Scope handler_scope.
Delimit Scope handler_scope with handler.
Bind Scope handler_scope with Handler.
Notation "x <- c ;; k" := (bind c (fun x => k))
  (at level 20, c at level 99, k at level 200, right associativity) : handler_scope.
Notation "c ;; k" := (bind c (fun _ => k))
  (at level 100, k at level 200, right associativity) : handler_scope.

(** The page an event handler leaves, whether it returned or threw. *)
Definition settle {A} (c : Handler A) (p : Page) : Page := snd (c p).

Definition set_messagesContainer (l : list Node) (p : Page) : Page :=
  {| messagesContainer := l; totalCost := totalCost p;
     remainingBudget := remainingBudget p; cost_warning := cost_warning p;
     audios := audios p; currentAudio := currentAudio p |}.

Definition set_totalCost (t : string) (p : Page) : Page :=
  {| messagesContainer := messagesContainer p; totalCost := t;
     remainingBudget := remainingBudget p; cost_warning := cost_warning p;
     audios := audios p; currentAudio := currentAudio p |}.

Definition set_remainingBudget (t : string) (p : Page) : Page :=
  {| messagesContainer := messagesContainer p; totalCost := totalCost p;
     remainingBudget := t; cost_warning := cost_warning p;
     audios := audios p; currentAudio := currentAudio p |}.

Definition set_cost_warning (w : bool) (p : Page) : Page :=
  {| messagesContainer := messagesContainer p; totalCost := totalCost p;
     remainingBudget := remainingBudget p; cost_warning := w;
     audios := audios p; currentAudio := currentAudio p |}.

Definition set_audios (m : gmap nat AudioControls) (p : Page) : Page :=
  {| messagesContainer := messagesContainer p; totalCost := totalCost p;
     remainingBudget := remainingBudget p; cost_warning := cost_warning p;
     audios := m; currentAudio := currentAudio p |}.

Definition set_currentAudio (c : option nat) (p : Page) : Page :=
  {| messagesContainer := messagesContainer p; totalCost := totalCost p;
     remainingBudget := remainingBudget p; cost_warning := cost_warning p;
     audios := audios p; currentAudio := c |}.

(** [container.appendChild(node)] *)
Definition appendChild (node : Node) (p : Page) : Page :=
  set_messagesContainer (messagesContainer p ++ [node]) p.

Definition with_audio (f : Audio -> Audio) (w : AudioControls) : AudioControls :=
  {| audio := f (audio w); playButton := playButton w; base64Audio := base64Audio w |}.

Definition with_playButton (b : Button) (w : AudioControls) : AudioControls :=
  {| audio := audio w; playButton := b; base64Audio := base64Audio w |}.

Definition paused_to (b : bool) (x : Audio) : Audio :=
  {| src := src x; paused := b; currentTime := currentTime x;
     duration := duration x |}.

Definition currentTime_to (v : number) (x : Audio) : Audio :=
  {| src := src x; paused := paused x; currentTime := v;
     duration := duration x |}.

(** An update of the element [a]. *)
Definition update_audio (f : Audio -> Audio) (a : nat) : Handler unit :=
  modify (fun p => set_audios (alter (with_audio f) a (audios p)) p).

(** [audio.pause()] *)
Definition pause (a : nat) : Handler unit := update_audio (paused_to true) a.

(** [audio.play()] *)
Definition play (a : nat) : Handler unit := update_audio (paused_to false) a.

(** [audio.currentTime = v]. The attribute is a [double] of Web IDL: a
    value that is not finite is refused with a [TypeError] and nothing is
    written. *)
Definition set_currentTime (a : nat) (v : number) : Handler unit :=
  if isFinite v then update_audio (currentTime_to v) a
  else throw TypeError.

End Dom.

(* ===================================================================== *)
(** * Dates *)
(* ===================================================================== *)

Module JSDate.

Local Open Scope string_scope.

(** The UTC fields of a time value: the month counts from 1. *)
Record Date := {
  year : Z;
  month : N;
  day : N;
  hours : N;
  minutes : N;
  seconds : N;
  milliseconds : N }.

(** A field written with at least [w] digits. *)
Definition digits (w : nat) (n : N) : string :=
  JSString.padStart w "0" (pretty n).

(** [d.toISOString()]: [YYYY-MM-DDTHH:mm:ss.sssZ], the year with a sign
    and six digits when it is not in 0 .. 9999. *)
Definition toISOString (d : Date) : string :=
  (if (0 <=? year d)%Z && (year d <=? 9999)%Z then digits 4 (Z.to_N (year d))
   else (if (year d <? 0)%Z then "-" else "+") ++ digits 6 (Z.to_N (Z.abs (year d)))) ++
  "-" ++ digits 2 (month d) ++ "-" ++ digits 2 (day d) ++
  "T" ++ digits 2 (hours d) ++ ":" ++ digits 2 (minutes d) ++
  ":" ++ digits 2 (seconds d) ++ "." ++ digits 3 (milliseconds d) ++ "Z".

End JSDate.

(* ===================================================================== *)
(** * message-component.js *)
(* ===================================================================== *)

Module MessageComponent.

Import JSNumber Dom Frame.
Local Open Scope handler_scope.
Local Open Scope string_scope.

Section Component.

Variable toString_shortest : number -> string.

(** [_createMessageContent]: the [innerHTML] of the content node. *)
Definition _createMessageContent (message : string) (isUser : bool) : string :=
  "<strong>" ++ (if isUser then "You" else "Bot") ++ ":</strong> " ++ message.

(** [_createCostChip]: the text of the chip (its icon is left out). *)
Definition _createCostChip (cost : number) : Chip :=
  CostChip ("$" ++ toFixed toString_shortest cost 3).

(** [_createAgentFlowChip]: the chip starts collapsed. *)
Definition _createAgentFlowChip (agentFlow : AgentFlow) : Chip :=
  AgentFlowChip true agentFlow.

(** The click handler of the flow header: [classList.toggle("collapsed")]. *)
Definition flowHeader_click (chip : Chip) : Chip :=
  match chip with
  | AgentFlowChip collapsed flow => AgentFlowChip (negb collapsed) flow
  | CostChip _ => chip
  end.

(** [_createChipsContainer]: [costInfo?.request_cost] is tested for
    truthiness, [agentFlow] for presence. *)
Definition _createChipsContainer (costInfo : option CostInfo)
    (agentFlow : option AgentFlow) : list Chip :=
  (match costInfo with
   | Some ci =>
       match request_cost ci with
       | Some cost => if ToBoolean cost then [_createCostChip cost] else []
       | None => []
       end
   | None => []
   end) ++
  (match agentFlow with
   | Some flow => [_createAgentFlowChip flow]
   | None => []
   end).

(** [appendMessage(message, isUser, costInfo, agentFlow)] *)
Definition appendMessage (message : string) (isUser : bool)
    (costInfo : option CostInfo) (agentFlow : option AgentFlow) : Handler unit :=
  let className :=
    "message " ++ (if isUser then ChatConstants.MESSAGE_TYPES.USER
                   else ChatConstants.MESSAGE_TYPES.BOT) in
  let messageContent := _createMessageContent message isUser in
  let chips :=
    if negb isUser && (bool_decide (is_Some costInfo) || bool_decide (is_Some agentFlow))
    then Some (_createChipsContainer costInfo agentFlow)
    else None in
  modify (appendChild (MessageNode className messageContent chips)).

(** [appendError(title, message)] *)
Definition appendError (title message : string) : Handler unit :=
  modify (appendChild (ErrorCard title message)).

(** [createAudioPlayer(base64Audio)]: a new audio element, paused at 0
    with no duration known yet, and its controls. The element is not made
    a child of any node. *)
Definition createAudioPlayer (base64Audio : string) : Handler Node :=
  p <- get ;;
  let id := fresh (dom (audios p)) in
  let element :=
    {| src := "data:" ++ ChatConstants.MIME_TYPES.AUDIO ++ ";base64," ++ base64Audio;
       paused := true; currentTime := of_Z 0; duration := NaN |} in
  modify (set_audios (<[id := {| audio := element;
                                 playButton := {| playing := false |};
                                 base64Audio := base64Audio |}]> (audios p))) ;;
  ret (AudioPlayerNode id).

(** [_resetAudioButton(button)], for the play button of player [a]. *)
Definition _resetAudioButton (a : nat) : Handler unit :=
  modify (fun p => set_audios (alter (with_playButton {| playing := false |}) a (audios p)) p).

(** [_resetCurrentAudio()]. After the pause and the rewind it reads
    [this.currentAudio.parentElement.querySelector]: the element has no
    parent (see [createAudioPlayer]), so [parentElement] is [null] and the
    call throws before the button is reset. *)
Definition _resetCurrentAudio : Handler unit :=
  p <- get ;;
  match currentAudio p with
  | Some c =>
      pause c ;;
      set_currentTime c (of_Z 0) ;;
      throw TypeError
  | None => throw TypeError
  end.

(** [_playAudio(audio, button)] *)
Definition _playAudio (a : nat) : Handler unit :=
  play a ;;
  modify (fun p => set_audios (alter (with_playButton {| playing := true |}) a (audios p)) p) ;;
  modify (set_currentAudio (Some a)).

(** [_pauseAudio(audio, button)] *)
Definition _pauseAudio (a : nat) : Handler unit :=
  pause a ;;
  _resetAudioButton a.

(** The click handler of the play button of player [a]
    ([_createPlayButton]). *)
Definition playButton_click (a : nat) : Handler unit :=
  p <- get ;;
  (match currentAudio p with
   | Some c => if decide (c <> a) then _resetCurrentAudio else ret tt
   | None => ret tt
   end) ;;
  p <- get ;;
  match audios p !! a with
  | Some w => if paused (audio w) then _playAudio a else _pauseAudio a
  | None => throw TypeError
  end.

(** The click handler of the progress track of player [a]
    ([_createProgressContainer]); [pos] is
    [(e.clientX - rect.left) / rect.width]. *)
Definition progressContainer_click (a : nat) (pos : number) : Handler unit :=
  p <- get ;;
  match audios p !! a with
  | Some w => set_currentTime a (mul pos (duration (audio w)))
  | None => throw TypeError
  end.

(** The [ended] listener of player [a] ([_setupAudioEventListeners]). *)
Definition audio_ended (a : nat) : Handler unit :=
  _resetAudioButton a ;;
  modify (set_currentAudio None).

(** A double quote and a line feed, for the templates below. *)
Definition dquote : string := String "034"%char "".
Definition LF : string := String "010"%char "".
Definition indent (n : nat) : string := JSString.replicate n " ".

(** The template of [_formatToolCalls] for one call. [parameters call]
    stands for the text [JSON.stringify(call.parameters, null, 2)] gives;
    the result line is there when [call.result] is truthy. *)
Definition _formatToolCalls_call (call : ToolCall) : string :=
  LF ++ indent 12 ++ "<div class=" ++ dquote ++ "tool-call" ++ dquote ++ ">" ++
  LF ++ indent 16 ++ "<div class=" ++ dquote ++ "tool-call-name" ++ dquote ++ ">" ++
    name call ++ "</div>" ++
  LF ++ indent 16 ++ "<pre>" ++ parameters call ++ "</pre>" ++
  LF ++ indent 16 ++
    (match result call with
     | Some r =>
         if JSString.ToBoolean r
         then "<div class=" ++ dquote ++ "tool-result" ++ dquote ++ ">Result: " ++ r ++ "</div>"
         else ""
     | None => ""
     end) ++
  LF ++ indent 12 ++ "</div>" ++
  LF ++ indent 8.

(** [_formatToolCalls(toolCalls)]: [map] and [join('')]. *)
Definition _formatToolCalls (toolCalls : list ToolCall) : string :=
  String.concat "" (map _formatToolCalls_call toolCalls).

(** [_formatInternalMessages(messages)] *)
Definition _formatInternalMessages (messages : list string) : string :=
  String.concat ""
    (map (fun msg => "<div class=" ++ dquote ++ "internal-message" ++ dquote ++ ">" ++
                     msg ++ "</div>") messages).

(** [JSON.stringify(agentFlow, null, 2)], the text of the whole
    structure. *)
Variable JSON_stringify : AgentFlow -> string.

(** [_createFlowContent(agentFlow)]: the [innerHTML] of the trace body. An
    array that is present is truthy, also when it is empty. *)
Definition _createFlowContent (agentFlow : AgentFlow) : string :=
  let formattedFlow := "" in
  let formattedFlow :=
    match tool_calls agentFlow with
    | Some toolCalls => formattedFlow ++ _formatToolCalls toolCalls
    | None => formattedFlow
    end in
  let formattedFlow :=
    match internal_messages agentFlow with
    | Some messages => formattedFlow ++ _formatInternalMessages messages
    | None => formattedFlow
    end in
  if JSString.ToBoolean formattedFlow then formattedFlow
  else JSON_stringify agentFlow.

(** [_createTimeDisplay]: the text the time display starts with. *)
Definition _createTimeDisplay : string := "0:00 / 0:00".

(** The [timeupdate] listener ([_setupAudioEventListeners]) on an element
    in state [x]: the value it assigns to [progressBar.style.width] and
    the one it assigns to [timeDisplay.textContent]. *)
Definition audio_timeupdate (x : Audio) : string * string :=
  let progress := mul (div (currentTime x) (duration x)) (of_Z 100) in
  (Number_toString toString_shortest progress ++ "%",
   AudioUtils.formatTime toString_shortest (currentTime x) ++ " / " ++
   AudioUtils.formatTime toString_shortest (duration x)).

(** [s.replace(/[-:]/g, "")] *)
Fixpoint remove_dash_colon (s : string) : string :=
  match s with
  | EmptyString => EmptyString
  | String c s' =>
      if Ascii.eqb c "-" || Ascii.eqb c ":" then remove_dash_colon s'
      else String c (remove_dash_colon s')
  end.

(** The [download] name of the link: [new Date().toISOString()] cut after
    the seconds, without its dashes and colons. *)
Definition download_name (now : JSDate.Date) : string :=
  "audio_" ++ remove_dash_colon (JSString.slice (JSDate.toISOString now) 0 19) ++ ".mp3".

(** What a click on the download button hands to the browser: the blob
    behind the object URL and the [download] name of the link. *)
Record Download := { href : AudioUtils.Blob; download : string }.

(** The click handler of the download button of player [a]
    ([_createDownloadButton]); [now] is [new Date()]. The decoding comes
    first, so nothing is done when [atob] throws. *)
Definition downloadButton_click (a : nat) (now : JSDate.Date) : Handler Download :=
  p <- get ;;
  match audios p !! a with
  | Some w =>
      match AudioUtils.base64ToBlob (base64Audio w) ChatConstants.MIME_TYPES.AUDIO with
      | Some blob =>
          ret {| href := blob; download := download_name now |}
      | None => throw InvalidCharacterError
      end
  | None => throw TypeError
  end.

End Component.

End MessageComponent.

(* ===================================================================== *)
(** * websocket-handler.js *)
(* ===================================================================== *)

Module WebSocketHandler.

Import JSNumber Dom Frame.
Local Open Scope handler_scope.
Local Open Scope string_scope.

(** The title [handleErrorMessage] picks for an error text. *)
Definition classify (errorMessage : string) : string :=
  let title := ChatConstants.ERROR_TYPES.GENERIC in
  if JSString.includes errorMessage "Prompt must be length" then
    ChatConstants.ERROR_TYPES.PROMPT_TOO_LONG
  else if JSString.includes errorMessage "budget exceeded" then
    ChatConstants.ERROR_TYPES.BUDGET_EXCEEDED
  else title.

(** [data.message?.startsWith("Error:")] *)
Definition isErrorFrame (data : InboundFrame) : bool :=
  match message data with
  | Some m => JSString.startsWith m "Error:"
  | None => false
  end.

Section Handler.

Variable toString_shortest : number -> string.

(** [handleErrorMessage(data)] *)
Definition handleErrorMessage (data : InboundFrame) : Handler unit :=
  match message data with
  | Some m =>
      let errorMessage := JSString.trim (JSString.substring 7 m) in
      MessageComponent.appendError (classify errorMessage) errorMessage
  | None => throw TypeError
  end.

(** [handleImageMessage(base64Image)] *)
Definition handleImageMessage (base64Image : string) : Handler unit :=
  modify (appendChild
    (ImageNode ("data:" ++ ChatConstants.MIME_TYPES.IMAGE ++ ";base64," ++ base64Image))).

(** [handleAudioMessage(base64Audio)] *)
Definition handleAudioMessage (base64Audio : string) : Handler unit :=
  audioPlayer <- MessageComponent.createAudioPlayer base64Audio ;;
  modify (appendChild audioPlayer).

(** [handleResearchMessage(researchResult)]: the node shows
    [DOMPurify.sanitize(marked.parse(researchResult))]. *)
Definition handleResearchMessage (researchResult : string) : Handler unit :=
  modify (appendChild (ResearchNode researchResult)).

(** [updateCostDisplay(costInfo)] *)
Definition updateCostDisplay (costInfo : option CostInfo) : Handler unit :=
  match costInfo with
  | None => ret tt
  | Some ci =>
      (match total_cost ci with
       | Some t => modify (set_totalCost (toFixed toString_shortest t 3))
       | None => ret tt
       end) ;;
      match remaining_budget ci with
      | Some r =>
          modify (set_remainingBudget (toFixed toString_shortest r 2)) ;;
          if ltb r ChatConstants.LOW_BUDGET_THRESHOLD
          then modify (set_cost_warning true)
          else modify (set_cost_warning false)
      | None => ret tt
      end
  end.

(** [handleWebSocketMessage(data)] *)
Definition handleWebSocketMessage (data : InboundFrame) : Handler unit :=
  (match cost_info data with
   | Some ci => updateCostDisplay (Some ci)
   | None => ret tt
   end) ;;
  if isErrorFrame data then
    handleErrorMessage data
  else
    (match message data with
     | Some m =>
         if JSString.ToBoolean m
         then MessageComponent.appendMessage toString_shortest m false
                (cost_info data) (agent_flow data)
         else ret tt
     | None => ret tt
     end) ;;
    (match base64_image data with
     | Some i => if JSString.ToBoolean i then handleImageMessage i else ret tt
     | None => ret tt
     end) ;;
    (match base64_audio data with
     | Some a => if JSString.ToBoolean a then handleAudioMessage a else ret tt
     | None => ret tt
     end) ;;
    (match research_result data with
     | Some r => if JSString.ToBoolean r then handleResearchMessage r else ret tt
     | None => ret tt
     end).

(** [sendMessage(message)]: the part that writes the page. *)
Definition sendMessage (message : string) : Handler unit :=
  if JSString.ToBoolean message
  then MessageComponent.appendMessage toString_shortest message true None None
  else ret tt.

End Handler.

End WebSocketHandler.

(* ===================================================================== *)
(** * The socket *)
(* ===================================================================== *)

Module WebSocket.

Inductive ReadyState := CONNECTING | OPEN | CLOSING | CLOSED.

(** What the client sees of its connection: the state, and the text
    messages handed to the connection so far, oldest first. *)
Record Socket := {
  readyState : ReadyState;
  transmitted : list string }.

Inductive DOMException := InvalidStateError.

(** [ws.send(data)] of the WebSockets standard: it throws while the socket
    is connecting, transmits on an open socket, and does nothing else once
    the closing handshake has started. *)
Definition send (data : string) (ws : Socket) : DOMException + Socket :=
  match readyState ws with
  | CONNECTING => inl InvalidStateError
  | OPEN => inr {| readyState := OPEN; transmitted := transmitted ws ++ [data] |}
  | CLOSING | CLOSED => inr ws
  end.

End WebSocket.

(* ===================================================================== *)
(** * chat-app.js *)
(* ===================================================================== *)

Module ChatApp.

Import JSNumber Dom Frame WebSocket.
Local Open Scope string_scope.

(** The application: the text in the input field, the socket of the
    handler, and the page. *)
Record App := {
  messageInput : string;
  ws : Socket;
  page : Page }.

Inductive Thrown :=
| FromPage (e : Error)
| FromSocket (e : DOMException).

(** How a listener of the application ends. *)
Inductive Result := Done | Throws (e : Thrown).

Definition set_messageInput (value : string) (app : App) : App :=
  {| messageInput := value; ws := ws app; page := page app |}.

Definition set_ws (s : Socket) (app : App) : App :=
  {| messageInput := messageInput app; ws := s; page := page app |}.

Definition set_page (p : Page) (app : App) : App :=
  {| messageInput := messageInput app; ws := ws app; page := p |}.

Section App.

Variable toString_shortest : number -> string.

(** [WebSocketHandler.sendMessage(message)], with the socket: the bubble
    is appended first, then the text is sent. *)
Definition wsHandler_sendMessage (message : string) (app : App) : Result * App :=
  if JSString.ToBoolean message then
    match MessageComponent.appendMessage toString_shortest message true None None (page app) with
    | (Returned _, p) =>
        match send message (ws app) with
        | inr s => (Done, set_ws s (set_page p app))
        | inl e => (Throws (FromSocket e), set_page p app)
        end
    | (Threw e, p) => (Throws (FromPage e), set_page p app)
    end
  else (Done, app).

(** [ChatApp.sendMessage()] *)
Definition sendMessage (app : App) : Result * App :=
  let message := messageInput app in
  if JSString.ToBoolean message then
    match wsHandler_sendMessage message app with
    | (Done, app') => (Done, set_messageInput "" app')
    | (Throws e, app') => (Throws e, app')
    end
  else (Done, app).

(** The [keypress] listener of the input field; [key] is [e.key]. *)
Definition messageInput_keypress (key : string) (app : App) : Result * App :=
  if String.eqb key "Enter" then sendMessage app else (Done, app).

(** [ws.onmessage] for a frame that [JSON.parse] has read. *)
Definition ws_onmessage (data : InboundFrame) (app : App) : Result * App :=
  match WebSocketHandler.handleWebSocketMessage toString_shortest data (page app) with
  | (Returned _, p) => (Done, set_page p app)
  | (Threw e, p) => (Throws (FromPage e), set_page p app)
  end.

End App.

End ChatApp.

(* ===================================================================== *)
(** * Part II: verification *)
(* ===================================================================== *)

(** ** Strings *)

Module JSStringFacts.

Import JSString.
Local Open Scope string_scope.
Local Arguments String.append !_ _ / : simpl nomatch.

(** [t] occurs in [s]: some text before it and some text after it make
    up [s]. *)
Definition occurs (t s : string) : Prop :=
  exists pre post, s = pre ++ t ++ post.

Lemma prefix_true_iff (t s : string) :
  String.prefix t s = true <-> exists post, s = t ++ post.
Proof.
  revert s. induction t as [|a t IH]; intros s.
  - split; [intros _; by exists s | by destruct s].
  - destruct s as [|b s]; simpl.
    + split; [discriminate | intros [post H]; discriminate].
    + destruct (ascii_dec a b) as [->|Hne].
      * rewrite IH. split; intros [post H]; exists post; simpl in *. all: congruence.
      * split; [discriminate | intros [post H]; simpl in H; congruence].
Qed.

Lemma includes_nil (t : string) :
  includes "" t = String.prefix t "" || false.
Proof. reflexivity. Qed.

Lemma includes_cons (c : ascii) (s t : string) :
  includes (String c s) t = String.prefix t (String c s) || includes s t.
Proof. reflexivity. Qed.

Lemma includes_true_iff (s t : string) :
  includes s t = true <-> occurs t s.
Proof.
  unfold occurs. induction s as [|c s IH].
  - rewrite includes_nil, orb_false_r, prefix_true_iff. split.
    + intros [post H]. by exists "", post.
    + intros (pre & post & H). destruct pre; simpl in H; [by exists post|discriminate].
  - rewrite includes_cons, orb_true_iff, prefix_true_iff, IH. split.
    + intros [[post H]|(pre & post & H)].
      * by exists "", post.
      * exists (String c pre), post. simpl. by rewrite H.
    + intros (pre & post & H). destruct pre as [|c' pre]; simpl in H.
      * left. by exists post.
      * right. exists pre, post. congruence.
Qed.

Lemma includes_false_iff (s t : string) :
  includes s t = false <-> ~ occurs t s.
Proof.
  rewrite <- includes_true_iff. destruct (includes s t); split; congruence.
Qed.


Lemma length_app (a b : string) :
  String.length (a ++ b) = (String.length a + String.length b)%nat.
Proof. induction a; simpl; congruence. Qed.



Lemma take_substring n s : take n s ++ substring n s = s.
Proof. revert s. induction n; intros [|c s]; simpl; auto. by rewrite IHn. Qed.


End JSStringFacts.

(** ** Bounded checks *)

Module Bounded.

(** [P] holds of the [fuel] numbers from [k] on. *)
Fixpoint all_from (fuel : nat) (k : N) (P : N -> bool) : bool :=
  match fuel with
  | O => true
  | S fuel' => P k && all_from fuel' (N.succ k) P
  end.

Lemma all_from_spec (fuel : nat) (k : N) (P : N -> bool) :
  all_from fuel k P = true ->
  forall j : N, (k <= j < k + N.of_nat fuel)%N -> P j = true.
Proof.
  revert k. induction fuel as [|fuel IH]; intros k H j Hj; [lia|].
  simpl in H. apply andb_true_iff in H as [Hk Hrest].
  destruct (decide (j = k)) as [->|Hne]; [done|].
  apply (IH (N.succ k)); [done | lia].
Qed.

Lemma all_below (n : N) (P : N -> bool) :
  all_from (N.to_nat n) 0 P = true -> forall j : N, (j < n)%N -> P j = true.
Proof. intros H j Hj. apply (all_from_spec _ _ _ H). lia. Qed.

End Bounded.

(** ** Rounding of products *)

Module JSNumberFacts.

Import JSNumber.

Ltac Zify.zify_post_hook ::= Z.div_mod_to_equations.

Lemma digits2_bounds (p : positive) :
  2 ^ (Z.pos (digits2_pos p) - 1) <= Z.pos p < 2 ^ Z.pos (digits2_pos p).
Proof.
  induction p as [p IH|p IH|]; simpl digits2_pos.
  - rewrite Pos2Z.inj_succ, (Pos2Z.inj_xI p).
    replace (Z.succ (Z.pos (digits2_pos p)) - 1) with (Z.succ (Z.pos (digits2_pos p) - 1))
      by (clear; lia).
    rewrite !Z.pow_succ_r by lia. lia.
  - rewrite Pos2Z.inj_succ, (Pos2Z.inj_xO p).
    replace (Z.succ (Z.pos (digits2_pos p)) - 1) with (Z.succ (Z.pos (digits2_pos p) - 1))
      by (clear; lia).
    rewrite !Z.pow_succ_r by lia. lia.
  - simpl. lia.
Qed.

(** A positive number below [2^k] has at most [k] digits. *)
Lemma digits2_le (p : positive) (k : Z) :
  Z.pos p < 2 ^ k -> Z.pos (digits2_pos p) <= k.
Proof.
  intros H. destruct (digits2_bounds p) as [Hlo _].
  destruct (Z.le_gt_cases (Z.pos (digits2_pos p)) k) as [|Hgt]; [assumption|].
  assert (2 ^ k <= 2 ^ (Z.pos (digits2_pos p) - 1)).
  { apply Z.pow_le_mono_r; lia. }
  lia.
Qed.

Lemma iter_pos_nat {A} (f : A -> A) (p : positive) (x : A) :
  SpecFloat.iter_pos f p x = Nat.iter (Pos.to_nat p) f x.
Proof.
  revert x. induction p as [p IH|p IH|]; intros x; cbn [SpecFloat.iter_pos].
  - rewrite !IH, Pos2Nat.inj_xI.
    replace (S (2 * Pos.to_nat p)) with (Pos.to_nat p + (Pos.to_nat p + 1))%nat by lia.
    rewrite !Nat.iter_add. reflexivity.
  - rewrite !IH, Pos2Nat.inj_xO.
    replace (2 * Pos.to_nat p)%nat with (Pos.to_nat p + Pos.to_nat p)%nat by lia.
    rewrite Nat.iter_add. reflexivity.
  - reflexivity.
Qed.

Lemma shr_1_spec (mrs : shr_record) :
  0 <= shr_m mrs ->
  shr_m (shr_1 mrs) = shr_m mrs / 2 /\
  shr_r (shr_1 mrs) = Z.odd (shr_m mrs) /\
  shr_s (shr_1 mrs) = shr_r mrs || shr_s mrs.
Proof.
  destruct mrs as [m r s]. simpl. intros Hm.
  destruct m as [|[p|p|]|p]; simpl; try lia; repeat split; try reflexivity.
  - rewrite (Pos2Z.inj_xI p). lia.
  - rewrite (Pos2Z.inj_xO p). lia.
Qed.

Definition exact (M : Z) : shr_record :=
  {| shr_m := M; shr_r := false; shr_s := false |}.

Lemma pow2_pos (k : Z) : 0 <= k -> 0 < 2 ^ k.
Proof. intros. apply Z.pow_pos_nonneg; lia. Qed.

Lemma shr_iter (n : nat) (M : Z) :
  0 <= M ->
  shr_m (Nat.iter n shr_1 (exact M)) = M / 2 ^ Z.of_nat n /\
  (shr_r (Nat.iter n shr_1 (exact M)) || shr_s (Nat.iter n shr_1 (exact M)) = true ->
   M mod 2 ^ Z.of_nat n <> 0).
Proof.
  intros HM. induction n as [|n [IHm IHrs]].
  - simpl. split; [by rewrite Z.div_1_r | discriminate].
  - simpl Nat.iter. set (mrs := Nat.iter n shr_1 (exact M)) in *.
    pose proof (pow2_pos (Z.of_nat n) ltac:(lia)) as Hpos.
    assert (0 <= shr_m mrs) as Hnn by (rewrite IHm; apply Z.div_pos; lia).
    destruct (shr_1_spec mrs Hnn) as (Hm & Hr & Hs).
    rewrite Hm, Hr, Hs, IHm, Nat2Z.inj_succ, Z.pow_succ_r by lia.
    split.
    + rewrite Z.div_div by lia. f_equal. lia.
    + intros Hrs Hmod.
      apply Z.mod_divide in Hmod as [k Hk]; [|lia].
      assert (M = 2 * k * 2 ^ Z.of_nat n) as HM' by lia.
      apply orb_true_iff in Hrs as [Hodd|Hrs].
      * rewrite HM', Z.div_mul in Hodd by lia.
        rewrite Z.odd_mul in Hodd. discriminate Hodd.
      * apply IHrs; [assumption|]. rewrite HM'. apply Z.mod_mul. lia.
Qed.

Lemma shr_fexp_exact (M E : Z) :
  0 <= M ->
  exists mrs e,
    shr_fexp prec emax M E loc_Exact = (mrs, e) /\
    e = Z.max E (fexp prec emax (Zdigits2 M + E)) /\
    shr_m mrs = M / 2 ^ (e - E) /\
    (shr_r mrs || shr_s mrs = true -> M mod 2 ^ (e - E) <> 0).
Proof.
  intros HM. unfold shr_fexp, shr. cbn [shr_record_of_loc].
  fold (exact M).
  destruct (fexp prec emax (Zdigits2 M + E) - E) as [|p|p] eqn:Hn.
  - exists (exact M), E. split; [reflexivity|]. split; [lia|].
    replace (E - E) with 0 by lia. simpl. split; [by rewrite Z.div_1_r|discriminate].
  - exists (SpecFloat.iter_pos shr_1 p (exact M)), (E + Z.pos p). split; [reflexivity|].
    split; [lia|]. replace (E + Z.pos p - E) with (Z.pos p) by lia.
    rewrite iter_pos_nat, <- (positive_nat_Z p). by apply shr_iter.
  - exists (exact M), E. split; [reflexivity|]. split; [lia|].
    replace (E - E) with 0 by lia. simpl. split; [by rewrite Z.div_1_r|discriminate].
Qed.

Lemma round_nearest_even_bounds (mrs : shr_record) :
  shr_m mrs <= round_nearest_even (shr_m mrs) (loc_of_shr_record mrs) <= shr_m mrs + 1 /\
  (shr_r mrs || shr_s mrs = false ->
   round_nearest_even (shr_m mrs) (loc_of_shr_record mrs) = shr_m mrs).
Proof.
  destruct mrs as [m [] []]; simpl; try destruct (Z.even m); split; try lia;
    try discriminate; reflexivity.
Qed.

(** A product that does not exceed the largest number rounds to a finite
    number. *)
Lemma binary_round_aux_finite (sx : bool) (M E : Z) :
  0 < M -> E <= 971 -> M <= (2 ^ 53 - 1) * 2 ^ (971 - E) ->
  isFinite (binary_round_aux prec emax sx M E loc_Exact) = true.
Proof.
  intros HM HE Hbound. unfold binary_round_aux.
  destruct (shr_fexp_exact M E) as (mrs1 & e1 & -> & He1 & Hm1 & Hrs1); [lia|].
  destruct (round_nearest_even_bounds mrs1) as [HM1 Hexact].
  set (M1 := round_nearest_even (shr_m mrs1) (loc_of_shr_record mrs1)) in *.
  (* the exponent after the first shift *)
  assert (2 ^ 53 * 2 ^ (971 - E) = 2 ^ (1024 - E)) as Hsplit.
  { rewrite <- Z.pow_add_r by lia. f_equal. lia. }
  pose proof (pow2_pos (971 - E) ltac:(lia)) as HposE.
  assert (Zdigits2 M + E <= 1024) as Hdig.
  { destruct M as [|q|q]; try lia. simpl Zdigits2.
    enough (Z.pos (digits2_pos q) <= 1024 - E) by lia.
    apply digits2_le. rewrite <- Hsplit. lia. }
  assert (E <= e1 <= 971) as He1b.
  { rewrite He1. unfold fexp, SpecFloat.emin, prec, emax. lia. }
  pose proof (pow2_pos (e1 - E) ltac:(lia)) as Hpos1.
  pose proof (pow2_pos (971 - e1) ltac:(lia)) as Hposk.
  assert (2 ^ (971 - E) = 2 ^ (971 - e1) * 2 ^ (e1 - E)) as Hsplit2.
  { rewrite <- Z.pow_add_r by lia. f_equal. lia. }
  assert (0 <= shr_m mrs1) as Hnn1 by (rewrite Hm1; apply Z.div_pos; lia).
  assert (M1 < 2 ^ 53 * 2 ^ (971 - e1)) as HM1lt.
  { assert (shr_m mrs1 <= (2 ^ 53 - 1) * 2 ^ (971 - e1)) as Hle.
    { rewrite Hm1. apply Z.div_le_upper_bound; [lia|].
      rewrite Hsplit2 in Hbound. lia. }
    destruct (Z.eq_dec (shr_m mrs1) ((2 ^ 53 - 1) * 2 ^ (971 - e1))) as [Heq|Hne].
    - assert (M = shr_m mrs1 * 2 ^ (e1 - E)) as HMeq.
      { pose proof (Z.mul_div_le M (2 ^ (e1 - E)) Hpos1) as Hlow.
        rewrite <- Hm1 in Hlow. rewrite Hsplit2 in Hbound. rewrite Heq in *. lia. }
      assert (shr_r mrs1 || shr_s mrs1 = false) as Hrs.
      { destruct (shr_r mrs1 || shr_s mrs1) eqn:Hb; [|reflexivity].
        exfalso. apply (Hrs1 eq_refl). rewrite HMeq. apply Z.mod_mul. lia. }
      rewrite (Hexact Hrs), Heq. lia.
    - lia. }
  assert (2 ^ 53 * 2 ^ (971 - e1) = 2 ^ (1024 - e1)) as Hsplit3.
  { rewrite <- Z.pow_add_r by lia. f_equal. lia. }
  destruct (shr_fexp_exact M1 e1) as (mrs2 & e2 & -> & He2 & Hm2 & _); [lia|].
  assert (0 <= shr_m mrs2) as Hnn2.
  { rewrite Hm2. apply Z.div_pos; [lia|]. apply pow2_pos. lia. }
  destruct (shr_m mrs2) as [|m|m] eqn:Hmm; [reflexivity| |lia].
  assert (e2 <= 971) as He2b.
  { rewrite He2. destruct M1 as [|q|q] eqn:HMq.
    - rewrite Z.div_0_l in Hm2; [lia|]. pose proof (pow2_pos (e2 - e1)). lia.
    - simpl Zdigits2.
      assert (Z.pos (digits2_pos q) <= 1024 - e1).
      { apply digits2_le. rewrite <- Hsplit3. lia. }
      unfold fexp, SpecFloat.emin, prec, emax. lia.
    - lia. }
  destruct (e2 <=? emax - prec) eqn:Hle; [reflexivity|].
  apply Z.leb_gt in Hle. unfold emax, prec in Hle. lia.
Qed.

(** The click fraction lies in [0, 1]. *)
Definition in_unit_interval (pos : number) : bool :=
  SFleb (of_Z 0) pos && SFleb pos (of_Z 1).




(** A valid finite number has a mantissa of at most 53 bits and an
    exponent of at most 971. *)
Lemma valid_finite_bounds (s : bool) (m : positive) (e : Z) :
  valid_binary prec emax (S754_finite s m e) = true ->
  Z.pos m < 2 ^ 53 /\ e <= 971.
Proof.
  unfold valid_binary, bounded, canonical_mantissa, fexp, SpecFloat.emin, prec, emax.
  intros [Hc He]%andb_true_iff. apply Z.eqb_eq in Hc. apply Z.leb_le in He.
  split; [|lia].
  destruct (digits2_bounds m) as [_ Hup].
  assert (2 ^ Z.pos (digits2_pos m) <= 2 ^ 53) by (apply Z.pow_le_mono_r; lia).
  lia.
Qed.
Lemma SFleb_finite (m1 m2 : positive) (e1 e2 : Z) :
  SFleb (S754_finite false m1 e1) (S754_finite false m2 e2) = true ->
  e1 < e2 \/ (e1 = e2 /\ Z.pos m1 <= Z.pos m2).
Proof.
  unfold SFleb, SFcompare.
  change (Pos.compare_cont Eq m1 m2) with (m1 ?= m2)%positive.
  destruct (Z.compare_spec e1 e2) as [->|Hlt|Hgt]; [|by left|discriminate].
  destruct (Pos.compare_spec m1 m2) as [->|Hl|Hg]; [right|right|discriminate].
  - split; [reflexivity|]. apply Z.le_refl.
  - split; [reflexivity|]. apply Z.lt_le_incl. by apply Pos2Z.pos_lt_pos.
Qed.

Lemma of_Z_1 : of_Z 1 = S754_finite false 4503599627370496 (-52).
Proof. vm_compute. reflexivity. Qed.

(** A valid number in [0, 1] is at most 1, on integers. *)
Lemma unit_interval_bounds (s : bool) (m : positive) (e : Z) :
  valid_binary prec emax (S754_finite s m e) = true ->
  in_unit_interval (S754_finite s m e) = true ->
  e <= 0 /\ Z.pos m <= 2 ^ (- e).
Proof.
  intros Hv [H0 H1]%andb_true_iff.
  destruct (valid_finite_bounds s m e Hv) as [Hm _].
  destruct s.
  discriminate H0.
  rewrite of_Z_1 in H1.
  apply SFleb_finite in H1 as [Hlt|[-> Hle]].
  - split; [lia|].
    assert (2 ^ 53 <= 2 ^ (- e)) by (apply Z.pow_le_mono_r; lia). lia.
  - split; [lia|]. change (2 ^ (- -52)) with 4503599627370496.
    lia.
Qed.

(** A fraction of a finite number is finite: the product does not
    overflow. *)
Lemma mul_unit_finite (pos d : number) :
  valid_binary prec emax pos = true ->
  valid_binary prec emax d = true ->
  in_unit_interval pos = true ->
  isFinite d = true ->
  isFinite (mul pos d) = true.
Proof.
  intros Hvp Hvd Hu Hd.
  destruct d as [sd| | |sd md ed]; try discriminate Hd;
    destruct pos as [sp|[]| |sp mp ep]; try discriminate Hu; try reflexivity.
  destruct (unit_interval_bounds sp mp ep Hvp Hu) as [Hep Hmp].
  destruct (valid_finite_bounds sd md ed Hvd) as [Hmd Hed].
  unfold mul, SFmul. apply binary_round_aux_finite; [lia|lia|].
  assert (2 ^ (971 - (ep + ed)) = 2 ^ (- ep) * 2 ^ (971 - ed)) as ->.
  { rewrite <- Z.pow_add_r by lia. f_equal. lia. }
  pose proof (pow2_pos (- ep) ltac:(lia)) as H1.
  pose proof (pow2_pos (971 - ed) ltac:(lia)) as H2.
  rewrite Pos2Z.inj_mul.
  apply Z.le_trans with (2 ^ (- ep) * (2 ^ 53 - 1)).
  - apply Z.mul_le_mono_nonneg; lia.
  - nia.
Qed.

Lemma SFltb_finite (m1 m2 : positive) (e1 e2 : Z) :
  SFltb (S754_finite false m1 e1) (S754_finite false m2 e2) = true <->
  e1 < e2 \/ (e1 = e2 /\ Z.pos m1 < Z.pos m2).
Proof.
  unfold SFltb, SFcompare.
  change (Pos.compare_cont Eq m1 m2) with (m1 ?= m2)%positive.
  destruct (Z.compare_spec e1 e2) as [->|Hlt|Hgt].
  - destruct (Pos.compare_spec m1 m2) as [->|Hl|Hg].
    + split; [discriminate|]. intros [?|[_ ?]]; lia.
    + apply Pos2Z.pos_lt_pos in Hl. split; [by right|reflexivity].
    + apply Pos2Z.pos_lt_pos in Hg. split; [discriminate|]. intros [?|[_ ?]]; lia.
  - split; [by left|reflexivity].
  - split; [discriminate|]. intros [?|[? _]]; lia.
Qed.

(** A number above the smallest exponent is normal: its mantissa has 53
    bits. *)
Lemma valid_normal_mantissa (s : bool) (m : positive) (e : Z) :
  valid_binary prec emax (S754_finite s m e) = true ->
  -1074 < e -> 2 ^ 52 <= Z.pos m.
Proof.
  unfold valid_binary, bounded, canonical_mantissa, fexp, SpecFloat.emin, prec, emax.
  intros [Hc _]%andb_true_iff He. apply Z.eqb_eq in Hc.
  destruct (digits2_bounds m) as [Hlo _].
  replace (Z.pos (digits2_pos m) - 1) with 52 in Hlo by lia. exact Hlo.
Qed.




End JSNumberFacts.

(** ** formatTime *)

Module FormatTime.

Import JSNumber JSString AudioUtils.
Local Open Scope string_scope.

(** Minutes and seconds of a whole number of seconds, by integer division:
    the minutes as they are, the seconds with a zero in front when they
    are a single digit. *)
Definition clock (n : N) : string :=
  pretty (n / 60)%N ++ ":" ++
  (if (n mod 60 <? 10)%N then "0" else "") ++ pretty (n mod 60)%N.

Section Facts.

Variable ts : number -> string.

Lemma formatTime_NaN (seconds : number) :
  isNaN seconds = true -> formatTime ts seconds = "0:00".
Proof. by destruct seconds. Qed.

Lemma formatTime_number (seconds : number) :
  isNaN seconds = false ->
  formatTime ts seconds =
    Number_toString ts (Math_floor (div seconds (of_Z 60))) ++ ":" ++
    padStart 2 "0" (Number_toString ts (Math_floor (rem seconds (of_Z 60)))).
Proof. intros H. unfold formatTime. by rewrite H. Qed.

Definition agrees_with_clock (n : N) : bool :=
  String.eqb (formatTime ts (of_Z (Z.of_N n))) (clock n).

Lemma whole_seconds_checked :
  Bounded.all_from (N.to_nat 3600) 0 agrees_with_clock = true.
Proof. vm_compute. reflexivity. Qed.

Lemma formatTime_whole_seconds (n : N) :
  (n < 3600)%N -> formatTime ts (of_Z (Z.of_N n)) = clock n.
Proof.
  intros H. apply String.eqb_eq.
  exact (Bounded.all_below _ _ whole_seconds_checked n H).
Qed.

(** C9. [formatTime] gives ["0:00"] on NaN. On any other number it gives
    the floor of [seconds / 60], a colon, and the floor of
    [seconds % 60] padded with zeros to two characters; the minutes are
    not padded. For a whole number of seconds below one hour these are
    the integer quotient and remainder by 60. So 75 gives ["1:15"], 600
    gives ["10:00"], 59 gives ["0:59"] and 0 gives ["0:00"]. *)
Theorem formatTime_spec :
  (forall seconds, isNaN seconds = true -> formatTime ts seconds = "0:00") /\
  (forall seconds, isNaN seconds = false ->
     formatTime ts seconds =
       Number_toString ts (Math_floor (div seconds (of_Z 60))) ++ ":" ++
       padStart 2 "0" (Number_toString ts (Math_floor (rem seconds (of_Z 60))))) /\
  (forall n : N, (n < 3600)%N ->
     formatTime ts (of_Z (Z.of_N n)) =
       pretty (n / 60)%N ++ ":" ++
       (if (n mod 60 <? 10)%N then "0" else "") ++ pretty (n mod 60)%N) /\
  formatTime ts (of_Z 75) = "1:15" /\
  formatTime ts (of_Z 600) = "10:00" /\
  formatTime ts (of_Z 59) = "0:59" /\
  formatTime ts (of_Z 0) = "0:00".
Proof.
  split; [exact formatTime_NaN|].
  split; [exact formatTime_number|].
  split; [exact formatTime_whole_seconds|].
  repeat split; vm_compute; reflexivity.
Qed.

End Facts.

(** The three general parts of [formatTime_spec], at NaN, at 75.5 and at
    3599 whole seconds. *)
Lemma formatTime_spec_witness :
  formatTime (fun _ => "") NaN = "0:00" /\
  formatTime (fun _ => "") (decimal 755 1) = "1:15" /\
  formatTime (fun _ => "") (of_Z 3599) = "59:59".
Proof.
  pose proof (formatTime_spec (fun _ => "")) as (Hnan & Hnum & Hwhole & _).
  split; [exact (Hnan NaN eq_refl)|].
  split.
  - rewrite (Hnum (decimal 755 1) eq_refl). vm_compute. reflexivity.
  - exact (Hwhole 3599%N eq_refl).
Defined.

End FormatTime.

(** ** The error classifier *)

Module ErrorClassifier.

Import JSString JSStringFacts WebSocketHandler.
Import ChatConstants.ERROR_TYPES.
Local Open Scope string_scope.

Lemma classify_prompt (m : string) :
  occurs "Prompt must be length" m -> classify m = PROMPT_TOO_LONG.
Proof.
  intros H%includes_true_iff. unfold classify. by rewrite H.
Qed.

Lemma classify_budget (m : string) :
  ~ occurs "Prompt must be length" m -> occurs "budget exceeded" m ->
  classify m = BUDGET_EXCEEDED.
Proof.
  intros H1%includes_false_iff H2%includes_true_iff.
  unfold classify. by rewrite H1, H2.
Qed.

Lemma classify_generic (m : string) :
  ~ occurs "Prompt must be length" m -> ~ occurs "budget exceeded" m ->
  classify m = GENERIC.
Proof.
  intros H1%includes_false_iff H2%includes_false_iff.
  unfold classify. by rewrite H1, H2.
Qed.

Lemma classify_cases (m : string) :
  classify m = PROMPT_TOO_LONG \/ classify m = BUDGET_EXCEEDED \/
  classify m = GENERIC.
Proof.
  unfold classify.
  destruct (includes m "Prompt must be length"); [by left|].
  destruct (includes m "budget exceeded"); [right; by left | right; by right].
Qed.

(** C8. The classifier is a function of the error text alone. It tests,
    in this order and first match wins, whether ["Prompt must be length"]
    occurs in the text (then the title is PROMPT_TOO_LONG), else whether
    ["budget exceeded"] occurs (then BUDGET_EXCEEDED), else the title is
    GENERIC. Every text gets one of the three titles, also a text in which
    both occur; the test is case sensitive. *)
Theorem classify_first_match (m : string) :
  (occurs "Prompt must be length" m -> classify m = PROMPT_TOO_LONG) /\
  (~ occurs "Prompt must be length" m -> occurs "budget exceeded" m ->
     classify m = BUDGET_EXCEEDED) /\
  (~ occurs "Prompt must be length" m -> ~ occurs "budget exceeded" m ->
     classify m = GENERIC) /\
  (classify m = PROMPT_TOO_LONG \/ classify m = BUDGET_EXCEEDED \/
     classify m = GENERIC) /\
  classify "budget exceeded: Prompt must be length 10" = PROMPT_TOO_LONG /\
  classify "prompt must be length 10" = GENERIC /\
  classify "Budget Exceeded" = GENERIC.
Proof.
  split; [apply classify_prompt|].
  split; [apply classify_budget|].
  split; [apply classify_generic|].
  split; [apply classify_cases|].
  by repeat split.
Qed.

(** The three texts of the specification's examples. *)
Lemma classify_first_match_witness :
  classify "Prompt must be length <= 100" = PROMPT_TOO_LONG /\
  classify "budget exceeded for session" = BUDGET_EXCEEDED /\
  classify "unknown failure" = GENERIC.
Proof.
  split; [|split].
  - apply (proj1 (classify_first_match "Prompt must be length <= 100")).
    by exists "", " <= 100".
  - apply (proj1 (proj2 (classify_first_match "budget exceeded for session"))).
    + by intros H%includes_true_iff.
    + by exists "", " for session".
  - apply (proj1 (proj2 (proj2 (classify_first_match "unknown failure")))).
    + by intros H%includes_true_iff.
    + by intros H%includes_true_iff.
Defined.

End ErrorClassifier.

(** ** Handlers *)

Module HandlerFacts.

Import Dom.
Local Open Scope handler_scope.

(** What the ledger shows. *)
Definition ledger (p : Page) : string * string * bool :=
  (totalCost p, remainingBudget p, cost_warning p).

(** The handler returns, whatever the page. *)
Definition returns {A} (c : Handler A) : Prop :=
  forall p, exists a, fst (c p) = Returned a.

(** The handler leaves the ledger as it found it. *)
Definition keeps_ledger {A} (c : Handler A) : Prop :=
  forall p, ledger (snd (c p)) = ledger p.

(** The handler leaves the audio elements and [currentAudio] as it found
    them. *)
Definition keeps_player {A} (c : Handler A) : Prop :=
  forall p, audios (snd (c p)) = audios p /\
            currentAudio (snd (c p)) = currentAudio p.

Lemma returns_ret {A} (a : A) : returns (ret a).
Proof. intros p. by exists a. Qed.

Lemma returns_modify f : returns (modify f).
Proof. intros p. by exists tt. Qed.

Lemma returns_bind {A B} (c : Handler A) (k : A -> Handler B) :
  returns c -> (forall a, returns (k a)) -> returns (bind c k).
Proof.
  intros Hc Hk p. unfold bind.
  destruct (Hc p) as [a Ha]. destruct (c p) as [[a'|e] p']; simpl in Ha; [|done].
  apply Hk.
Qed.

Lemma keeps_ledger_ret {A} (a : A) : keeps_ledger (ret a).
Proof. by intros p. Qed.

Lemma keeps_ledger_modify f :
  (forall p, ledger (f p) = ledger p) -> keeps_ledger (modify f).
Proof. intros H p. apply H. Qed.

Lemma keeps_ledger_bind {A B} (c : Handler A) (k : A -> Handler B) :
  keeps_ledger c -> (forall a, keeps_ledger (k a)) -> keeps_ledger (bind c k).
Proof.
  intros Hc Hk p. unfold bind. specialize (Hc p).
  destruct (c p) as [[a|e] p']; simpl in *; [|done].
  by rewrite Hk.
Qed.

Lemma keeps_player_ret {A} (a : A) : keeps_player (ret a).
Proof. by intros p. Qed.

Lemma keeps_player_modify f :
  (forall p, audios (f p) = audios p /\ currentAudio (f p) = currentAudio p) ->
  keeps_player (modify f).
Proof. intros H p. apply H. Qed.

Lemma keeps_player_bind {A B} (c : Handler A) (k : A -> Handler B) :
  keeps_player c -> (forall a, keeps_player (k a)) -> keeps_player (bind c k).
Proof.
  intros Hc Hk p. unfold bind. specialize (Hc p).
  destruct (c p) as [[a|e] p']; simpl in *; [|done].
  destruct Hc as [<- <-]. apply Hk.
Qed.

Lemma ledger_appendChild node p : ledger (appendChild node p) = ledger p.
Proof. reflexivity. Qed.

Lemma player_appendChild node p :
  audios (appendChild node p) = audios p /\
  currentAudio (appendChild node p) = currentAudio p.
Proof. by split. Qed.

Lemma ledger_set_audios m p : ledger (set_audios m p) = ledger p.
Proof. reflexivity. Qed.

Create HintDb handler.
#[export] Hint Resolve returns_ret returns_modify returns_bind
  keeps_ledger_ret keeps_ledger_modify keeps_ledger_bind
  keeps_player_ret keeps_player_modify keeps_player_bind
  ledger_appendChild player_appendChild ledger_set_audios : handler.

End HandlerFacts.

(** ** The dispatcher *)

Module Dispatcher.

Import JSNumber JSString Dom Frame HandlerFacts.
Import MessageComponent WebSocketHandler.
Local Open Scope handler_scope.
Local Open Scope string_scope.

(** The page after [updateCostDisplay], written as a function. *)
Definition ledger_update (ts : number -> string) (ci : CostInfo) (p : Page) : Page :=
  let p1 :=
    match total_cost ci with
    | Some t => set_totalCost (toFixed ts t 3) p
    | None => p
    end in
  match remaining_budget ci with
  | Some r =>
      set_cost_warning (ltb r ChatConstants.LOW_BUDGET_THRESHOLD)
        (set_remainingBudget (toFixed ts r 2) p1)
  | None => p1
  end.

(** The page before any frame: no message, no audio element, and a ledger
    that shows no cost and the default budget. *)
Definition blank : Page :=
  {| messagesContainer := []; totalCost := "0.000"; remainingBudget := "25.00";
     cost_warning := false; audios := ∅; currentAudio := None |}.

Section Facts.

Variable ts : number -> string.

Lemma updateCostDisplay_run (ci : CostInfo) (p : Page) :
  updateCostDisplay ts (Some ci) p = (Returned tt, ledger_update ts ci p).
Proof.
  unfold updateCostDisplay, ledger_update, bind, modify, ret.
  destruct (total_cost ci), (remaining_budget ci) as [r|]; try reflexivity;
    by destruct (ltb r ChatConstants.LOW_BUDGET_THRESHOLD).
Qed.

Lemma ledger_update_container ci p :
  messagesContainer (ledger_update ts ci p) = messagesContainer p.
Proof. unfold ledger_update. by destruct (total_cost ci), (remaining_budget ci). Qed.

Lemma ledger_update_player ci p :
  audios (ledger_update ts ci p) = audios p /\
  currentAudio (ledger_update ts ci p) = currentAudio p.
Proof. unfold ledger_update. by destruct (total_cost ci), (remaining_budget ci). Qed.

(** The first step of the dispatcher. *)
Definition cost_step (data : InboundFrame) (p : Page) : Page :=
  match cost_info data with
  | Some ci => ledger_update ts ci p
  | None => p
  end.

Lemma returns_appendMessage m u ci fl : returns (appendMessage ts m u ci fl).
Proof. unfold appendMessage. auto with handler. Qed.

Lemma keeps_ledger_appendMessage m u ci fl : keeps_ledger (appendMessage ts m u ci fl).
Proof. unfold appendMessage. auto with handler. Qed.

Lemma returns_handleAudioMessage a : returns (handleAudioMessage a).
Proof.
  unfold handleAudioMessage, createAudioPlayer.
  repeat (apply returns_bind; [|intros]); auto with handler. intros p. by eexists.
Qed.

Lemma keeps_ledger_handleAudioMessage a : keeps_ledger (handleAudioMessage a).
Proof.
  unfold handleAudioMessage, createAudioPlayer.
  repeat (apply keeps_ledger_bind; [|intros]); auto with handler. by intros p.
Qed.

(** The steps after the cost step, for a frame that is not an error
    frame. *)
Definition content_steps (data : InboundFrame) : Handler unit :=
  (match message data with
   | Some m =>
       if ToBoolean m
       then appendMessage ts m false (cost_info data) (agent_flow data)
       else ret tt
   | None => ret tt
   end) ;;
  (match base64_image data with
   | Some i => if ToBoolean i then handleImageMessage i else ret tt
   | None => ret tt
   end) ;;
  (match base64_audio data with
   | Some a => if ToBoolean a then handleAudioMessage a else ret tt
   | None => ret tt
   end) ;;
  (match research_result data with
   | Some r => if ToBoolean r then handleResearchMessage r else ret tt
   | None => ret tt
   end).

Lemma returns_content_steps data : returns (content_steps data).
Proof.
  unfold content_steps, handleImageMessage, handleResearchMessage.
  repeat (apply returns_bind; [|intros]);
    repeat case_match;
    auto using returns_appendMessage, returns_handleAudioMessage with handler.
Qed.

Lemma keeps_ledger_content_steps data : keeps_ledger (content_steps data).
Proof.
  unfold content_steps, handleImageMessage, handleResearchMessage.
  repeat (apply keeps_ledger_bind; [|intros]);
    repeat case_match;
    auto using keeps_ledger_appendMessage, keeps_ledger_handleAudioMessage with handler.
Qed.

(** The dispatcher, step by step. *)
Lemma handleWebSocketMessage_run (data : InboundFrame) (p : Page) :
  handleWebSocketMessage ts data p =
    if isErrorFrame data
    then handleErrorMessage data (cost_step data p)
    else content_steps data (cost_step data p).
Proof.
  unfold handleWebSocketMessage, cost_step, content_steps, bind at 1.
  destruct (cost_info data) as [ci|]; [rewrite updateCostDisplay_run|];
    by destruct (isErrorFrame data).
Qed.

Lemma handleErrorMessage_run (data : InboundFrame) (m : string) (p : Page) :
  message data = Some m ->
  handleErrorMessage data p =
    (Returned tt,
     appendChild (ErrorCard (classify (trim (substring 7 m))) (trim (substring 7 m))) p).
Proof. intros H. unfold handleErrorMessage. by rewrite H. Qed.

Lemma returns_handleWebSocketMessage data : returns (handleWebSocketMessage ts data).
Proof.
  intros p. rewrite handleWebSocketMessage_run.
  destruct (isErrorFrame data) eqn:He; [|apply returns_content_steps].
  unfold isErrorFrame in He. destruct (message data) as [m|] eqn:Hm; [|done].
  rewrite (handleErrorMessage_run _ m) by done. by exists tt.
Qed.

Lemma ledger_handleWebSocketMessage data p :
  ledger (settle (handleWebSocketMessage ts data) p) = ledger (cost_step data p).
Proof.
  unfold settle. rewrite handleWebSocketMessage_run.
  destruct (isErrorFrame data) eqn:He; [|apply keeps_ledger_content_steps].
  unfold isErrorFrame in He. destruct (message data) as [m|] eqn:Hm; [|done].
  by rewrite (handleErrorMessage_run _ m).
Qed.


Lemma cost_step_updateCostDisplay data p :
  cost_step data p = settle (updateCostDisplay ts (cost_info data)) p.
Proof.
  unfold cost_step, settle. destruct (cost_info data) as [ci|]; [|done].
  by rewrite updateCostDisplay_run.
Qed.

Lemma error_frame_run (data : InboundFrame) (m : string) (p : Page) :
  message data = Some m -> startsWith m "Error:" = true ->
  handleWebSocketMessage ts data p =
    (Returned tt,
     appendChild (ErrorCard (classify (trim (substring 7 m))) (trim (substring 7 m)))
       (cost_step data p)).
Proof.
  intros Hm He. rewrite handleWebSocketMessage_run.
  unfold isErrorFrame. rewrite Hm, He. by apply handleErrorMessage_run.
Qed.

Lemma cost_step_container data p :
  messagesContainer (cost_step data p) = messagesContainer p.
Proof. unfold cost_step. destruct (cost_info data); [apply ledger_update_container|done]. Qed.

Lemma cost_step_player data p :
  audios (cost_step data p) = audios p /\
  currentAudio (cost_step data p) = currentAudio p.
Proof. unfold cost_step. destruct (cost_info data); [apply ledger_update_player|done]. Qed.

(** C1, as the code has it. For a frame whose message begins with
    ["Error:"] the dispatcher updates the ledger from [cost_info] when the
    frame has one, appends one error card, and returns: nothing else is
    appended, so an image, an audio clip or a research text of the same
    frame gets no widget, and no audio element is created. *)
Theorem error_frame_stops_dispatch (data : InboundFrame) (m : string) (p : Page) :
  message data = Some m ->
  startsWith m "Error:" = true ->
  fst (handleWebSocketMessage ts data p) = Returned tt /\
  messagesContainer (settle (handleWebSocketMessage ts data) p) =
    (messagesContainer p ++
      [ErrorCard (classify (trim (substring 7 m))) (trim (substring 7 m))])%list /\
  audios (settle (handleWebSocketMessage ts data) p) = audios p /\
  currentAudio (settle (handleWebSocketMessage ts data) p) = currentAudio p /\
  ledger (settle (handleWebSocketMessage ts data) p) =
    ledger (settle (updateCostDisplay ts (cost_info data)) p).
Proof.
  intros Hm He. unfold settle at 1 2 3 4.
  rewrite (error_frame_run data m p Hm He). simpl.
  rewrite cost_step_container.
  destruct (cost_step_player data p) as [-> ->].
  by rewrite <- cost_step_updateCostDisplay.
Qed.

Lemma ledger_after_cost_info (data : InboundFrame) (ci : CostInfo) (p : Page) :
  cost_info data = Some ci ->
  ledger (settle (handleWebSocketMessage ts data) p) = ledger (ledger_update ts ci p).
Proof.
  intros Hci. rewrite ledger_handleWebSocketMessage. unfold cost_step. by rewrite Hci.
Qed.

(** C6, as the code has it. On a frame with [cost_info] each field of the
    ledger is overwritten when its value in [cost_info] is a number, and
    keeps what it showed when the value is absent: the total from
    [total_cost]; the remaining budget and its warning from
    [remaining_budget]. *)
Theorem ledger_overwritten_per_field (data : InboundFrame) (ci : CostInfo) (p : Page) :
  cost_info data = Some ci ->
  totalCost (settle (handleWebSocketMessage ts data) p) =
    match total_cost ci with
    | Some t => toFixed ts t 3
    | None => totalCost p
    end /\
  remainingBudget (settle (handleWebSocketMessage ts data) p) =
    match remaining_budget ci with
    | Some r => toFixed ts r 2
    | None => remainingBudget p
    end /\
  cost_warning (settle (handleWebSocketMessage ts data) p) =
    match remaining_budget ci with
    | Some r => ltb r ChatConstants.LOW_BUDGET_THRESHOLD
    | None => cost_warning p
    end.
Proof.
  intros Hci. pose proof (ledger_after_cost_info data ci p Hci) as H.
  unfold ledger, ledger_update in H.
  destruct (total_cost ci), (remaining_budget ci); by simplify_eq/=.
Qed.





(** The node a field of the frame gets, when the field is present and not
    empty. *)
Definition rendered (field : option string) (node : string -> Node) : list Node :=
  match field with
  | Some s => if ToBoolean s then [node s] else []
  | None => []
  end.

(** A frame that is not an error frame: every field that is present and
    not empty appends one node, in the order message, image, audio,
    research, after the nodes the container had. *)
Theorem frame_renders_in_order (data : InboundFrame) (p : Page) :
  isErrorFrame data = false ->
  messagesContainer (settle (handleWebSocketMessage ts data) p) =
    (messagesContainer p ++
     rendered (message data) (fun m =>
       MessageNode "message bot" ("<strong>Bot:</strong> " ++ m)
         (if bool_decide (is_Some (cost_info data)) || bool_decide (is_Some (agent_flow data))
          then Some (_createChipsContainer ts (cost_info data) (agent_flow data))
          else None)) ++
     rendered (base64_image data) (fun i => ImageNode ("data:image/png;base64," ++ i)) ++
     rendered (base64_audio data) (fun _ => AudioPlayerNode (fresh (dom (audios p)))) ++
     rendered (research_result data) ResearchNode)%list.
Proof.
  intros He. unfold settle. rewrite handleWebSocketMessage_run, He.
  pose proof (cost_step_container data p) as Hc.
  destruct (cost_step_player data p) as [Ha _].
  unfold content_steps, rendered.
  destruct (message data) as [m|]; [destruct (ToBoolean m)|];
    (destruct (base64_image data) as [i|]; [destruct (ToBoolean i)|]);
    (destruct (base64_audio data) as [a|]; [destruct (ToBoolean a)|]);
    (destruct (research_result data) as [r|]; [destruct (ToBoolean r)|]);
    simpl; rewrite ?Ha, Hc, <- ?app_assoc, ?app_nil_r; reflexivity.
Qed.

End Facts.

(** The frame of the specification's error scenario, with media fields
    added. *)
Definition error_frame_with_media : InboundFrame :=
  {| message := Some "Error: Prompt must be length 10";
     cost_info := None; agent_flow := None;
     base64_image := Some "aW1n"; base64_audio := Some "YXVk";
     research_result := Some "notes" |}.

Lemma error_frame_stops_dispatch_witness :
  messagesContainer
    (settle (handleWebSocketMessage (fun _ => "") error_frame_with_media) blank) =
    [ErrorCard "Prompt Too Long" "Prompt must be length 10"].
Proof.
  exact (proj1 (proj2 (error_frame_stops_dispatch (fun _ => "")
     error_frame_with_media "Error: Prompt must be length 10" blank eq_refl eq_refl))).
Defined.

(** C1 as the specification states it: the media fields of an error frame
    still get their widgets. *)
Definition error_frame_keeps_media : Prop :=
  forall (ts : number -> string) (data : InboundFrame) (p : Page),
    isErrorFrame data = true ->
    (forall i, base64_image data = Some i -> ToBoolean i = true ->
       exists src, In (ImageNode src)
         (messagesContainer (settle (handleWebSocketMessage ts data) p))) /\
    (forall a, base64_audio data = Some a -> ToBoolean a = true ->
       exists id, In (AudioPlayerNode id)
         (messagesContainer (settle (handleWebSocketMessage ts data) p))) /\
    (forall r, research_result data = Some r -> ToBoolean r = true ->
       exists md, In (ResearchNode md)
         (messagesContainer (settle (handleWebSocketMessage ts data) p))).

(** An error frame with an image, an audio clip and a research text: the
    page gets the error card and nothing else. *)
Lemma error_frame_drops_media :
  messagesContainer
    (settle (handleWebSocketMessage (fun _ => "") error_frame_with_media) blank) =
    [ErrorCard "Prompt Too Long" "Prompt must be length 10"] /\
  audios (settle (handleWebSocketMessage (fun _ => "") error_frame_with_media) blank) = ∅ /\
  ~ error_frame_keeps_media.
Proof.
  split; [reflexivity|]. split; [reflexivity|].
  intros H.
  destruct (H (fun _ => "") error_frame_with_media blank eq_refl) as (Himg & _).
  destruct (Himg "aW1n" eq_refl eq_refl) as [src Hin].
  simpl in Hin. by destruct Hin.
Qed.

(** C2 at the frame [{"message":"Error:budget exceeded"}]: the handler
    removes seven characters where the prefix has six, so the card loses
    the first letter of the text and with it the title the text should
    get. *)
Lemma error_body_loses_a_character :
  messagesContainer
    (settle (handleWebSocketMessage (fun _ => "")
       {| message := Some "Error:budget exceeded"; cost_info := None;
          agent_flow := None; base64_image := None; base64_audio := None;
          research_result := None |}) blank) =
    [ErrorCard "Error" "udget exceeded"] /\
  trim (substring 6 "Error:budget exceeded") = "budget exceeded" /\
  classify (trim (substring 6 "Error:budget exceeded")) = "Budget Exceeded".
Proof. by repeat split. Qed.

(** The scenario of the specification: one card, titled and worded as
    stated, and no text message. *)
Lemma error_scenario :
  messagesContainer
    (settle (handleWebSocketMessage (fun _ => "")
       {| message := Some "Error: Prompt must be length 10"; cost_info := None;
          agent_flow := None; base64_image := None; base64_audio := None;
          research_result := None |}) blank) =
    [ErrorCard "Prompt Too Long" "Prompt must be length 10"].
Proof. reflexivity. Qed.

(** C6 as the specification states it: the ledger after a frame with
    [cost_info] does not depend on what it showed before. *)
Definition ledger_overwritten_wholesale : Prop :=
  forall (ts : number -> string) (data : InboundFrame) (ci : CostInfo) (p1 p2 : Page),
    cost_info data = Some ci ->
    ledger (settle (handleWebSocketMessage ts data) p1) =
    ledger (settle (handleWebSocketMessage ts data) p2).

Definition total_only_frame : InboundFrame :=
  {| message := None;
     cost_info := Some {| request_cost := None; total_cost := Some (decimal 35 1);
                          remaining_budget := None |};
     agent_flow := None; base64_image := None; base64_audio := None;
     research_result := None |}.

(** A frame whose [cost_info] has only [total_cost]: the remaining budget
    and the warning of the frame before stay on display. *)
Lemma ledger_keeps_absent_field :
  ledger (settle (handleWebSocketMessage (fun _ => "") total_only_frame)
            (set_cost_warning true (set_remainingBudget "4.00" blank))) =
    ("3.500", "4.00", true) /\
  ~ ledger_overwritten_wholesale.
Proof.
  split; [by vm_compute|].
  intros H.
  specialize (H (fun _ => "") total_only_frame _ blank
                (set_cost_warning true (set_remainingBudget "4.00" blank)) eq_refl).
  vm_compute in H. discriminate H.
Qed.

Lemma ledger_overwritten_per_field_witness :
  totalCost (settle (handleWebSocketMessage (fun _ => "") total_only_frame)
               (set_cost_warning true (set_remainingBudget "4.00" blank))) = "3.500" /\
  remainingBudget (settle (handleWebSocketMessage (fun _ => "") total_only_frame)
               (set_cost_warning true (set_remainingBudget "4.00" blank))) = "4.00" /\
  cost_warning (settle (handleWebSocketMessage (fun _ => "") total_only_frame)
               (set_cost_warning true (set_remainingBudget "4.00" blank))) = true.
Proof.
  pose proof (ledger_overwritten_per_field (fun _ => "") total_only_frame _
    (set_cost_warning true (set_remainingBudget "4.00" blank)) eq_refl) as (H1 & H2 & H3).
  split; [|split].
  - rewrite H1. vm_compute. reflexivity.
  - rewrite H2. reflexivity.
  - rewrite H3. reflexivity.
Defined.



(** The frame of the specification's scenario with an image and an audio
    clip: two widgets, the image first. *)
Definition image_audio_frame : InboundFrame :=
  {| message := None; cost_info := None; agent_flow := None;
     base64_image := Some "aW1n"; base64_audio := Some "YXVk";
     research_result := None |}.

Lemma frame_renders_in_order_witness :
  messagesContainer
    (settle (handleWebSocketMessage (fun _ => "") image_audio_frame) blank) =
    [ImageNode "data:image/png;base64,aW1n"; AudioPlayerNode 0].
Proof.
  rewrite (frame_renders_in_order (fun _ => "") image_audio_frame blank eq_refl).
  vm_compute. reflexivity.
Defined.

(** An agent-flow chip starts collapsed. A click on its header flips it
    and changes nothing else: after [n] clicks the chip is collapsed
    exactly when [n] is even, and it still holds the flow it was made
    for. So two clicks bring it back to where it was. A cost chip has no
    header to click. *)
Lemma flow_chip_toggles_back (flow : AgentFlow) (n : nat) :
  _createAgentFlowChip flow = AgentFlowChip true flow /\
  Nat.iter n flowHeader_click (_createAgentFlowChip flow) =
    AgentFlowChip (Nat.even n) flow /\
  flowHeader_click (flowHeader_click (_createAgentFlowChip flow)) =
    _createAgentFlowChip flow.
Proof.
  split; [reflexivity|]. split; [|reflexivity].
  induction n as [|n IH]; [reflexivity|].
  rewrite Nat.iter_succ, IH. cbn [flowHeader_click].
  by rewrite Nat.even_succ, <- Nat.negb_even.
Qed.

End Dispatcher.

(** ** Chips of a bot message *)

Module Chips.

Import JSNumber Dom Frame HandlerFacts.
Import MessageComponent WebSocketHandler.
Local Open Scope string_scope.

Definition is_cost_chip (c : Chip) : bool :=
  match c with
  | CostChip _ => true
  | AgentFlowChip _ _ => false
  end.

(** A frame with a plain message and a [cost_info] whose [request_cost]
    is [cost]. *)
Definition message_frame (cost : option number) : InboundFrame :=
  {| message := Some "hello";
     cost_info := Some {| request_cost := cost; total_cost := None;
                          remaining_budget := None |};
     agent_flow := None; base64_image := None; base64_audio := None;
     research_result := None |}.

Section Facts.

Variable ts : number -> string.

Lemma ToBoolean_true_iff (x : number) :
  ToBoolean x = true <-> isNaN x = false /\ forall s, x <> S754_zero s.
Proof.
  destruct x as [s|s| |s m e]; simpl; split; try done.
  - intros [_ H]. by destruct (H s).
  - by intros [? _].
Qed.

Lemma chips_cost (ci : CostInfo) (flow : option AgentFlow) :
  filter is_cost_chip (_createChipsContainer ts (Some ci) flow) =
    match request_cost ci with
    | Some cost =>
        if ToBoolean cost then [CostChip ("$" ++ toFixed ts cost 3)] else []
    | None => []
    end.
Proof.
  unfold _createChipsContainer.
  destruct (request_cost ci) as [cost|]; [destruct (ToBoolean cost)|];
    by destruct flow.
Qed.

Lemma chips_flow (ci : option CostInfo) (flow : option AgentFlow) :
  filter (fun c => negb (is_cost_chip c)) (_createChipsContainer ts ci flow) =
    match flow with
    | Some f => [AgentFlowChip true f]
    | None => []
    end.
Proof.
  unfold _createChipsContainer.
  destruct ci as [ci|]; [destruct (request_cost ci) as [cost|];
    [destruct (ToBoolean cost)|]|]; by destruct flow.
Qed.

(** C10. A bot message rendered with a [cost_info] gets a chips container;
    the container has a cost chip exactly when [request_cost] is present
    and truthy (not zero, not NaN), and then one chip, showing the cost
    with 3 fraction digits. With [request_cost] zero or absent there is no
    cost chip. The agent-flow chip is there exactly when the frame has an
    [agent_flow], whatever the cost. *)
Theorem cost_chip_iff_request_cost_truthy
    (m : string) (ci : CostInfo) (flow : option AgentFlow) (p : Page) :
  appendMessage ts m false (Some ci) flow p =
    (Returned tt,
     appendChild (MessageNode "message bot" ("<strong>Bot:</strong> " ++ m)
                    (Some (_createChipsContainer ts (Some ci) flow))) p) /\
  ((exists t, In (CostChip t) (_createChipsContainer ts (Some ci) flow)) <->
   (exists cost, request_cost ci = Some cost /\ ToBoolean cost = true)) /\
  (forall cost, ToBoolean cost = true <->
     isNaN cost = false /\ forall s, cost <> S754_zero s) /\
  filter is_cost_chip (_createChipsContainer ts (Some ci) flow) =
    match request_cost ci with
    | Some cost =>
        if ToBoolean cost then [CostChip ("$" ++ toFixed ts cost 3)] else []
    | None => []
    end /\
  filter (fun c => negb (is_cost_chip c)) (_createChipsContainer ts (Some ci) flow) =
    match flow with
    | Some f => [AgentFlowChip true f]
    | None => []
    end /\
  messagesContainer (settle (handleWebSocketMessage ts (message_frame (Some (of_Z 0)))) p) =
    (messagesContainer p ++
       [MessageNode "message bot" "<strong>Bot:</strong> hello" (Some [])])%list /\
  messagesContainer (settle (handleWebSocketMessage ts (message_frame None)) p) =
    (messagesContainer p ++
       [MessageNode "message bot" "<strong>Bot:</strong> hello" (Some [])])%list /\
  messagesContainer (settle (handleWebSocketMessage ts (message_frame (Some (decimal 12 3)))) p) =
    (messagesContainer p ++
       [MessageNode "message bot" "<strong>Bot:</strong> hello"
          (Some [CostChip "$0.012"])])%list.
Proof.
  split; [reflexivity|].
  split.
  { pose proof (chips_cost ci flow) as H. split.
    - intros [t Hin].
      assert (CostChip t ∈ filter is_cost_chip (_createChipsContainer ts (Some ci) flow)) as Hf.
      { apply list_elem_of_filter. split; [done|]. by apply list_elem_of_In. }
      rewrite H in Hf. destruct (request_cost ci) as [cost|]; [|by apply elem_of_nil in Hf].
      destruct (ToBoolean cost) eqn:Hb; [by exists cost|by apply elem_of_nil in Hf].
    - intros (cost & Hc & Hb). rewrite Hc, Hb in H.
      exists ("$" ++ toFixed ts cost 3). apply list_elem_of_In.
      eapply (list_elem_of_filter is_cost_chip). rewrite H. by left. }
  split; [apply ToBoolean_true_iff|].
  split; [apply chips_cost|].
  split; [apply chips_flow|].
  by repeat split.
Qed.

End Facts.

End Chips.

(** ** The audio player *)

Module Player.

Import JSNumber Dom Frame HandlerFacts.
Import MessageComponent WebSocketHandler Dispatcher.
Local Open Scope handler_scope.

(** What can happen to the page: a frame arrives, a play button is
    clicked, a progress track is clicked. *)
Inductive Event :=
| FrameArrives (data : InboundFrame)
| PlayClicked (a : nat)
| ProgressClicked (a : nat) (pos : number).

Definition handler (ts : number -> string) (e : Event) : Handler unit :=
  match e with
  | FrameArrives data => handleWebSocketMessage ts data
  | PlayClicked a => playButton_click a
  | ProgressClicked a pos => progressContainer_click a pos
  end.

(** The page after the handler of an event has settled. *)
Definition step (ts : number -> string) (p : Page) (e : Event) : Page :=
  settle (handler ts e) p.

Definition run (ts : number -> string) (events : list Event) (p : Page) : Page :=
  fold_left (step ts) events p.

(** Widget [i] is in state Playing. *)
Definition is_playing (p : Page) (i : nat) : Prop :=
  exists w, audios p !! i = Some w /\ paused (audio w) = false.

Definition at_most_one_playing (p : Page) : Prop :=
  forall i j, is_playing p i -> is_playing p j -> i = j.

(** The invariant behind it: a widget that plays is [currentAudio], and
    [currentAudio] is one of the widgets. *)
Definition playing_is_current (p : Page) : Prop :=
  forall i, is_playing p i -> currentAudio p = Some i.

Definition current_exists (p : Page) : Prop :=
  forall c, currentAudio p = Some c -> is_Some (audios p !! c).

Definition player_ok (p : Page) : Prop :=
  playing_is_current p /\ current_exists p.

Lemma player_ok_one_playing p : player_ok p -> at_most_one_playing p.
Proof.
  intros [H _] i j Hi Hj. apply H in Hi, Hj. congruence.
Qed.

(** The audio element a frame creates. *)
Definition new_controls (base64Audio : string) : AudioControls :=
  {| audio := {| src := ("data:" ++ ChatConstants.MIME_TYPES.AUDIO ++ ";base64,"
                           ++ base64Audio)%string;
                 paused := true; currentTime := of_Z 0; duration := NaN |};
     playButton := {| playing := false |};
     base64Audio := base64Audio |}.

Lemma handleAudioMessage_run (b : string) (p : Page) :
  handleAudioMessage b p =
    (Returned tt,
     appendChild (AudioPlayerNode (fresh (dom (audios p))))
       (set_audios (<[fresh (dom (audios p)) := new_controls b]> (audios p)) p)).
Proof. reflexivity. Qed.

(** The handler keeps [currentAudio] and the elements there are, and any
    element it adds is paused. *)
Definition grows_player {A} (c : Handler A) : Prop :=
  forall p,
    currentAudio (snd (c p)) = currentAudio p /\
    (forall i w, audios p !! i = Some w -> audios (snd (c p)) !! i = Some w) /\
    (forall i w, audios (snd (c p)) !! i = Some w ->
       audios p !! i = Some w \/ paused (audio w) = true).

Lemma grows_player_keeps {A} (c : Handler A) : keeps_player c -> grows_player c.
Proof.
  intros H p. destruct (H p) as [-> ->]. split; [done|]. split; [done|]. by left.
Qed.

Lemma grows_player_bind {A B} (c : Handler A) (k : A -> Handler B) :
  grows_player c -> (forall a, grows_player (k a)) -> grows_player (bind c k).
Proof.
  intros Hc Hk p. unfold bind. specialize (Hc p).
  destruct (c p) as [[a|e] p']; simpl in *; [|done].
  destruct Hc as (Hcur & Hold & Hnew), (Hk a p') as (Hcur' & Hold' & Hnew').
  split; [congruence|]. split; [by auto|].
  intros i w Hi. destruct (Hnew' i w Hi) as [Hi'|]; [by apply Hnew|by right].
Qed.

Lemma grows_player_handleAudioMessage b : grows_player (handleAudioMessage b).
Proof.
  intros p. rewrite handleAudioMessage_run. simpl.
  assert (audios p !! fresh (dom (audios p)) = None) as Hfresh.
  { apply not_elem_of_dom, is_fresh. }
  split; [done|]. split.
  - intros i w Hi. rewrite lookup_insert_ne; [done|]. intros <-. congruence.
  - intros i w. rewrite lookup_insert. case_decide; [|by left].
    intros [= <-]. by right.
Qed.

Section Facts.

Variable ts : number -> string.

Lemma grows_player_content_steps data : grows_player (content_steps ts data).
Proof.
  unfold content_steps, handleImageMessage, handleResearchMessage, appendMessage.
  repeat (apply grows_player_bind; [|intros]);
    repeat case_match;
    auto using grows_player_handleAudioMessage, grows_player_keeps with handler.
Qed.

Lemma grows_player_handleWebSocketMessage data :
  grows_player (handleWebSocketMessage ts data).
Proof.
  intros p. rewrite handleWebSocketMessage_run.
  destruct (cost_step_player ts data p) as [Ha Hc].
  destruct (isErrorFrame data) eqn:He.
  - unfold isErrorFrame in He. destruct (message data) as [m|] eqn:Hm; [|done].
    rewrite (handleErrorMessage_run _ m) by done. simpl.
    rewrite Ha, Hc. split; [done|]. split; [done|]. by left.
  - destruct (grows_player_content_steps data (cost_step ts data p)) as (H1 & H2 & H3).
    rewrite Ha, Hc in *. done.
Qed.

Lemma player_ok_frame data p :
  player_ok p -> player_ok (settle (handleWebSocketMessage ts data) p).
Proof.
  intros [Hplay Hcur]. unfold settle.
  destruct (grows_player_handleWebSocketMessage data p) as (Hc & Hold & Hnew).
  split.
  - intros i (w & Hi & Hp). rewrite Hc. apply Hplay.
    destruct (Hnew i w Hi) as [Hi'|Hp']; [by exists w|congruence].
  - intros c. rewrite Hc. intros [w Hw]%Hcur. exists w. by apply Hold.
Qed.

End Facts.

(** The four ways a click on the play button of [a] ends. *)
Lemma playButton_click_other (a c : nat) (p : Page) :
  currentAudio p = Some c -> c <> a ->
  playButton_click a p =
    (Threw TypeError,
     set_audios (alter (with_audio (currentTime_to (of_Z 0))) c
                   (alter (with_audio (paused_to true)) c (audios p))) p).
Proof.
  intros Hc Hne. unfold playButton_click, bind, get. rewrite Hc.
  case_decide; [|done]. unfold _resetCurrentAudio, bind, get. by rewrite Hc.
Qed.

Lemma playButton_click_self (a : nat) (p : Page) :
  (currentAudio p = None \/ currentAudio p = Some a) ->
  playButton_click a p =
    match audios p !! a with
    | Some w => if paused (audio w) then _playAudio a p else _pauseAudio a p
    | None => (Threw TypeError, p)
    end.
Proof.
  intros Hc. unfold playButton_click, bind, get.
  destruct Hc as [-> | ->]; [|case_decide; [done|]]; unfold ret.
  all: destruct (audios p !! a) as [w|]; [by destruct (paused (audio w))|done].
Qed.

Lemma _playAudio_run (a : nat) (p : Page) :
  _playAudio a p =
    (Returned tt,
     set_currentAudio (Some a)
       (set_audios (alter (with_playButton {| playing := true |}) a
                      (alter (with_audio (paused_to false)) a (audios p))) p)).
Proof. reflexivity. Qed.

Lemma _pauseAudio_run (a : nat) (p : Page) :
  _pauseAudio a p =
    (Returned tt,
     set_audios (alter (with_playButton {| playing := false |}) a
                   (alter (with_audio (paused_to true)) a (audios p))) p).
Proof. reflexivity. Qed.

Lemma progressContainer_click_run (a : nat) (pos : number) (p : Page) :
  progressContainer_click a pos p =
    match audios p !! a with
    | Some w =>
        if isFinite (mul pos (duration (audio w)))
        then (Returned tt,
              set_audios (alter (with_audio (currentTime_to (mul pos (duration (audio w)))))
                            a (audios p)) p)
        else (Threw TypeError, p)
    | None => (Threw TypeError, p)
    end.
Proof.
  unfold progressContainer_click, bind, get. simpl.
  destruct (audios p !! a) as [w|]; [|done].
  unfold set_currentTime. by destruct (isFinite _).
Qed.

(** Lookups after an update of one element. *)
Lemma is_playing_alter (f : AudioControls -> AudioControls) (c : nat)
    (m : gmap nat AudioControls) (p : Page) (i : nat) :
  (forall w, paused (audio (f w)) = false -> paused (audio w) = false) ->
  is_playing (set_audios (alter f c m) p) i -> is_playing (set_audios m p) i.
Proof.
  intros Hf (w & Hi & Hp). simpl in Hi. rewrite lookup_alter in Hi.
  case_decide as Hc; [|by exists w]. subst i.
  destruct (m !! c) as [w0|] eqn:Hm; [|done]. simpl in Hi. injection Hi as <-.
  exists w0. split; [done|]. by apply Hf.
Qed.

Lemma player_ok_toggle_self (a : nat) (p : Page) :
  player_ok p ->
  currentAudio p = None \/ currentAudio p = Some a ->
  player_ok (settle (playButton_click a) p).
Proof.
  intros [Hplay Hcur] Hc. unfold settle. rewrite playButton_click_self by done.
  destruct (audios p !! a) as [w|] eqn:Hw; [|done].
  destruct (paused (audio w)) eqn:Hp.
  - rewrite _playAudio_run. split.
    + intros i Hi. simpl. destruct (decide (i = a)) as [->|Hia]; [done|].
      destruct Hi as (w' & Hi & Hp'). simpl in Hi.
      rewrite !lookup_alter_ne in Hi by done.
      assert (currentAudio p = Some i) by (apply Hplay; by exists w').
      destruct Hc; congruence.
    + intros c [= <-]. simpl. rewrite !lookup_alter_eq, Hw. by eexists.
  - rewrite _pauseAudio_run. split.
    + intros i Hi. simpl. apply Hplay.
      apply is_playing_alter in Hi; [|done].
      apply is_playing_alter in Hi; [done|]. by intros [[] ? ?].
    + intros c' Hcc. simpl in *.
      apply lookup_alter_is_Some, lookup_alter_is_Some. by apply Hcur.
Qed.

Lemma player_ok_toggle_other (a c : nat) (p : Page) :
  player_ok p ->
  currentAudio p = Some c -> c <> a ->
  player_ok (settle (playButton_click a) p).
Proof.
  intros [Hplay Hcur] Hc Hne. unfold settle.
  rewrite (playButton_click_other a c) by done. split.
  - intros i Hi. simpl. apply Hplay.
    apply is_playing_alter in Hi; [|by intros [[] ? ?]].
    apply is_playing_alter in Hi; [done|]. by intros [[] ? ?].
  - intros c' Hcc. simpl in *.
    apply lookup_alter_is_Some, lookup_alter_is_Some. by apply Hcur.
Qed.

Lemma player_ok_playClick (a : nat) (p : Page) :
  player_ok p -> player_ok (settle (playButton_click a) p).
Proof.
  intros Hok. destruct (currentAudio p) as [c|] eqn:Hc.
  - destruct (decide (c = a)) as [->|Hne].
    + apply player_ok_toggle_self; auto.
    + by apply (player_ok_toggle_other a c).
  - apply player_ok_toggle_self; auto.
Qed.

Lemma player_ok_progressClick (a : nat) (pos : number) (p : Page) :
  player_ok p -> player_ok (settle (progressContainer_click a pos) p).
Proof.
  intros [Hplay Hcur]. unfold settle. rewrite progressContainer_click_run.
  destruct (audios p !! a) as [w|] eqn:Hw; [|done].
  destruct (isFinite _); [|done]. split.
  - intros i Hi. simpl. apply Hplay.
    apply is_playing_alter in Hi; [done|]. by intros [[] ? ?].
  - intros c Hcc. simpl in *. apply lookup_alter_is_Some. by apply Hcur.
Qed.

Lemma player_ok_blank : player_ok blank.
Proof.
  split.
  - intros i (w & Hi & _).
    change (audios blank) with (∅ : gmap nat AudioControls) in Hi.
    by rewrite lookup_empty in Hi.
  - by intros c.
Qed.

Lemma player_ok_step ts (e : Event) (p : Page) :
  player_ok p -> player_ok (step ts p e).
Proof.
  intros H. destruct e; unfold step, handler;
    [by apply player_ok_frame | by apply player_ok_playClick
    | by apply player_ok_progressClick].
Qed.

Lemma player_ok_run ts (events : list Event) (p : Page) :
  player_ok p -> player_ok (run ts events p).
Proof.
  revert p. induction events as [|e events IH]; intros p Hp; [done|].
  simpl. apply IH. by apply player_ok_step.
Qed.


(** C3 as the specification states it: a click on the play button of an
    idle widget [a] while another widget is the active one hands playback
    over, so that [a] plays and is the active widget once the click has
    settled. *)
Definition toggle_hands_over : Prop :=
  forall (p : Page) (a c : nat) (wa : AudioControls),
    player_ok p ->
    currentAudio p = Some c -> c <> a ->
    audios p !! a = Some wa -> paused (audio wa) = true ->
    is_playing (settle (playButton_click a) p) a /\
    currentAudio (settle (playButton_click a) p) = Some a.

(** C3. On any page where every playing widget is the active one, and
    for a click on the play button of [a]:
    - after any sequence of frames, play-button clicks and progress
      clicks, at most one widget is Playing;
    - when another widget [c] is the active one, [c] is paused and set to
      position 0 with its duration, source and button as they were, and
      then the handler throws a [TypeError] ([_resetCurrentAudio] asks
      for the parent of an audio element that has none): no other widget
      changes, [c] stays the active one, and no widget is Playing, so
      [a] has not started;
    - when no widget or [a] itself is the active one, the handler returns
      and [a] starts and becomes the active one, or is paused where it
      is. *)
Theorem toggle_resets_other_then_throws (ts : number -> string) (events : list Event)
    (p : Page) (a : nat) :
  player_ok p ->
  at_most_one_playing (run ts events p) /\
  (forall c wc, currentAudio p = Some c -> c <> a -> audios p !! c = Some wc ->
     fst (playButton_click a p) = Threw TypeError /\
     audios (settle (playButton_click a) p) !! c =
       Some {| audio := {| src := src (audio wc);
                           paused := true;
                           currentTime := of_Z 0;
                           duration := duration (audio wc) |};
               playButton := playButton wc;
               base64Audio := base64Audio wc |} /\
     (forall b, b <> c ->
        audios (settle (playButton_click a) p) !! b = audios p !! b) /\
     currentAudio (settle (playButton_click a) p) = Some c /\
     (forall i, ~ is_playing (settle (playButton_click a) p) i)) /\
  (forall wa, currentAudio p = None \/ currentAudio p = Some a ->
     audios p !! a = Some wa ->
     fst (playButton_click a p) = Returned tt /\
     audios (settle (playButton_click a) p) !! a =
       Some {| audio := {| src := src (audio wa);
                           paused := negb (paused (audio wa));
                           currentTime := currentTime (audio wa);
                           duration := duration (audio wa) |};
               playButton := {| playing := paused (audio wa) |};
               base64Audio := base64Audio wa |} /\
     currentAudio (settle (playButton_click a) p) =
       (if paused (audio wa) then Some a else currentAudio p)).
Proof.
  intros Hok. split; [by apply player_ok_one_playing, player_ok_run|]. split.
  - intros c wc Hc Hne Hwc. unfold settle.
    rewrite (playButton_click_other a c) by done. simpl.
    split; [done|]. split; [by rewrite !lookup_alter_eq, Hwc|].
    split; [intros b Hb; by rewrite !lookup_alter_ne|]. split; [done|].
    intros i (w & Hi & Hp). simpl in Hi.
    destruct (decide (i = c)) as [->|Hic].
    + rewrite !lookup_alter_eq, Hwc in Hi. injection Hi as <-. discriminate Hp.
    + rewrite !lookup_alter_ne in Hi by done.
      assert (currentAudio p = Some i) by (apply Hok; by exists w). congruence.
  - intros wa Hc Hwa. unfold settle. rewrite playButton_click_self, Hwa by done.
    destruct (paused (audio wa)) eqn:Hp.
    + rewrite _playAudio_run. simpl. by rewrite !lookup_alter_eq, Hwa.
    + rewrite _pauseAudio_run. simpl. by rewrite !lookup_alter_eq, Hwa.
Qed.

(** Two audio frames, then a click on the first player: it plays and is
    the active one. *)
Definition audio_frame (b : string) : InboundFrame :=
  {| message := None; cost_info := None; agent_flow := None;
     base64_image := None; base64_audio := Some b; research_result := None |}.

Definition two_players_first_playing : list Event :=
  [FrameArrives (audio_frame "YQ=="); FrameArrives (audio_frame "Yg==");
   PlayClicked 0].

(** Two players: the first is the active one and plays, seven and a half
    seconds into a clip of ten; the second has not been started. *)
Definition first_plays_second_waits : Page :=
  set_currentAudio (Some 0%nat)
    (set_audios
       (<[1%nat := new_controls "Yg=="]>
          {[ 0%nat := {| audio := {| src := "data:audio/mp3;base64,YQ==";
                                     paused := false;
                                     currentTime := decimal 75 1;
                                     duration := of_Z 10 |};
                         playButton := {| playing := true |};
                         base64Audio := "YQ==" |} ]})
       blank).

Lemma player_ok_first_plays_second_waits : player_ok first_plays_second_waits.
Proof.
  split.
  - intros i (w & Hi & Hp). simpl in *.
    apply lookup_insert_Some in Hi as [[<- <-]|[Hne Hi]]; [discriminate Hp|].
    apply lookup_singleton_Some in Hi as [<- _]. reflexivity.
  - intros c [= <-]. simpl. by eexists.
Qed.

(** The click on the second player: the first one is rewound from 7.5 s
    to 0 and paused under a button that still shows Pause, the handler
    throws, the second player has not started and the first is still the
    active one. The same click again ends the same way. *)
Lemma toggle_resets_other_then_throws_witness :
  is_playing first_plays_second_waits 0 /\
  fst (playButton_click 1 first_plays_second_waits) = Threw TypeError /\
  (exists w,
     audios (settle (playButton_click 1) first_plays_second_waits) !! 0%nat = Some w /\
     paused (audio w) = true /\
     currentTime (audio w) = of_Z 0 /\
     duration (audio w) = of_Z 10 /\
     playing (playButton w) = true) /\
  ~ is_playing (settle (playButton_click 1) first_plays_second_waits) 1 /\
  currentAudio (settle (playButton_click 1) first_plays_second_waits) = Some 0%nat /\
  fst (playButton_click 1 (settle (playButton_click 1) first_plays_second_waits)) =
    Threw TypeError /\
  ~ toggle_hands_over.
Proof.
  destruct (toggle_resets_other_then_throws (fun _ => ""%string) []
              first_plays_second_waits 1 player_ok_first_plays_second_waits)
    as (_ & Hother & _).
  destruct (Hother 0%nat _ eq_refl ltac:(discriminate) eq_refl)
    as (Hthrow & Hreset & _ & Hcur & Hnone).
  split; [eexists; split; reflexivity|].
  split; [exact Hthrow|].
  split; [eexists; split; [exact Hreset|by repeat split]|].
  split; [apply Hnone|].
  split; [exact Hcur|].
  split; [vm_compute; reflexivity|].
  intros H.
  destruct (H first_plays_second_waits 1%nat 0%nat _
              player_ok_first_plays_second_waits eq_refl ltac:(discriminate)
              eq_refl eq_refl) as [Hplays _].
  exact (Hnone _ Hplays).
Defined.



(** ** Seeking *)

Lemma mul_not_finite (pos d : number) :
  isFinite d = false -> isFinite (mul pos d) = false.
Proof. destruct d as [?|?| |? ? ?]; [done| | |done]; by destruct pos. Qed.

(** C5, as the code has it. The handler hands [pos * duration] to the
    [currentTime] attribute with no test of its own. For a click fraction
    in [0, 1]: when the duration is finite, so is the product, and
    [currentTime] becomes the product; when the duration is NaN or
    infinite, the product is not finite, the attribute refuses it, the
    handler throws and the page is unchanged. *)
Theorem seek_sets_finite_product (a : nat) (pos : number) (w : AudioControls) (p : Page) :
  audios p !! a = Some w ->
  valid_binary prec emax pos = true ->
  valid_binary prec emax (duration (audio w)) = true ->
  JSNumberFacts.in_unit_interval pos = true ->
  (isFinite (duration (audio w)) = true ->
     fst (progressContainer_click a pos p) = Returned tt /\
     audios (settle (progressContainer_click a pos) p) !! a =
       Some (with_audio (currentTime_to (mul pos (duration (audio w)))) w) /\
     forall b, b <> a ->
       audios (settle (progressContainer_click a pos) p) !! b = audios p !! b) /\
  (isFinite (duration (audio w)) = false ->
     progressContainer_click a pos p = (Threw TypeError, p)).
Proof.
  intros Hw Hvp Hvd Hu. unfold settle. rewrite progressContainer_click_run, Hw.
  split.
  - intros Hd. rewrite (JSNumberFacts.mul_unit_finite pos _ Hvp Hvd Hu Hd). simpl.
    rewrite lookup_alter_eq, Hw. split; [done|]. split; [done|].
    intros b Hb. by rewrite lookup_alter_ne.
  - intros Hd. by rewrite (mul_not_finite pos _ Hd).
Qed.

(** A page with one player. *)
Definition one_player (x : Audio) : Page :=
  set_audios {[ 0%nat := {| audio := x; playButton := {| playing := false |};
                            base64Audio := "YQ==" |} ]} blank.

Definition ten_seconds : Audio :=
  {| src := "data:audio/mp3;base64,YQ=="; paused := true;
     currentTime := of_Z 1; duration := of_Z 10 |}.

Definition unbounded : Audio :=
  {| src := "data:audio/mp3;base64,YQ=="; paused := true;
     currentTime := of_Z 1; duration := Infinity |}.

Lemma seek_sets_finite_product_witness :
  (exists w, audios (settle (progressContainer_click 0 (decimal 5 1))
                       (one_player ten_seconds)) !! 0%nat = Some w /\
             currentTime (audio w) = of_Z 5) /\
  progressContainer_click 0 (decimal 5 1) (one_player unbounded) =
    (Threw TypeError, one_player unbounded).
Proof.
  split.
  - eexists. split.
    + apply (proj1 (seek_sets_finite_product 0 (decimal 5 1) _ (one_player ten_seconds)
                      eq_refl eq_refl eq_refl eq_refl)).
      reflexivity.
    + vm_compute. reflexivity.
  - apply (proj2 (seek_sets_finite_product 0 (decimal 5 1) _ (one_player unbounded)
                    eq_refl eq_refl eq_refl eq_refl)).
    reflexivity.
Defined.

(** C5 as the specification states it: whenever the duration is a number
    (not NaN), a click at a fraction in [0, 1] sets [currentTime] to
    [pos * duration]. *)
Definition seek_sets_whenever_number : Prop :=
  forall (a : nat) (pos : number) (w : AudioControls) (p : Page),
    audios p !! a = Some w ->
    valid_binary prec emax pos = true ->
    valid_binary prec emax (duration (audio w)) = true ->
    JSNumberFacts.in_unit_interval pos = true ->
    isNaN (duration (audio w)) = false ->
    exists w',
      audios (settle (progressContainer_click a pos) p) !! a = Some w' /\
      currentTime (audio w') = mul pos (duration (audio w)).

(** A player whose duration is infinite (a number, not NaN), clicked in
    the middle of its track: [currentTime] stays at 1. *)
Lemma seek_refused_on_infinite_duration :
  settle (progressContainer_click 0 (decimal 5 1)) (one_player unbounded) =
    one_player unbounded /\
  ~ seek_sets_whenever_number.
Proof.
  split; [reflexivity|].
  intros H.
  destruct (H 0%nat (decimal 5 1) _ (one_player unbounded)
              eq_refl eq_refl eq_refl eq_refl eq_refl)
    as (w' & Hw' & Ht).
  vm_compute in Hw'. injection Hw' as <-. vm_compute in Ht. discriminate Ht.
Qed.

End Player.

(** ** Base64 *)

Module Base64Facts.

Import Base64.
Local Open Scope N_scope.

(** Induction on lists, three elements at a time. *)
Lemma list_ind3 {A} (P : list A -> Prop) :
  P [] -> (forall a, P [a]) -> (forall a b, P [a; b]) ->
  (forall a b c l, P l -> P (a :: b :: c :: l)) ->
  forall l, P l.
Proof.
  intros H0 H1 H2 H3 l.
  assert (forall n l, (length l < n)%nat -> P l) as H.
  { clear l. induction n as [|n IH]; intros [|a [|b [|c l]]] Hl; simpl in *;
      try lia; auto. apply H3, IH. lia. }
  apply (H (S (length l))). lia.
Qed.

(** The sextets of the encoding, before they become characters, and the
    pad characters that follow them. *)
Fixpoint encode_sextets (l : list N) : list N :=
  match l with
  | a :: b :: c :: rest =>
      let n := (a * 256 + b) * 256 + c in
      n / 262144 :: (n / 4096) mod 64 :: (n / 64) mod 64 :: n mod 64
        :: encode_sextets rest
  | [a; b] =>
      let n := (a * 256 + b) * 4 in
      [n / 4096; (n / 64) mod 64; n mod 64]
  | [a] =>
      let n := a * 16 in
      [n / 64; n mod 64]
  | [] => []
  end.

Fixpoint padding (l : list N) : list ascii :=
  match l with
  | _ :: _ :: _ :: rest => padding rest
  | [_; _] => [pad]
  | [_] => [pad; pad]
  | [] => []
  end.

Definition alphabet_ok (i : N) : bool :=
  match sextet_of_char (char_of_sextet i) with
  | Some j => j =? i
  | None => false
  end
  && negb (is_ascii_whitespace (char_of_sextet i))
  && negb (Ascii.eqb (char_of_sextet i) pad).

Lemma alphabet_checked : Bounded.all_from 64 0 alphabet_ok = true.
Proof. vm_compute. reflexivity. Qed.

Lemma alphabet_roundtrip (i : N) :
  i < 64 ->
  sextet_of_char (char_of_sextet i) = Some i /\
  is_ascii_whitespace (char_of_sextet i) = false /\
  Ascii.eqb (char_of_sextet i) pad = false.
Proof.
  intros Hi.
  pose proof (Bounded.all_from_spec 64 0 alphabet_ok alphabet_checked i) as H.
  unfold alphabet_ok in H.
  destruct (sextet_of_char (char_of_sextet i)) as [j|];
    destruct (is_ascii_whitespace (char_of_sextet i));
    destruct (Ascii.eqb (char_of_sextet i) pad);
    try (specialize (H ltac:(lia)); simpl in H; rewrite ?andb_false_r in H; discriminate H).
  specialize (H ltac:(lia)). simpl in H. rewrite !andb_true_r in H.
  apply N.eqb_eq in H. by subst.
Qed.

Lemma encode_chars_split (l : list N) :
  encode_chars l = map char_of_sextet (encode_sextets l) ++ padding l.
Proof.
  induction l as [|a|a b|a b c l IH] using list_ind3; try reflexivity.
  cbn [encode_chars encode_sextets padding map app]. by rewrite IH.
Qed.

Lemma encode_sextets_bound (l : list N) :
  Forall (fun b => b < 256) l -> Forall (fun s => s < 64) (encode_sextets l).
Proof.
  induction l as [|a|a b|a b c l IH] using list_ind3; intros H.
  - constructor.
  - apply Forall_cons in H as [Ha _]. cbn [encode_sextets].
    repeat constructor; lia.
  - apply Forall_cons in H as [Ha [Hb _]%Forall_cons]. cbn [encode_sextets].
    repeat constructor; lia.
  - apply Forall_cons in H as [Ha [Hb [Hc Hl]%Forall_cons]%Forall_cons].
    cbn [encode_sextets]. repeat (constructor; [lia|]). by apply IH.
Qed.

Lemma bytes_of_encode_sextets (l : list N) :
  Forall (fun b => b < 256) l -> bytes_of_sextets (encode_sextets l) = l.
Proof.
  induction l as [|a|a b|a b c l IH] using list_ind3; intros H.
  - reflexivity.
  - apply Forall_cons in H as [Ha _]. cbn [encode_sextets bytes_of_sextets].
    f_equal. lia.
  - apply Forall_cons in H as [Ha [Hb _]%Forall_cons].
    cbn [encode_sextets bytes_of_sextets].
    assert ((((a * 256 + b) * 4 / 4096 * 64 + ((a * 256 + b) * 4 / 64) mod 64) * 64 +
             ((a * 256 + b) * 4) mod 64) / 4 = a * 256 + b) as -> by lia.
    f_equal; [lia|]. f_equal. lia.
  - apply Forall_cons in H as [Ha [Hb [Hc Hl]%Forall_cons]%Forall_cons].
    cbn [encode_sextets bytes_of_sextets]. rewrite (IH Hl).
    set (n := (a * 256 + b) * 256 + c).
    assert (((n / 262144 * 64 + (n / 4096) mod 64) * 64 + (n / 64) mod 64) * 64 +
            n mod 64 = n) as -> by lia.
    subst n. f_equal; [lia|]. f_equal; [lia|]. f_equal. lia.
Qed.

(** The sextets never leave one character over, and sextets and pad
    characters together fill whole groups of four. *)
Lemma encode_lengths (l : list N) :
  exists k : nat,
    (length (encode_sextets l) + length (padding l) = 4 * k)%nat /\
    (length (padding l) <= 2)%nat /\
    (length (padding l) = 0 \/ 2 <= length (encode_sextets l))%nat /\
    (length (encode_sextets l) <> 4 * k + 1)%nat /\
    (4 * (k - 1) < length (encode_sextets l) \/ length (encode_sextets l) = 0)%nat.
Proof.
  induction l as [|a|a b|a b c l IH] using list_ind3.
  - exists 0%nat. simpl. lia.
  - exists 1%nat. simpl. lia.
  - exists 1%nat. simpl. lia.
  - destruct IH as (k & IH). exists (S k).
    cbn [encode_sextets padding length]. lia.
Qed.

Lemma padding_cases (l : list N) :
  padding l = [] \/ padding l = [pad] \/ padding l = [pad; pad].
Proof.
  induction l as [|a|a b|a b c l IH] using list_ind3; simpl; auto.
Qed.

Lemma sextets_alphabet (sx : list N) :
  Forall (fun s => s < 64) sx -> sextets (map char_of_sextet sx) = Some sx.
Proof.
  induction 1 as [|s sx Hs _ IH]; [done|]. simpl.
  destruct (alphabet_roundtrip s Hs) as (-> & _). by rewrite IH.
Qed.

Lemma filter_all {A} (f : A -> bool) (l : list A) :
  Forall (fun x => f x = true) l -> List.filter f l = l.
Proof. induction 1 as [|x l Hx _ IH]; [done|]. simpl. by rewrite Hx, IH. Qed.

Lemma alphabet_chars (sx : list N) :
  Forall (fun s => s < 64) sx ->
  Forall (fun c => is_ascii_whitespace c = false /\ Ascii.eqb c pad = false)
         (map char_of_sextet sx).
Proof.
  induction 1 as [|s sx Hs _ IH]; constructor; [|done].
  by destruct (alphabet_roundtrip s Hs) as (_ & ? & ?).
Qed.

Lemma strip_padding_body (body pads : list ascii) :
  Forall (fun c => Ascii.eqb c pad = false) body ->
  pads = [] \/ pads = [pad] \/ pads = [pad; pad] ->
  strip_padding (body ++ pads) = body.
Proof.
  intros Hbody Hpads. unfold strip_padding. rewrite rev_app_distr.
  assert (Forall (fun c => Ascii.eqb c pad = false) (rev body)) as Hrev.
  { by apply List.Forall_rev. }
  destruct Hpads as [->|[->| ->]]; simpl.
  - rewrite app_nil_r. destruct (rev body) as [|p1 [|p2 r]] eqn:Hr; [done| |].
    + apply Forall_cons in Hrev as [-> _]. done.
    + apply Forall_cons in Hrev as [-> _]. done.
  - destruct (rev body) as [|p2 r] eqn:Hr.
    + apply (f_equal (@rev _)) in Hr. rewrite rev_involutive in Hr. by subst.
    + apply Forall_cons in Hrev as [-> _].
      by rewrite <- (rev_involutive body), Hr.
  - rewrite rev_involutive. done.
Qed.

(** [atob] undoes the encoding: the binary string has one character per
    byte, with the byte's value as its code. *)
Lemma atob_encode_chars (l : list N) :
  Forall (fun b => b < 256) l ->
  atob (string_of_list_ascii (encode_chars l)) =
    Some (string_of_list_ascii (map ascii_of_N l)).
Proof.
  intros Hl. unfold atob. rewrite list_ascii_of_string_of_list_ascii.
  pose proof (encode_sextets_bound l Hl) as Hsx.
  pose proof (alphabet_chars _ Hsx) as Hchars.
  destruct (encode_lengths l) as (k & Hlen & Hpad & _ & Hne & _).
  rewrite encode_chars_split.
  rewrite filter_all.
  2:{ apply Forall_app. split.
      - eapply Forall_impl; [exact Hchars|]. by intros c [-> _].
      - destruct (padding_cases l) as [->|[->| ->]]; by repeat constructor. }
  assert (N.of_nat (length (map char_of_sextet (encode_sextets l) ++ padding l)) mod 4 = 0)
    as Hmod.
  { rewrite length_app, length_map. lia. }
  rewrite Hmod. simpl (0 =? 0).  cbv iota.
  rewrite strip_padding_body.
  2:{ eapply Forall_impl; [exact Hchars|]. by intros c [_ ->]. }
  2:{ apply padding_cases. }
  assert ((N.of_nat (length (map char_of_sextet (encode_sextets l))) mod 4 =? 1) = false)
    as ->.
  { apply N.eqb_neq. rewrite length_map. lia. }
  rewrite (sextets_alphabet _ Hsx). by rewrite (bytes_of_encode_sextets l Hl).
Qed.

Lemma to_N_bound (x : list byte) : Forall (fun b => b < 256) (map Byte.to_N x).
Proof.
  apply List.Forall_forall. intros n (b & <- & _)%in_map_iff.
  pose proof (Byte.to_N_bounded b). lia.
Qed.

Lemma atob_encode (x : list byte) :
  atob (encode x) = Some (string_of_list_ascii (map ascii_of_N (map Byte.to_N x))).
Proof. apply atob_encode_chars, to_N_bound. Qed.

End Base64Facts.

(** ** The chunked decoder *)

Module ByteChunkCodec.

Import JSString JSStringFacts AudioUtils Base64Facts.

(** The bytes of a binary string: the code of each character, as a byte. *)
Definition bytes_of_string (s : string) : list byte :=
  Uint8Array (byteNumbers s).

Lemma list_of_substring (n : nat) (s : string) :
  list_ascii_of_string (substring n s) = skipn n (list_ascii_of_string s).
Proof. revert s. induction n; intros [|c s]; simpl; auto. Qed.

Lemma list_of_take (n : nat) (s : string) :
  list_ascii_of_string (JSString.take n s) = firstn n (list_ascii_of_string s).
Proof. revert s. induction n; intros [|c s]; simpl; auto. by rewrite IHn. Qed.

Lemma length_list_of_string (s : string) :
  length (list_ascii_of_string s) = String.length s.
Proof. induction s; simpl; congruence. Qed.

Lemma bytes_of_substring (n : nat) (s : string) :
  bytes_of_string (substring n s) = skipn n (bytes_of_string s).
Proof.
  unfold bytes_of_string, Uint8Array, byteNumbers.
  by rewrite list_of_substring, !skipn_map.
Qed.

Lemma bytes_of_slice (s : string) (a b : nat) :
  bytes_of_string (slice s a b) = firstn (b - a) (skipn a (bytes_of_string s)).
Proof.
  unfold slice, bytes_of_string, Uint8Array, byteNumbers.
  by rewrite list_of_take, list_of_substring, !skipn_map, !firstn_map.
Qed.

Lemma length_bytes_of_string (s : string) :
  length (bytes_of_string s) = String.length s.
Proof.
  unfold bytes_of_string, Uint8Array, byteNumbers.
  by rewrite !length_map, length_list_of_string.
Qed.

(** A byte survives the way through a character code. *)
Lemma ToUint8_code (b : byte) :
  ToUint8 (N_of_ascii (ascii_of_N (Byte.to_N b))) = b.
Proof.
  pose proof (Byte.to_N_bounded b) as Hb.
  rewrite N_ascii_embedding by lia.
  unfold ToUint8. rewrite N.mod_small by lia. by rewrite Byte.of_to_N.
Qed.

Lemma bytes_of_binary_string (x : list byte) :
  bytes_of_string (string_of_list_ascii (map ascii_of_N (map Byte.to_N x))) = x.
Proof.
  unfold bytes_of_string, Uint8Array, byteNumbers.
  rewrite list_ascii_of_string_of_list_ascii, !map_map.
  induction x as [|b x IH]; [done|]. simpl. by rewrite ToUint8_code, IH.
Qed.

(** One turn of the loop. *)
Lemma byteArrays_from_step (s : string) (offset : nat) (acc : list (list byte)) :
  byteArrays_from s offset acc =
    if decide (offset < String.length s)%nat
    then byteArrays_from s (offset + ChatConstants.AUDIO_CHUNK_SIZE)
           (acc ++ [bytes_of_string
                      (slice s offset (offset + ChatConstants.AUDIO_CHUNK_SIZE))])
    else acc.
Proof.
  rewrite (byteArrays_from_equation_1 s offset acc).
  by destruct (decide (offset < String.length s)%nat).
Qed.

(** The arrays pushed before stay in front. *)
Lemma byteArrays_from_acc (s : string) (offset : nat) (acc : list (list byte)) :
  byteArrays_from s offset acc = acc ++ byteArrays_from s offset [].
Proof.
  remember (String.length s - offset)%nat as n eqn:Hn.
  revert offset acc Hn. induction n as [n IH] using lt_wf_ind. intros offset acc Hn.
  rewrite (byteArrays_from_step s offset acc), (byteArrays_from_step s offset []).
  destruct (decide (offset < String.length s)%nat) as [Hlt|Hge];
    [|by rewrite app_nil_r].
  assert (String.length s - (offset + ChatConstants.AUDIO_CHUNK_SIZE) < n)%nat as Hm.
  { unfold ChatConstants.AUDIO_CHUNK_SIZE. lia. }
  rewrite (IH _ Hm _ (acc ++ _) eq_refl), (IH _ Hm _ ([] ++ _) eq_refl).
  by rewrite <- app_assoc.
Qed.

Lemma byteArrays_from_cons (s : string) (offset : nat) :
  byteArrays_from s offset [] =
    if decide (offset < String.length s)%nat
    then bytes_of_string (slice s offset (offset + ChatConstants.AUDIO_CHUNK_SIZE))
           :: byteArrays_from s (offset + ChatConstants.AUDIO_CHUNK_SIZE) []
    else [].
Proof.
  rewrite byteArrays_from_step.
  destruct (decide (offset < String.length s)%nat); [|done].
  by rewrite byteArrays_from_acc.
Qed.

(** The [i]-th array holds the [i]-th slice of 512 characters. *)
Lemma byteArrays_from_lookup (s : string) (offset i : nat) :
  byteArrays_from s offset [] !! i =
    if decide (offset + ChatConstants.AUDIO_CHUNK_SIZE * i < String.length s)%nat
    then Some (bytes_of_string
                 (slice s (offset + ChatConstants.AUDIO_CHUNK_SIZE * i)
                    (offset + ChatConstants.AUDIO_CHUNK_SIZE * i
                       + ChatConstants.AUDIO_CHUNK_SIZE)))
    else None.
Proof.
  revert offset. induction i as [|i IH]; intros offset;
    rewrite byteArrays_from_cons.
  - rewrite Nat.mul_0_r, Nat.add_0_r.
    by destruct (decide (offset < String.length s)%nat).
  - replace (offset + ChatConstants.AUDIO_CHUNK_SIZE * S i)%nat
      with (offset + ChatConstants.AUDIO_CHUNK_SIZE + ChatConstants.AUDIO_CHUNK_SIZE * i)%nat
      by lia.
    destruct (decide (offset < String.length s)%nat) as [Hlt|Hge].
    + apply IH.
    + rewrite decide_False by lia. done.
Qed.

(** Together the arrays hold the whole string from [offset] on. *)
Lemma byteArrays_from_concat (s : string) (offset : nat) :
  concat (byteArrays_from s offset []) = bytes_of_string (substring offset s).
Proof.
  remember (String.length s - offset)%nat as n eqn:Hn.
  revert offset Hn. induction n as [n IH] using lt_wf_ind. intros offset Hn.
  rewrite byteArrays_from_cons.
  destruct (decide (offset < String.length s)%nat) as [Hlt|Hge].
  - assert (String.length s - (offset + ChatConstants.AUDIO_CHUNK_SIZE) < n)%nat as Hm.
    { unfold ChatConstants.AUDIO_CHUNK_SIZE. lia. }
    simpl. rewrite (IH _ Hm _ eq_refl).
    rewrite bytes_of_slice, !bytes_of_substring.
    replace (offset + ChatConstants.AUDIO_CHUNK_SIZE - offset)%nat
      with ChatConstants.AUDIO_CHUNK_SIZE by lia.
    rewrite <- drop_drop. apply take_drop.
  - rewrite bytes_of_substring. symmetry. apply drop_ge.
    rewrite length_bytes_of_string. lia.
Qed.

(** C4. Decoding the base64 encoding of any byte sequence [x] succeeds and
    gives a blob of the requested type whose bytes are [x]. The blob is
    built from the decoded string in slices of 512 characters, each
    character mapped to its code: part [i] holds the bytes of [x] from
    [512 * i] up to [512 * i + 512] (fewer in the last part), and there is
    no part beyond the end of [x]. *)
Theorem base64ToBlob_encode (x : list byte) (type : string) :
  exists blob,
    base64ToBlob (Base64.encode x) type = Some blob /\
    AudioUtils.type blob = type /\
    blob_bytes blob = x /\
    (forall i : nat,
       parts blob !! i =
         if decide (512 * i < length x)%nat
         then Some (firstn 512 (skipn (512 * i) x))
         else None).
Proof.
  unfold base64ToBlob. rewrite atob_encode.
  set (s := string_of_list_ascii (map ascii_of_N (map Byte.to_N x))).
  pose proof (bytes_of_binary_string x) as Hx. fold s in Hx.
  eexists. split; [reflexivity|]. split; [reflexivity|]. split.
  - unfold blob_bytes. simpl. rewrite byteArrays_from_concat.
    by rewrite bytes_of_substring, Hx.
  - intros i. simpl. rewrite byteArrays_from_lookup.
    rewrite <- (length_bytes_of_string s), Hx, bytes_of_slice, Hx.
    change ChatConstants.AUDIO_CHUNK_SIZE with 512%nat.
    replace (0 + 512 * i + 512 - (0 + 512 * i))%nat with 512%nat by lia.
    done.
Qed.

End ByteChunkCodec.

(** ** The body of an agent-flow trace *)

Module FlowContent.

Import JSString JSStringFacts Frame MessageComponent.
Local Open Scope string_scope.
Local Arguments String.append !_ _ / : simpl nomatch.

(** The elements of an array that may be absent. *)
Definition items {A} (l : option (list A)) : list A :=
  match l with
  | Some x => x
  | None => []
  end.

Lemma concat_empty_sep_cons (s : string) (l : list string) :
  String.concat "" (s :: l) = s ++ String.concat "" l.
Proof.
  destruct l as [|t l]; simpl.
  - induction s as [|c s IH]; [done|]. simpl. by rewrite <- IH.
  - reflexivity.
Qed.

Lemma concat_empty_sep_app (l1 l2 : list string) :
  String.concat "" (l1 ++ l2) = String.concat "" l1 ++ String.concat "" l2.
Proof.
  induction l1 as [|s l1 IH]; [done|].
  rewrite <- app_comm_cons, !concat_empty_sep_cons, IH.
  induction s as [|c s IHs]; [done|]. simpl. by rewrite IHs.
Qed.

Lemma _formatToolCalls_app (l1 l2 : list ToolCall) :
  _formatToolCalls (l1 ++ l2) = _formatToolCalls l1 ++ _formatToolCalls l2.
Proof. unfold _formatToolCalls. by rewrite map_app, concat_empty_sep_app. Qed.

Lemma _formatInternalMessages_app (l1 l2 : list string) :
  _formatInternalMessages (l1 ++ l2) =
    _formatInternalMessages l1 ++ _formatInternalMessages l2.
Proof. unfold _formatInternalMessages. by rewrite map_app, concat_empty_sep_app. Qed.

Lemma _formatToolCalls_truthy (call : ToolCall) (l : list ToolCall) :
  ToBoolean (_formatToolCalls (call :: l)) = true.
Proof.
  unfold _formatToolCalls. rewrite map_cons, concat_empty_sep_cons. reflexivity.
Qed.

Lemma _formatInternalMessages_truthy (msg : string) (l : list string) :
  ToBoolean (_formatInternalMessages (msg :: l)) = true.
Proof.
  unfold _formatInternalMessages. rewrite map_cons, concat_empty_sep_cons. reflexivity.
Qed.

Lemma append_empty_r (s : string) : s ++ "" = s.
Proof. induction s; simpl; congruence. Qed.

Lemma ToBoolean_app (a b : string) :
  ToBoolean (a ++ b) = ToBoolean a || ToBoolean b.
Proof. by destruct a. Qed.

Lemma ToBoolean_true_nonempty (s : string) : ToBoolean s = true -> s <> "".
Proof. by destruct s. Qed.

Section Facts.

Variable dump : AgentFlow -> string.

Lemma _createFlowContent_formatted (flow : AgentFlow) :
  _createFlowContent dump flow =
    if ToBoolean (_formatToolCalls (items (tool_calls flow)) ++
                  _formatInternalMessages (items (internal_messages flow)))
    then _formatToolCalls (items (tool_calls flow)) ++
         _formatInternalMessages (items (internal_messages flow))
    else dump flow.
Proof.
  unfold _createFlowContent, items.
  destruct (tool_calls flow) as [tc|], (internal_messages flow) as [im|];
    try reflexivity.
  change (_formatInternalMessages []) with "".
  rewrite append_empty_r. reflexivity.
Qed.

(** The trace body shows one block for every tool call and then one for
    every internal message, in the order of the arrays. It is the dump of
    the whole structure exactly when there is nothing to show: each array
    absent or empty. *)
Theorem flow_content_falls_back_when_empty (flow : AgentFlow) :
  (items (tool_calls flow) = [] /\ items (internal_messages flow) = [] ->
     _createFlowContent dump flow = dump flow) /\
  (items (tool_calls flow) <> [] \/ items (internal_messages flow) <> [] ->
     _createFlowContent dump flow =
       _formatToolCalls (items (tool_calls flow)) ++
       _formatInternalMessages (items (internal_messages flow)) /\
     _createFlowContent dump flow <> "") /\
  (forall l1 l2, _formatToolCalls (l1 ++ l2) = _formatToolCalls l1 ++ _formatToolCalls l2) /\
  (forall l1 l2, _formatInternalMessages (l1 ++ l2) =
     _formatInternalMessages l1 ++ _formatInternalMessages l2).
Proof.
  split; [|split; [|split; [apply _formatToolCalls_app|apply _formatInternalMessages_app]]].
  - intros [H1 H2]. rewrite _createFlowContent_formatted, H1, H2. reflexivity.
  - intros H. rewrite _createFlowContent_formatted.
    assert (ToBoolean (_formatToolCalls (items (tool_calls flow)) ++
                       _formatInternalMessages (items (internal_messages flow))) = true)
      as Ht.
    { rewrite ToBoolean_app. apply orb_true_iff.
      destruct (items (tool_calls flow)) as [|call l]; [right|left].
      - destruct (items (internal_messages flow)) as [|msg l]; [by destruct H|].
        apply _formatInternalMessages_truthy.
      - apply _formatToolCalls_truthy. }
    rewrite Ht. split; [reflexivity|]. by apply ToBoolean_true_nonempty.
Qed.

End Facts.

(** A flow with one tool call that has a result, and a flow with an empty
    list of calls. *)
Definition lookup_call : ToolCall :=
  {| name := "search"; parameters := "{}"; result := Some "42" |}.

Lemma flow_content_falls_back_when_empty_witness :
  _createFlowContent (fun _ => "{}")
    {| tool_calls := Some []; internal_messages := None |} = "{}" /\
  _createFlowContent (fun _ => "{}")
    {| tool_calls := Some [lookup_call]; internal_messages := Some ["thinking"] |} =
    _formatToolCalls [lookup_call] ++ _formatInternalMessages ["thinking"].
Proof.
  split.
  - apply (proj1 (flow_content_falls_back_when_empty (fun _ => "{}")
             {| tool_calls := Some []; internal_messages := None |})).
    by split.
  - apply (proj1 (proj2 (flow_content_falls_back_when_empty (fun _ => "{}")
             {| tool_calls := Some [lookup_call]; internal_messages := Some ["thinking"] |}))).
    by left.
Defined.

End FlowContent.

(** ** Players: arrival, toggling, the end of a clip *)

Module Playback.

Import JSNumber JSString Dom Frame HandlerFacts.
Import MessageComponent WebSocketHandler Dispatcher Player.
Local Open Scope handler_scope.

(** The audio elements after a frame. *)
Definition players_after (data : InboundFrame) (p : Page) : gmap nat AudioControls :=
  if isErrorFrame data then audios p
  else
    match base64_audio data with
    | Some b =>
        if ToBoolean b
        then <[fresh (dom (audios p)) := new_controls b]> (audios p)
        else audios p
    | None => audios p
    end.

Lemma fresh_player_absent (p : Page) : audios p !! fresh (dom (audios p)) = None.
Proof. apply not_elem_of_dom, is_fresh. Qed.

Section Frames.

Variable ts : number -> string.

Lemma handleWebSocketMessage_players (data : InboundFrame) (p : Page) :
  audios (settle (handleWebSocketMessage ts data) p) = players_after data p /\
  currentAudio (settle (handleWebSocketMessage ts data) p) = currentAudio p.
Proof.
  unfold settle, players_after. rewrite handleWebSocketMessage_run.
  destruct (cost_step_player ts data p) as [Ha Hc].
  destruct (isErrorFrame data) eqn:He.
  - unfold isErrorFrame in He. destruct (message data) as [m|] eqn:Hm; [|done].
    rewrite (handleErrorMessage_run _ m) by done. simpl. by rewrite Ha, Hc.
  - unfold content_steps.
    destruct (message data) as [m|]; [destruct (ToBoolean m)|];
      (destruct (base64_image data) as [i|]; [destruct (ToBoolean i)|]);
      (destruct (base64_audio data) as [a|]; [destruct (ToBoolean a)|]);
      (destruct (research_result data) as [r|]; [destruct (ToBoolean r)|]);
      simpl; rewrite ?Ha, ?Hc; by split.
Qed.

(** A frame never disturbs playback: [currentAudio] and every audio
    element there is stay as they are. A frame that is not an error frame
    and carries a non-empty [base64_audio] adds one element, under a key
    that was free: paused at 0, of unknown duration, with the payload in a
    [data:] URL as its source and a button that shows Play. Any other
    frame adds none. *)
Theorem frame_adds_idle_player (data : InboundFrame) (p : Page) :
  currentAudio (settle (handleWebSocketMessage ts data) p) = currentAudio p /\
  (forall i w, audios p !! i = Some w ->
     audios (settle (handleWebSocketMessage ts data) p) !! i = Some w) /\
  (forall b, isErrorFrame data = false -> base64_audio data = Some b ->
     ToBoolean b = true ->
     audios p !! fresh (dom (audios p)) = None /\
     audios (settle (handleWebSocketMessage ts data) p) =
       <[fresh (dom (audios p)) :=
           {| audio := {| src := ("data:audio/mp3;base64," ++ b)%string;
                          paused := true; currentTime := of_Z 0; duration := NaN |};
              playButton := {| playing := false |};
              base64Audio := b |}]> (audios p)) /\
  (isErrorFrame data = true \/ base64_audio data = None \/
   base64_audio data = Some ""%string ->
     audios (settle (handleWebSocketMessage ts data) p) = audios p).
Proof.
  destruct (handleWebSocketMessage_players data p) as [Ha Hc].
  split; [exact Hc|]. rewrite Ha. unfold players_after. split; [|split].
  - intros i w Hi. destruct (isErrorFrame data); [done|].
    destruct (base64_audio data) as [b|]; [|done].
    destruct (ToBoolean b); [|done].
    rewrite lookup_insert_ne; [done|]. intros <-.
    rewrite fresh_player_absent in Hi. discriminate Hi.
  - intros b -> -> ->. split; [apply fresh_player_absent|reflexivity].
  - intros [-> |[-> | ->]]; [done| |]; by destruct (isErrorFrame data).
Qed.

End Frames.

Lemma frame_adds_idle_player_witness :
  audios (settle (handleWebSocketMessage (fun _ => ""%string) (audio_frame "YQ=="))
            (run (fun _ => ""%string) two_players_first_playing blank)) !! 2%nat =
    Some (new_controls "YQ==") /\
  is_playing (settle (handleWebSocketMessage (fun _ => ""%string) (audio_frame "YQ=="))
                (run (fun _ => ""%string) two_players_first_playing blank)) 0.
Proof.
  destruct (frame_adds_idle_player (fun _ => ""%string) (audio_frame "YQ==")
              (run (fun _ => ""%string) two_players_first_playing blank))
    as (_ & Hold & Hnew & _).
  split.
  - destruct (Hnew "YQ=="%string eq_refl eq_refl eq_refl) as [_ ->].
    vm_compute. reflexivity.
  - eexists. split; [apply Hold; vm_compute; reflexivity|reflexivity].
Defined.

(** ** The play button of the active widget *)

(** A click on the play button of [a] while no other widget is the active
    one returns normally and flips [a] between playing and paused, in
    place: the position, the duration and the source stay, and the button
    shows Pause exactly when [a] now plays. A widget that starts becomes
    the active one; a widget that is paused stays the active one. No other
    widget, no node and no ledger field changes. *)
Theorem toggle_pauses_in_place (a : nat) (w : AudioControls) (p : Page) :
  audios p !! a = Some w ->
  currentAudio p = None \/ currentAudio p = Some a ->
  fst (playButton_click a p) = Returned tt /\
  audios (settle (playButton_click a) p) !! a =
    Some {| audio := {| src := src (audio w);
                        paused := negb (paused (audio w));
                        currentTime := currentTime (audio w);
                        duration := duration (audio w) |};
            playButton := {| playing := paused (audio w) |};
            base64Audio := base64Audio w |} /\
  (forall b, b <> a ->
     audios (settle (playButton_click a) p) !! b = audios p !! b) /\
  currentAudio (settle (playButton_click a) p) =
    (if paused (audio w) then Some a else currentAudio p) /\
  messagesContainer (settle (playButton_click a) p) = messagesContainer p /\
  ledger (settle (playButton_click a) p) = ledger p.
Proof.
  intros Hw Hc. unfold settle. rewrite playButton_click_self, Hw by done.
  destruct (paused (audio w)) eqn:Hp.
  - rewrite _playAudio_run. simpl. rewrite !lookup_alter_eq, Hw. simpl.
    repeat split. intros b Hb. by rewrite !lookup_alter_ne.
  - rewrite _pauseAudio_run. simpl. rewrite !lookup_alter_eq, Hw. simpl.
    repeat split. intros b Hb. by rewrite !lookup_alter_ne.
Qed.

(** One player that plays, seven and a half seconds into its clip. *)
Definition playing_clip : Page :=
  set_currentAudio (Some 0%nat)
    (set_audios {[ 0%nat := {| audio := {| src := "data:audio/mp3;base64,YQ==";
                                           paused := false;
                                           currentTime := decimal 75 1;
                                           duration := of_Z 10 |};
                               playButton := {| playing := true |};
                               base64Audio := "YQ==" |} ]} blank).

Lemma toggle_pauses_in_place_witness :
  exists w,
    audios (settle (playButton_click 0) playing_clip) !! 0%nat = Some w /\
    paused (audio w) = true /\
    currentTime (audio w) = decimal 75 1 /\
    currentAudio (settle (playButton_click 0) playing_clip) = Some 0%nat.
Proof.
  destruct (toggle_pauses_in_place 0 _ playing_clip eq_refl (or_intror eq_refl))
    as (_ & Hw & _ & Hc & _).
  eexists. split; [exact Hw|]. split; [reflexivity|]. split; [reflexivity|exact Hc].
Defined.

(** ** The active widget keeps the floor *)

(** [c] is the active widget and no other widget plays. *)
Definition holds_floor (c : nat) (p : Page) : Prop :=
  currentAudio p = Some c /\
  forall a w, a <> c -> audios p !! a = Some w -> paused (audio w) = true.

Lemma holds_floor_frame ts (c : nat) (data : InboundFrame) (p : Page) :
  holds_floor c p -> holds_floor c (settle (handleWebSocketMessage ts data) p).
Proof.
  intros [Hc Hp]. unfold settle.
  destruct (grows_player_handleWebSocketMessage ts data p) as (Hcur & _ & Hnew).
  split; [congruence|]. intros a w Ha Hw.
  destruct (Hnew a w Hw) as [Hold|Hpaused]; [by apply (Hp a)|done].
Qed.

Lemma holds_floor_playClick (c a : nat) (p : Page) :
  holds_floor c p -> holds_floor c (settle (playButton_click a) p).
Proof.
  intros [Hc Hp]. unfold settle.
  destruct (decide (c = a)) as [<-|Hne].
  - rewrite playButton_click_self by auto.
    destruct (audios p !! c) as [w|] eqn:Hw; [|done].
    destruct (paused (audio w)).
    + rewrite _playAudio_run. split; [done|]. simpl. intros a w' Ha.
      rewrite !lookup_alter_ne by done. by apply Hp.
    + rewrite _pauseAudio_run. split; [done|]. simpl. intros a w' Ha.
      rewrite !lookup_alter_ne by done. by apply Hp.
  - rewrite (playButton_click_other a c) by done. split; [done|]. simpl.
    intros b w' Hb. rewrite !lookup_alter_ne by done. by apply Hp.
Qed.

Lemma holds_floor_progressClick (c a : nat) (pos : number) (p : Page) :
  holds_floor c p -> holds_floor c (settle (progressContainer_click a pos) p).
Proof.
  intros [Hc Hp]. unfold settle. rewrite progressContainer_click_run.
  destruct (audios p !! a) as [w|] eqn:Hw; [|done].
  destruct (isFinite _); [|done]. split; [done|]. simpl.
  intros b w' Hb. rewrite lookup_alter. case_decide as Hab; [|by apply Hp].
  subst b. rewrite Hw. simpl. intros [= <-]. simpl. by apply (Hp a).
Qed.

Lemma holds_floor_run ts (c : nat) (events : list Event) (p : Page) :
  holds_floor c p -> holds_floor c (run ts events p).
Proof.
  revert p. induction events as [|e events IH]; intros p Hp; [done|].
  simpl. apply IH. destruct e; unfold step, handler;
    [by apply holds_floor_frame | by apply holds_floor_playClick
    | by apply holds_floor_progressClick].
Qed.

Lemma player_ok_holds_floor (c : nat) (p : Page) :
  player_ok p -> currentAudio p = Some c -> holds_floor c p.
Proof.
  intros [Hplay _] Hc. split; [done|]. intros a w Ha Hw.
  destruct (paused (audio w)) eqn:Hp; [done|].
  assert (currentAudio p = Some a) by (apply Hplay; by exists w). congruence.
Qed.

(** Start from the empty page and let frames arrive and play buttons and
    progress tracks be clicked. Once a widget [c] is the active one, it
    stays the active one whatever arrives and whatever is clicked after:
    no other widget ever plays, and every click on the play button of
    another widget throws. *)
Theorem active_widget_keeps_floor (ts : number -> string)
    (before after : list Event) (c : nat) :
  currentAudio (run ts before blank) = Some c ->
  currentAudio (run ts (before ++ after) blank) = Some c /\
  (forall a, is_playing (run ts (before ++ after) blank) a -> a = c) /\
  (forall a, a <> c ->
     fst (playButton_click a (run ts (before ++ after) blank)) = Threw TypeError).
Proof.
  intros Hc.
  assert (holds_floor c (run ts (before ++ after) blank)) as [Hcur Hp].
  { unfold run. rewrite fold_left_app. apply holds_floor_run.
    apply player_ok_holds_floor; [|exact Hc].
    apply player_ok_run, player_ok_blank. }
  split; [exact Hcur|]. split.
  - intros a (w & Ha & Hw). destruct (decide (a = c)) as [|Hne]; [done|].
    rewrite (Hp a w Hne Ha) in Hw. discriminate Hw.
  - intros a Hne. by rewrite (playButton_click_other a c).
Qed.

Lemma active_widget_keeps_floor_witness :
  currentAudio (run (fun _ => ""%string)
    (two_players_first_playing ++ [PlayClicked 0; PlayClicked 1; PlayClicked 1]) blank) =
    Some 0%nat /\
  fst (playButton_click 1 (run (fun _ => ""%string)
    (two_players_first_playing ++ [PlayClicked 0; PlayClicked 1; PlayClicked 1]) blank)) =
    Threw TypeError.
Proof.
  destruct (active_widget_keeps_floor (fun _ => ""%string) two_players_first_playing
              [PlayClicked 0; PlayClicked 1; PlayClicked 1] 0 eq_refl) as (Hc & _ & Ht).
  split; [exact Hc|]. apply Ht. discriminate.
Defined.

(** ** The end of a clip *)




End Playback.

(** ** The download button *)

Module DownloadFacts.

Import JSNumber JSString JSStringFacts Dom Frame HandlerFacts.
Import AudioUtils MessageComponent WebSocketHandler Dispatcher Player.
Import Base64 Base64Facts ByteChunkCodec Playback.
Local Open Scope handler_scope.

(** The arrays of [base64ToBlob] are as many as the slices of 512
    characters the decoded string has. *)
Lemma length_byteArrays_from (s : string) :
  length (byteArrays_from s 0 []) = ((String.length s + 511) / 512)%nat.
Proof.
  set (l := byteArrays_from s 0 []).
  assert (forall i, (i < length l)%nat <-> (512 * i < String.length s)%nat) as H.
  { intros i. rewrite <- lookup_lt_is_Some. subst l. rewrite byteArrays_from_lookup.
    change ChatConstants.AUDIO_CHUNK_SIZE with 512%nat. rewrite !Nat.add_0_l.
    case_decide as Hd; (split; [intros [x Hx]|intros Hi]); done. }
  pose proof (H (length l)) as Hend.
  destruct (length l) as [|n] eqn:Hl.
  - assert (String.length s = 0%nat) as -> by lia. reflexivity.
  - pose proof (H n) as Hlast.
    assert (512 * n < String.length s <= 512 * S n)%nat as Hb by lia.
    apply Nat.div_unique with (r := (String.length s + 511 - 512 * S n)%nat); lia.
Qed.

Lemma length_firstn_skipn {A} (l : list A) (k n : nat) :
  length (firstn n (skipn k l)) = Nat.min n (length l - k).
Proof. by rewrite List.length_firstn, List.length_skipn. Qed.

(** [base64ToBlob] on any text. It throws exactly when [atob] does. When
    [atob] gives a binary string [s], the blob has the requested type and
    one byte for every character of [s], in order, in
    [ceil (length s / 512)] arrays: every array has 512 bytes but the
    last, which has the rest, and no array is empty; an empty string gives
    a blob with no array. *)
Theorem base64ToBlob_chunks (base64 type : string) :
  match atob base64 with
  | None => base64ToBlob base64 type = None
  | Some s =>
      exists blob,
        base64ToBlob base64 type = Some blob /\
        AudioUtils.type blob = type /\
        blob_bytes blob = Uint8Array (byteNumbers s) /\
        length (blob_bytes blob) = String.length s /\
        length (parts blob) = ((String.length s + 511) / 512)%nat /\
        forall (i : nat) (part : list byte),
          parts blob !! i = Some part ->
          part = firstn 512 (skipn (512 * i) (Uint8Array (byteNumbers s))) /\
          length part = Nat.min 512 (String.length s - 512 * i) /\
          (0 < length part)%nat
  end.
Proof.
  unfold base64ToBlob. destruct (atob base64) as [s|]; [|reflexivity].
  eexists. split; [reflexivity|]. split; [reflexivity|].
  cbn [AudioUtils.parts AudioUtils.type]. fold (bytes_of_string s).
  assert (blob_bytes {| parts := byteArrays_from s 0 []; type := type |} =
          bytes_of_string s) as Hbytes.
  { unfold blob_bytes. simpl. by rewrite byteArrays_from_concat. }
  rewrite Hbytes. split; [reflexivity|].
  split; [apply length_bytes_of_string|].
  split; [apply length_byteArrays_from|].
  intros i part. rewrite byteArrays_from_lookup.
  change ChatConstants.AUDIO_CHUNK_SIZE with 512%nat. rewrite !Nat.add_0_l.
  case_decide as Hi; [|discriminate]. intros Heq.
  apply (inj Some) in Heq. subst part.
  rewrite bytes_of_slice.
  replace (512 * i + 512 - 512 * i)%nat with 512%nat by lia.
  split; [reflexivity|].
  rewrite length_firstn_skipn, length_bytes_of_string. lia.
Qed.

(** ** A character [atob] has no use for *)

Lemma strip_padding_keeps (d : list ascii) (c : ascii) :
  In c d -> Ascii.eqb c pad = false -> In c (strip_padding d).
Proof.
  intros Hin Hc. unfold strip_padding.
  destruct (rev d) as [|p1 [|p2 r]] eqn:Hr; [done| |].
  - destruct (Ascii.eqb p1 pad) eqn:Hp; [|done].
    apply in_rev in Hin. rewrite Hr in Hin. destruct Hin as [<-|[]]. congruence.
  - destruct (Ascii.eqb p1 pad) eqn:Hp1; [|done].
    apply in_rev in Hin. rewrite Hr in Hin.
    destruct Hin as [<-|Hin]; [congruence|].
    destruct (Ascii.eqb p2 pad) eqn:Hp2.
    + destruct Hin as [<-|Hin]; [congruence|]. by apply in_rev in Hin.
    + apply in_rev. by rewrite rev_involutive.
Qed.

Lemma sextets_foreign (d : list ascii) (c : ascii) :
  In c d -> sextet_of_char c = None -> sextets d = None.
Proof.
  induction d as [|x d IH]; [done|]. intros [->|Hin] Hc; simpl.
  - by rewrite Hc.
  - rewrite (IH Hin Hc). by destruct (sextet_of_char x).
Qed.

(** A text with a character that is neither of the base64 alphabet, nor
    white space, nor the pad character is refused. *)
Lemma atob_foreign_character (data : string) (c : ascii) :
  In c (list_ascii_of_string data) ->
  sextet_of_char c = None ->
  is_ascii_whitespace c = false ->
  Ascii.eqb c pad = false ->
  atob data = None.
Proof.
  intros Hin Hs Hw Hp. unfold atob.
  set (d := List.filter _ _).
  assert (In c d) as Hd.
  { apply filter_In. split; [done|]. by rewrite Hw. }
  set (d' := if (N.of_nat (length d) mod 4 =? 0)%N then strip_padding d else d).
  assert (In c d') as Hd'.
  { unfold d'. destruct (_ =? _)%N; [by apply strip_padding_keeps|done]. }
  destruct (_ =? 1)%N; [done|]. by rewrite (sextets_foreign d' c).
Qed.

Lemma encode_chars_truthy (x : list byte) :
  x <> [] -> ToBoolean (encode x) = true.
Proof.
  intros Hx. unfold encode. destruct x as [|a [|b [|c x]]]; [done|done|done|done].
Qed.

Lemma in_truthy (b : string) (c : ascii) :
  In c (list_ascii_of_string b) -> ToBoolean b = true.
Proof. by destruct b. Qed.

Section Facts.

Variable ts : number -> string.

Lemma frame_player (data : InboundFrame) (b : string) (p : Page) :
  isErrorFrame data = false -> base64_audio data = Some b -> ToBoolean b = true ->
  audios (settle (handleWebSocketMessage ts data) p) !! fresh (dom (audios p)) =
    Some (new_controls b).
Proof.
  intros He Hb Ht.
  destruct (handleWebSocketMessage_players ts data p) as [-> _].
  unfold players_after. rewrite He, Hb, Ht. by rewrite lookup_insert_eq.
Qed.

(** What the server encodes is what the user saves. A frame that is not
    an error frame and carries the base64 encoding of a non-empty byte
    sequence [x] as [base64_audio] adds a player; a click on its download
    button returns, leaves the page as it is, and hands over a blob of
    type [audio/mp3] whose bytes are [x], under the name made from the
    date. *)
Theorem download_gives_the_bytes_sent (data : InboundFrame) (x : list byte)
    (now : JSDate.Date) (p : Page) :
  isErrorFrame data = false ->
  base64_audio data = Some (encode x) ->
  x <> [] ->
  exists d,
    downloadButton_click (fresh (dom (audios p))) now
      (settle (handleWebSocketMessage ts data) p) =
      (Returned d, settle (handleWebSocketMessage ts data) p) /\
    blob_bytes (href d) = x /\
    AudioUtils.type (href d) = "audio/mp3"%string /\
    download d = download_name now.
Proof.
  intros He Hb Hx.
  pose proof (frame_player data (encode x) p He Hb (encode_chars_truthy x Hx)) as Hw.
  unfold downloadButton_click, bind, get. rewrite Hw.
  change (base64Audio (new_controls (encode x))) with (encode x).
  unfold base64ToBlob. rewrite atob_encode.
  eexists. split; [reflexivity|]. simpl. split; [|done].
  unfold blob_bytes. simpl. rewrite byteArrays_from_concat.
  rewrite bytes_of_substring. apply bytes_of_binary_string.
Qed.

(** The payload is not looked at when the frame arrives. A frame whose
    [base64_audio] has a character that is neither of the base64
    alphabet, nor white space, nor the pad character still gets its
    player; a click on the download button of that player throws
    [InvalidCharacterError] and leaves the page as it is. *)
Theorem download_throws_on_foreign_character (data : InboundFrame) (b : string)
    (c : ascii) (now : JSDate.Date) (p : Page) :
  isErrorFrame data = false ->
  base64_audio data = Some b ->
  In c (list_ascii_of_string b) ->
  sextet_of_char c = None ->
  is_ascii_whitespace c = false ->
  Ascii.eqb c pad = false ->
  audios (settle (handleWebSocketMessage ts data) p) !! fresh (dom (audios p)) =
    Some (new_controls b) /\
  downloadButton_click (fresh (dom (audios p))) now
    (settle (handleWebSocketMessage ts data) p) =
    (Threw InvalidCharacterError, settle (handleWebSocketMessage ts data) p).
Proof.
  intros He Hb Hin Hs Hw Hp.
  pose proof (frame_player data b p He Hb (in_truthy b c Hin)) as Hpl.
  split; [exact Hpl|].
  unfold downloadButton_click, bind, get. rewrite Hpl.
  change (base64Audio (new_controls b)) with b.
  unfold base64ToBlob. by rewrite (atob_foreign_character b c).
Qed.

End Facts.

Lemma base64ToBlob_chunks_witness :
  base64ToBlob "a" "audio/mp3" = None /\
  exists blob, base64ToBlob "YWI=" "audio/mp3" = Some blob /\
               parts blob = [["a"%byte; "b"%byte]].
Proof.
  split.
  - exact (base64ToBlob_chunks "a" "audio/mp3").
  - destruct (base64ToBlob_chunks "YWI=" "audio/mp3") as (blob & Hb & _).
    exists blob. split; [exact Hb|].
    vm_compute in Hb. by injection Hb as <-.
Defined.

Definition a_morning : JSDate.Date :=
  {| JSDate.year := 2025; JSDate.month := 1; JSDate.day := 15;
     JSDate.hours := 10; JSDate.minutes := 30; JSDate.seconds := 45;
     JSDate.milliseconds := 123 |}.

Lemma download_gives_the_bytes_sent_witness :
  exists d,
    downloadButton_click 0 a_morning
      (settle (handleWebSocketMessage (fun _ => ""%string) (audio_frame "YWI=")) blank) =
      (Returned d,
       settle (handleWebSocketMessage (fun _ => ""%string) (audio_frame "YWI=")) blank) /\
    blob_bytes (href d) = ["a"%byte; "b"%byte] /\
    download d = "audio_20250115T103045.mp3"%string.
Proof.
  destruct (download_gives_the_bytes_sent (fun _ => ""%string) (audio_frame "YWI=")
              ["a"%byte; "b"%byte] a_morning blank eq_refl eq_refl ltac:(discriminate))
    as (d & Hd & Hx & _ & Hn).
  exists d. split; [exact Hd|]. split; [exact Hx|]. rewrite Hn. vm_compute. reflexivity.
Defined.

Lemma download_throws_on_foreign_character_witness :
  fst (downloadButton_click 0 a_morning
         (settle (handleWebSocketMessage (fun _ => ""%string) (audio_frame "YW-I")) blank)) =
    Threw InvalidCharacterError.
Proof.
  destruct (download_throws_on_foreign_character (fun _ => ""%string) (audio_frame "YW-I")
              "YW-I" "-"%char a_morning blank eq_refl eq_refl) as [_ H];
    [simpl; tauto|reflexivity|reflexivity|reflexivity|].
  exact (f_equal fst H).
Defined.

End DownloadFacts.

(** ** The name of a download *)

Module DownloadName.

Import JSString JSDate MessageComponent.
Local Open Scope string_scope.
Local Arguments String.append !_ _ / : simpl nomatch.

(** A character that [replace(/[-:]/g, "")] keeps. *)
Definition kept (c : ascii) : bool := negb (Ascii.eqb c "-" || Ascii.eqb c ":").

Definition two_kept (n : N) : bool :=
  match digits 2 n with
  | String a (String b EmptyString) => kept a && kept b
  | _ => false
  end.

Definition four_kept (n : N) : bool :=
  match digits 4 n with
  | String a (String b (String c (String d EmptyString))) =>
      kept a && kept b && kept c && kept d
  | _ => false
  end.

Lemma two_kept_checked : Bounded.all_from (N.to_nat 100) 0 two_kept = true.
Proof. vm_compute. reflexivity. Qed.

Lemma four_kept_checked : Bounded.all_from (N.to_nat 10000) 0 four_kept = true.
Proof. vm_compute. reflexivity. Qed.

Lemma two_digits_shape (n : N) :
  (n < 100)%N ->
  exists a b, digits 2 n = String a (String b "") /\ kept a = true /\ kept b = true.
Proof.
  intros Hn.
  pose proof (Bounded.all_below 100 two_kept two_kept_checked n Hn) as H.
  unfold two_kept in H.
  destruct (digits 2 n) as [|a [|b [|c s]]]; try discriminate H.
  apply andb_true_iff in H as [Ha Hb]. by exists a, b.
Qed.

Lemma four_digits_shape (n : N) :
  (n < 10000)%N ->
  exists a b c d, digits 4 n = String a (String b (String c (String d ""))) /\
                  kept a = true /\ kept b = true /\ kept c = true /\ kept d = true.
Proof.
  intros Hn.
  pose proof (Bounded.all_below 10000 four_kept four_kept_checked n Hn) as H.
  unfold four_kept in H.
  destruct (digits 4 n) as [|a [|b [|c [|d [|e s]]]]]; try discriminate H.
  apply andb_true_iff in H as [[[Ha Hb]%andb_true_iff Hc]%andb_true_iff Hd].
  by exists a, b, c, d.
Qed.

Lemma remove_kept (c : ascii) (s : string) :
  kept c = true -> remove_dash_colon (String c s) = String c (remove_dash_colon s).
Proof.
  unfold kept. intros H%negb_true_iff. simpl. by rewrite H.
Qed.

Lemma remove_dash (s : string) :
  remove_dash_colon (String "-" s) = remove_dash_colon s.
Proof. reflexivity. Qed.

Lemma remove_colon (s : string) :
  remove_dash_colon (String ":" s) = remove_dash_colon s.
Proof. reflexivity. Qed.

(** For a date whose year has four digits the name is [audio_], the date
    as [YYYYMMDD], the letter [T], the time as [HHMMSS], and [.mp3]: 25
    characters. The milliseconds are not in it, so two downloads in the
    same second get the same name. *)
Theorem download_name_format (now : Date) :
  (0 <= year now <= 9999)%Z ->
  (month now < 100)%N -> (day now < 100)%N ->
  (hours now < 100)%N -> (minutes now < 100)%N -> (seconds now < 100)%N ->
  download_name now =
    "audio_" ++ digits 4 (Z.to_N (year now)) ++ digits 2 (month now) ++
    digits 2 (day now) ++ "T" ++ digits 2 (hours now) ++ digits 2 (minutes now) ++
    digits 2 (seconds now) ++ ".mp3" /\
  String.length (download_name now) = 25%nat.
Proof.
  intros Hy Hmo Hd Hh Hmi Hs. unfold download_name, toISOString.
  assert ((0 <=? year now)%Z && (year now <=? 9999)%Z = true) as ->.
  { apply andb_true_iff. split; apply Z.leb_le; lia. }
  destruct (four_digits_shape (Z.to_N (year now)) ltac:(lia))
    as (y1 & y2 & y3 & y4 & -> & Hy1 & Hy2 & Hy3 & Hy4).
  destruct (two_digits_shape _ Hmo) as (o1 & o2 & -> & Ho1 & Ho2).
  destruct (two_digits_shape _ Hd) as (d1 & d2 & -> & Hd1 & Hd2).
  destruct (two_digits_shape _ Hh) as (h1 & h2 & -> & Hh1 & Hh2).
  destruct (two_digits_shape _ Hmi) as (m1 & m2 & -> & Hm1 & Hm2).
  destruct (two_digits_shape _ Hs) as (s1 & s2 & -> & Hs1 & Hs2).
  unfold slice. cbn [substring Nat.sub String.append JSString.take].
  repeat first [ rewrite remove_kept by (assumption || reflexivity)
               | rewrite remove_dash | rewrite remove_colon ].
  split; reflexivity.
Qed.

(** A second of a morning, at some millisecond. *)
Definition morning (ms : N) : Date :=
  {| year := 2025; month := 1; day := 15; hours := 10; minutes := 30;
     seconds := 45; milliseconds := ms |}.

Lemma download_name_format_witness :
  download_name (morning 123) = "audio_20250115T103045.mp3" /\
  download_name (morning 987) = "audio_20250115T103045.mp3".
Proof.
  assert (0 <= 2025 <= 9999)%Z as Hy by lia.
  split.
  - rewrite (proj1 (download_name_format (morning 123) Hy eq_refl eq_refl eq_refl
                      eq_refl eq_refl)).
    vm_compute. reflexivity.
  - rewrite (proj1 (download_name_format (morning 987) Hy eq_refl eq_refl eq_refl
                      eq_refl eq_refl)).
    vm_compute. reflexivity.
Defined.

End DownloadName.

(** ** The session: input field, socket and page *)

Module Session.

Import JSNumber JSString Dom Frame HandlerFacts.
Import MessageComponent WebSocketHandler Dispatcher Player.
Import WebSocket ChatApp.
Local Open Scope string_scope.

(** What can happen to the application. The first four events are the
    user's and the listeners of [ChatApp] answer them; a frame is answered
    by [ws.onmessage]; the change of the socket's state is the
    connection's own. *)
Inductive Event :=
| Typed (text : string)
| KeyPressed (key : string)
| SendClicked
| PlayClicked (a : nat)
| ProgressClicked (a : nat) (pos : number)
| PlaybackEnded (a : nat)
| FrameReceived (data : InboundFrame)
| SocketBecomes (s : ReadyState).

(** A listener of the page, run in the application. *)
Definition on_page (h : Handler unit) (app : App) : App :=
  set_page (settle h (page app)) app.

(** The bubble of a text the user sends. *)
Definition bubble (m : string) : Node :=
  MessageNode "message user" ("<strong>You:</strong> " ++ m) None.

(** The text of a node that is a bubble of the user. *)
Definition user_text (n : Node) : option string :=
  match n with
  | MessageNode className innerHTML _ =>
      if String.eqb className "message user" then Some (substring 22 innerHTML)
      else None
  | _ => None
  end.

Definition user_texts (log : list Node) : list string := omap user_text log.

Definition is_send (e : Event) : bool :=
  match e with
  | SendClicked => true
  | KeyPressed key => String.eqb key "Enter"
  | _ => false
  end.

Definition is_frame (e : Event) : bool :=
  match e with
  | FrameReceived _ => true
  | _ => false
  end.

Definition is_socket_change (e : Event) : bool :=
  match e with
  | SocketBecomes _ => true
  | _ => false
  end.

Definition count (f : Event -> bool) (events : list Event) : nat :=
  length (List.filter f events).

Section Facts.

Variable ts : number -> string.

Definition step (app : App) (e : Event) : App :=
  match e with
  | Typed text => set_messageInput text app
  | KeyPressed key => snd (messageInput_keypress ts key app)
  | SendClicked => snd (sendMessage ts app)
  | PlayClicked a => on_page (playButton_click a) app
  | ProgressClicked a pos => on_page (progressContainer_click a pos) app
  | PlaybackEnded a => on_page (audio_ended a) app
  | FrameReceived data => snd (ws_onmessage ts data app)
  | SocketBecomes s =>
      set_ws {| readyState := s; transmitted := transmitted (ws app) |} app
  end.

Definition run (events : list Event) (app : App) : App :=
  fold_left step events app.

Lemma run_cons (e : Event) (events : list Event) (app : App) :
  run (e :: events) app = run events (step app e).
Proof. reflexivity. Qed.

(** *** Sending *)

Lemma sendMessage_run (app : App) :
  sendMessage ts app =
    match messageInput app with
    | EmptyString => (Done, app)
    | m =>
        match readyState (ws app) with
        | CONNECTING =>
            (Throws (FromSocket InvalidStateError),
             set_page (appendChild (bubble m) (page app)) app)
        | OPEN =>
            (Done,
             {| messageInput := "";
                ws := {| readyState := OPEN; transmitted := transmitted (ws app) ++ [m] |};
                page := appendChild (bubble m) (page app) |})
        | CLOSING | CLOSED =>
            (Done,
             {| messageInput := ""; ws := ws app;
                page := appendChild (bubble m) (page app) |})
        end
    end.
Proof.
  unfold sendMessage, wsHandler_sendMessage, send.
  destruct (messageInput app) as [|c m] eqn:Hm; [reflexivity|].
  simpl ToBoolean. cbv iota.
  change (appendMessage ts (String c m) true None None (page app))
    with (Returned tt, appendChild (bubble (String c m)) (page app)).
  cbv iota beta. by destruct (readyState (ws app)).
Qed.

(** What a send does, by the state of the socket. With an empty input
    field nothing happens at all, and so for a key other than Enter. With
    a text [m] in the field the bubble of [m] is appended in every case,
    with the text as it was typed. An open socket is handed [m] and the
    field is cleared. A socket that is closing or closed is handed
    nothing, and the field is cleared all the same: the text is lost. A
    socket that is connecting throws, and the field keeps the text. *)
Theorem send_outcome_by_socket_state (app : App) (m : string) :
  messageInput app = m ->
  (m = "" -> sendMessage ts app = (Done, app)) /\
  (forall key, key <> "Enter" -> messageInput_keypress ts key app = (Done, app)) /\
  messageInput_keypress ts "Enter" app = sendMessage ts app /\
  (m <> "" ->
     page (snd (sendMessage ts app)) = appendChild (bubble m) (page app) /\
     match readyState (ws app) with
     | OPEN =>
         fst (sendMessage ts app) = Done /\
         messageInput (snd (sendMessage ts app)) = "" /\
         transmitted (ws (snd (sendMessage ts app))) = (transmitted (ws app) ++ [m])%list
     | CONNECTING =>
         fst (sendMessage ts app) = Throws (FromSocket InvalidStateError) /\
         messageInput (snd (sendMessage ts app)) = m /\
         transmitted (ws (snd (sendMessage ts app))) = transmitted (ws app)
     | CLOSING | CLOSED =>
         fst (sendMessage ts app) = Done /\
         messageInput (snd (sendMessage ts app)) = "" /\
         transmitted (ws (snd (sendMessage ts app))) = transmitted (ws app)
     end).
Proof.
  intros Hm. rewrite sendMessage_run, Hm. split; [by intros ->|]. split; [|split].
  - intros key Hkey. unfold messageInput_keypress.
    destruct (String.eqb key "Enter") eqn:He; [|done]. by apply String.eqb_eq in He.
  - unfold messageInput_keypress. simpl String.eqb. cbv iota.
    by rewrite sendMessage_run, Hm.
  - intros Hne. destruct m as [|c m]; [done|].
    by destruct (readyState (ws app)).
Qed.

(** The nodes a send appends. *)
Definition sent_nodes (app : App) : list Node :=
  match messageInput app with
  | EmptyString => []
  | m => [bubble m]
  end.

(** The texts a send hands to the connection. *)
Definition sent_texts (app : App) : list string :=
  match messageInput app, readyState (ws app) with
  | EmptyString, _ => []
  | m, OPEN => [m]
  | _, _ => []
  end.

Lemma sendMessage_log (app : App) :
  messagesContainer (page (snd (sendMessage ts app))) =
    (messagesContainer (page app) ++ sent_nodes app)%list.
Proof.
  rewrite sendMessage_run. unfold sent_nodes.
  destruct (messageInput app) as [|c m]; [by rewrite app_nil_r|].
  by destruct (readyState (ws app)).
Qed.

Lemma sendMessage_transmitted (app : App) :
  transmitted (ws (snd (sendMessage ts app))) =
    (transmitted (ws app) ++ sent_texts app)%list.
Proof.
  rewrite sendMessage_run. unfold sent_texts.
  destruct (messageInput app) as [|c m]; [by rewrite app_nil_r|].
  destruct (readyState (ws app)); simpl; by rewrite ?app_nil_r.
Qed.

Lemma sendMessage_readyState (app : App) :
  readyState (ws (snd (sendMessage ts app))) = readyState (ws app).
Proof.
  rewrite sendMessage_run.
  destruct (messageInput app) as [|c m]; [done|].
  by destruct (readyState (ws app)) eqn:Hr.
Qed.

Lemma user_text_bubble (m : string) : user_text (bubble m) = Some m.
Proof. reflexivity. Qed.

Lemma user_texts_sent_nodes (app : App) :
  user_texts (sent_nodes app) =
    match messageInput app with
    | EmptyString => []
    | m => [m]
    end.
Proof. unfold sent_nodes. by destruct (messageInput app). Qed.

(** *** The log after a frame *)

(** The nodes a frame appends. *)
Definition frame_nodes (data : InboundFrame) (p : Page) : list Node :=
  if isErrorFrame data then
    match message data with
    | Some m => [ErrorCard (classify (trim (substring 7 m))) (trim (substring 7 m))]
    | None => []
    end
  else
    (rendered (message data) (fun m =>
       MessageNode "message bot" ("<strong>Bot:</strong> " ++ m)
         (if bool_decide (is_Some (cost_info data)) || bool_decide (is_Some (agent_flow data))
          then Some (_createChipsContainer ts (cost_info data) (agent_flow data))
          else None)) ++
     rendered (base64_image data) (fun i => ImageNode ("data:image/png;base64," ++ i)) ++
     rendered (base64_audio data) (fun _ => AudioPlayerNode (fresh (dom (audios p)))) ++
     rendered (research_result data) ResearchNode)%list.

Lemma handleWebSocketMessage_log (data : InboundFrame) (p : Page) :
  messagesContainer (settle (handleWebSocketMessage ts data) p) =
    (messagesContainer p ++ frame_nodes data p)%list.
Proof.
  unfold settle, frame_nodes. rewrite handleWebSocketMessage_run.
  pose proof (cost_step_container ts data p) as Hc.
  destruct (cost_step_player ts data p) as [Ha _].
  destruct (isErrorFrame data) eqn:He.
  - unfold isErrorFrame in He. destruct (message data) as [m|] eqn:Hm; [|done].
    rewrite (handleErrorMessage_run _ m) by done. simpl. by rewrite Hc.
  - unfold content_steps, rendered.
    destruct (message data) as [m|]; [destruct (ToBoolean m)|];
      (destruct (base64_image data) as [i|]; [destruct (ToBoolean i)|]);
      (destruct (base64_audio data) as [a|]; [destruct (ToBoolean a)|]);
      (destruct (research_result data) as [r|]; [destruct (ToBoolean r)|]);
      simpl; rewrite ?Ha, Hc, <- ?app_assoc, ?app_nil_r; reflexivity.
Qed.

Lemma length_rendered (field : option string) (node : string -> Node) :
  (length (rendered field node) <= 1)%nat.
Proof. unfold rendered. destruct field as [s|]; [destruct (ToBoolean s)|]; simpl; lia. Qed.

Lemma length_frame_nodes (data : InboundFrame) (p : Page) :
  (length (frame_nodes data p) <= 4)%nat.
Proof.
  unfold frame_nodes. destruct (isErrorFrame data).
  - destruct (message data); simpl; lia.
  - rewrite !length_app.
    pose proof (length_rendered (message data)) as H1.
    pose proof (length_rendered (base64_image data)) as H2.
    pose proof (length_rendered (base64_audio data)) as H3.
    pose proof (length_rendered (research_result data)) as H4.
    specialize (H1 (fun m =>
       MessageNode "message bot" ("<strong>Bot:</strong> " ++ m)
         (if bool_decide (is_Some (cost_info data)) || bool_decide (is_Some (agent_flow data))
          then Some (_createChipsContainer ts (cost_info data) (agent_flow data))
          else None))).
    specialize (H2 (fun i => ImageNode ("data:image/png;base64," ++ i))).
    specialize (H3 (fun _ => AudioPlayerNode (fresh (dom (audios p))))).
    specialize (H4 ResearchNode). lia.
Qed.

Lemma user_texts_rendered (field : option string) (node : string -> Node) :
  (forall s, user_text (node s) = None) ->
  user_texts (rendered field node) = [].
Proof.
  intros H. unfold rendered, user_texts.
  destruct field as [s|]; [destruct (ToBoolean s)|]; simpl; by rewrite ?H.
Qed.

Lemma user_texts_app (l k : list Node) :
  user_texts (l ++ k) = (user_texts l ++ user_texts k)%list.
Proof. apply omap_app. Qed.

Lemma user_texts_frame_nodes (data : InboundFrame) (p : Page) :
  user_texts (frame_nodes data p) = [].
Proof.
  unfold frame_nodes. destruct (isErrorFrame data).
  - by destruct (message data).
  - rewrite !user_texts_app, !user_texts_rendered; done.
Qed.

(** *** The listeners of the player leave the log alone *)

Lemma playButton_click_log (a : nat) (p : Page) :
  messagesContainer (settle (playButton_click a) p) = messagesContainer p.
Proof.
  unfold settle. destruct (currentAudio p) as [c|] eqn:Hc.
  - destruct (decide (c = a)) as [->|Hne].
    + rewrite playButton_click_self by auto.
      destruct (audios p !! a) as [w|]; [by destruct (paused (audio w))|done].
    + by rewrite (playButton_click_other a c).
  - rewrite playButton_click_self by auto.
    destruct (audios p !! a) as [w|]; [by destruct (paused (audio w))|done].
Qed.

Lemma progressContainer_click_log (a : nat) (pos : number) (p : Page) :
  messagesContainer (settle (progressContainer_click a pos) p) = messagesContainer p.
Proof.
  unfold settle. rewrite progressContainer_click_run.
  destruct (audios p !! a) as [w|]; [by destruct (isFinite _)|done].
Qed.

(** *** One event *)

(** The nodes an event appends. *)
Definition appended (app : App) (e : Event) : list Node :=
  match e with
  | SendClicked => sent_nodes app
  | KeyPressed key => if String.eqb key "Enter" then sent_nodes app else []
  | FrameReceived data => frame_nodes data (page app)
  | _ => []
  end.

Lemma ws_onmessage_page (data : InboundFrame) (app : App) :
  snd (ws_onmessage ts data app) =
    set_page (settle (handleWebSocketMessage ts data) (page app)) app.
Proof.
  unfold ws_onmessage, settle.
  by destruct (handleWebSocketMessage ts data (page app)) as [[[]|e] p].
Qed.

Lemma step_log (app : App) (e : Event) :
  messagesContainer (page (step app e)) =
    (messagesContainer (page app) ++ appended app e)%list.
Proof.
  destruct e as [text|key| |a|a pos|a|data|s]; simpl; rewrite ?app_nil_r; try done.
  - unfold messageInput_keypress. destruct (String.eqb key "Enter").
    + apply sendMessage_log.
    + by rewrite app_nil_r.
  - apply sendMessage_log.
  - apply playButton_click_log.
  - apply progressContainer_click_log.
  - rewrite ws_onmessage_page. apply handleWebSocketMessage_log.
Qed.

Lemma length_appended (app : App) (e : Event) :
  (length (appended app e) <=
     (if is_frame e then 4 else 0) + (if is_send e then 1 else 0))%nat.
Proof.
  assert (length (sent_nodes app) <= 1)%nat as Hs.
  { unfold sent_nodes. destruct (messageInput app); simpl; lia. }
  destruct e as [text|key| |a|a pos|a|data|s]; simpl; try lia.
  - destruct (String.eqb key "Enter"); simpl; lia.
  - pose proof (length_frame_nodes data (page app)). lia.
Qed.

Lemma count_cons (f : Event -> bool) (e : Event) (events : list Event) :
  count f (e :: events) = ((if f e then 1 else 0) + count f events)%nat.
Proof. unfold count. simpl. by destruct (f e). Qed.

(** The log only grows, at its end. Whatever happens (typing, key
    presses, clicks on the send button, on play buttons and on progress
    tracks, clips that end, frames, a socket that opens or closes), the
    nodes the log had stay in place and in order, and new nodes come
    after them: at most four for a frame and at most one for a click on
    the send button or a press of Enter. *)
Theorem log_is_append_only (events : list Event) (app : App) :
  exists l : list Node,
    messagesContainer (page (run events app)) = (messagesContainer (page app) ++ l)%list /\
    (length l <= 4 * count is_frame events + count is_send events)%nat.
Proof.
  revert app. induction events as [|e events IH]; intros app.
  - exists []. by rewrite app_nil_r.
  - destruct (IH (step app e)) as (l & Hl & Hlen).
    exists (appended app e ++ l)%list. split.
    + simpl. rewrite Hl, step_log. by rewrite <- app_assoc.
    + rewrite length_app, !count_cons.
      pose proof (length_appended app e). destruct (is_frame e), (is_send e); lia.
Qed.

(** *** What is transmitted *)

Lemma step_user_texts (app : App) (e : Event) :
  user_texts (messagesContainer (page (step app e))) =
    (user_texts (messagesContainer (page app)) ++
     (if is_send e then
        match messageInput app with
        | EmptyString => []
        | m => [m]
        end
      else []))%list.
Proof.
  rewrite step_log, user_texts_app. f_equal.
  destruct e as [text|key| |a|a pos|a|data|s]; simpl; try done.
  - destruct (String.eqb key "Enter"); [apply user_texts_sent_nodes|done].
  - apply user_texts_sent_nodes.
  - apply user_texts_frame_nodes.
Qed.

Lemma step_transmitted (app : App) (e : Event) :
  transmitted (ws (step app e)) =
    (transmitted (ws app) ++ (if is_send e then sent_texts app else []))%list.
Proof.
  destruct e as [text|key| |a|a pos|a|data|s]; simpl; rewrite ?app_nil_r; try done.
  - unfold messageInput_keypress. destruct (String.eqb key "Enter").
    + apply sendMessage_transmitted.
    + by rewrite app_nil_r.
  - apply sendMessage_transmitted.
  - by rewrite ws_onmessage_page.
Qed.

Lemma step_readyState (app : App) (e : Event) :
  is_socket_change e = false ->
  readyState (ws (step app e)) = readyState (ws app).
Proof.
  destruct e as [text|key| |a|a pos|a|data|s]; simpl; try done.
  - intros _. unfold messageInput_keypress.
    destruct (String.eqb key "Enter"); [apply sendMessage_readyState|done].
  - intros _. apply sendMessage_readyState.
  - intros _. by rewrite ws_onmessage_page.
Qed.

Lemma sent_texts_sublist (app : App) :
  sent_texts app `sublist_of`
    match messageInput app with
    | EmptyString => []
    | m => [m]
    end.
Proof.
  unfold sent_texts. destruct (messageInput app) as [|c m]; [done|].
  destruct (readyState (ws app)); try apply sublist_nil_l. done.
Qed.

(** The texts handed to the connection, and the texts of the bubbles of
    the user in the log. *)
Definition transmitted_have_bubbles (app : App) : Prop :=
  transmitted (ws app) `sublist_of` user_texts (messagesContainer (page app)).

Lemma transmitted_have_bubbles_step (app : App) (e : Event) :
  transmitted_have_bubbles app -> transmitted_have_bubbles (step app e).
Proof.
  unfold transmitted_have_bubbles. intros H.
  rewrite step_transmitted, step_user_texts. apply sublist_app; [done|].
  destruct (is_send e); [apply sent_texts_sublist|done].
Qed.

(** Nothing is sent that the log does not show. Start where every text
    handed to the connection has its bubble, in the same order (as when
    nothing was sent and the log is empty): this stays so whatever
    happens. The log can show more: a bubble is appended before the text
    is sent, also when the socket does not take it. *)
Theorem transmitted_texts_have_bubbles (events : list Event) (app : App) :
  transmitted (ws app) `sublist_of` user_texts (messagesContainer (page app)) ->
  transmitted (ws (run events app)) `sublist_of`
    user_texts (messagesContainer (page (run events app))).
Proof.
  revert app. induction events as [|e events IH]; intros app H; [done|].
  simpl. apply IH. by apply transmitted_have_bubbles_step.
Qed.

(** While the socket is open, every bubble of the user is a text sent, as
    typed: start with an open socket where the bubbles are the texts
    sent; after any events that do not change the socket's state the
    bubbles are again the texts sent, and the socket is open. *)
Theorem open_socket_transmits_every_bubble (events : list Event) (app : App) :
  readyState (ws app) = OPEN ->
  forallb (fun e => negb (is_socket_change e)) events = true ->
  user_texts (messagesContainer (page app)) = transmitted (ws app) ->
  user_texts (messagesContainer (page (run events app))) =
    transmitted (ws (run events app)) /\
  readyState (ws (run events app)) = OPEN.
Proof.
  revert app. induction events as [|e events IH]; intros app Ho Hev Heq; [done|].
  simpl in Hev. apply andb_true_iff in Hev as [He Hev]. apply negb_true_iff in He.
  simpl. apply IH; [by rewrite step_readyState|done|].
  rewrite step_transmitted, step_user_texts, Heq. f_equal.
  unfold sent_texts. rewrite Ho. by destruct (is_send e), (messageInput app).
Qed.

(** A socket that is still connecting throws on [send], after the bubble
    is in the log and before the input field is cleared. So [n] presses
    of Enter on a non-empty text [m] leave [n] bubbles of [m] in the log,
    the text in the field, and nothing sent. *)
Theorem connecting_socket_repeats_bubble (n : nat) (app : App) :
  readyState (ws app) = CONNECTING ->
  messageInput app <> "" ->
  fst (sendMessage ts app) = Throws (FromSocket InvalidStateError) /\
  messageInput (run (repeat (KeyPressed "Enter") n) app) = messageInput app /\
  ws (run (repeat (KeyPressed "Enter") n) app) = ws app /\
  messagesContainer (page (run (repeat (KeyPressed "Enter") n) app)) =
    (messagesContainer (page app) ++ repeat (bubble (messageInput app)) n)%list.
Proof.
  intros Hc Hm. split.
  { rewrite sendMessage_run, Hc. by destruct (messageInput app). }
  revert app Hc Hm. induction n as [|n IH]; intros app Hc Hm.
  - simpl. by rewrite app_nil_r.
  - assert (step app (KeyPressed "Enter") =
            set_page (appendChild (bubble (messageInput app)) (page app)) app) as Hstep.
    { simpl. unfold messageInput_keypress. simpl String.eqb. cbv iota.
      rewrite sendMessage_run, Hc. by destruct (messageInput app). }
    change (repeat (KeyPressed "Enter") (S n))
      with (KeyPressed "Enter" :: repeat (KeyPressed "Enter") n).
    rewrite !run_cons, Hstep.
    destruct (IH (set_page (appendChild (bubble (messageInput app)) (page app)) app)
                Hc Hm) as (H1 & H2 & H3).
    rewrite H1, H2, H3. simpl. by rewrite <- app_assoc.
Qed.

End Facts.

(** The application before anything happens, with a socket in state
    [s]. *)
Definition fresh_app (s : ReadyState) : App :=
  {| messageInput := ""; ws := {| readyState := s; transmitted := [] |};
     page := blank |}.

Lemma send_outcome_by_socket_state_witness :
  sendMessage (fun _ => "") (set_messageInput " hi " (fresh_app CLOSED)) =
    (Done, set_page (appendChild (bubble " hi ") blank) (fresh_app CLOSED)) /\
  transmitted (ws (snd (sendMessage (fun _ => "")
    (set_messageInput " hi " (fresh_app OPEN))))) = [" hi "].
Proof.
  split; [reflexivity|].
  destruct (send_outcome_by_socket_state (fun _ => "")
    (set_messageInput " hi " (fresh_app OPEN)) " hi " eq_refl) as (_ & _ & _ & H).
  destruct (H ltac:(discriminate)) as (_ & _ & _ & Ht). exact Ht.
Defined.

Lemma transmitted_texts_have_bubbles_witness :
  transmitted (ws (run (fun _ => "")
    [Typed "hi"; SendClicked; SocketBecomes OPEN; Typed " ok "; KeyPressed "Enter"]
    (fresh_app CONNECTING))) = [" ok "] /\
  user_texts (messagesContainer (page (run (fun _ => "")
    [Typed "hi"; SendClicked; SocketBecomes OPEN; Typed " ok "; KeyPressed "Enter"]
    (fresh_app CONNECTING)))) = ["hi"; " ok "] /\
  [" ok "] `sublist_of` ["hi"; " ok "].
Proof.
  pose proof (transmitted_texts_have_bubbles (fun _ => "")
    [Typed "hi"; SendClicked; SocketBecomes OPEN; Typed " ok "; KeyPressed "Enter"]
    (fresh_app CONNECTING) (sublist_nil_l _)) as H.
  split; [reflexivity|]. split; [reflexivity|]. exact H.
Defined.

Lemma open_socket_transmits_every_bubble_witness :
  transmitted (ws (run (fun _ => "")
    [Typed "hi"; SendClicked; Typed " ok "; KeyPressed "a"; KeyPressed "Enter"]
    (fresh_app OPEN))) = ["hi"; " ok "].
Proof.
  destruct (open_socket_transmits_every_bubble (fun _ => "")
    [Typed "hi"; SendClicked; Typed " ok "; KeyPressed "a"; KeyPressed "Enter"]
    (fresh_app OPEN) eq_refl eq_refl eq_refl) as [H _].
  rewrite <- H. reflexivity.
Defined.

Lemma connecting_socket_repeats_bubble_witness :
  messagesContainer (page (run (fun _ => "") (repeat (KeyPressed "Enter") 3)
    (set_messageInput "hi" (fresh_app CONNECTING)))) =
    [bubble "hi"; bubble "hi"; bubble "hi"] /\
  transmitted (ws (run (fun _ => "") (repeat (KeyPressed "Enter") 3)
    (set_messageInput "hi" (fresh_app CONNECTING)))) = [].
Proof.
  destruct (connecting_socket_repeats_bubble (fun _ => "") 3
    (set_messageInput "hi" (fresh_app CONNECTING)) eq_refl ltac:(discriminate))
    as (_ & _ & Hw & Hl).
  split; [exact Hl|]. by rewrite Hw.
Defined.

End Session.

(** ** The time display and the progress bar *)

Module TimeDisplay.

Import JSNumber JSString AudioUtils Dom MessageComponent.
Local Open Scope string_scope.

(** [formatTime] of [n] whole seconds before zero: the minutes are
    rounded down, away from zero, and the seconds keep their sign and get
    no zero in front. *)
Definition before_zero (n : N) : string :=
  "-" ++ pretty ((n + 59) / 60)%N ++ ":" ++
  (if (n mod 60 =? 0)%N then "00" else "-" ++ pretty (n mod 60)%N).

Section Facts.

Variable ts : number -> string.

Definition agrees_before_zero (n : N) : bool :=
  (n =? 0)%N || String.eqb (formatTime ts (of_Z (- Z.of_N n))) (before_zero n).

Lemma before_zero_checked :
  Bounded.all_from (N.to_nat 3600) 0 agrees_before_zero = true.
Proof. vm_compute. reflexivity. Qed.

(** [formatTime] away from the clock. An infinite number of seconds, the
    duration of a stream, reads ["Infinity:NaN"]. A negative whole number
    of seconds down to minus one hour reads as a negative number of
    minutes, rounded down, and negative seconds that are not padded: -5
    gives ["-1:-5"], -60 gives ["-1:00"], -75 gives ["-2:-15"]. *)
Theorem formatTime_off_the_clock :
  formatTime ts Infinity = "Infinity:NaN" /\
  formatTime ts (S754_infinity true) = "-Infinity:NaN" /\
  (forall n : N, (0 < n < 3600)%N ->
     formatTime ts (of_Z (- Z.of_N n)) =
       "-" ++ pretty ((n + 59) / 60)%N ++ ":" ++
       (if (n mod 60 =? 0)%N then "00" else "-" ++ pretty (n mod 60)%N)) /\
  formatTime ts (of_Z (-5)) = "-1:-5" /\
  formatTime ts (of_Z (-60)) = "-1:00" /\
  formatTime ts (of_Z (-75)) = "-2:-15".
Proof.
  split; [reflexivity|]. split; [reflexivity|]. split.
  - intros n [Hpos Hn].
    pose proof (Bounded.all_below _ _ before_zero_checked n Hn) as H.
    unfold agrees_before_zero in H. apply orb_true_iff in H as [H|H].
    + apply N.eqb_eq in H. lia.
    + by apply String.eqb_eq in H.
  - repeat split; vm_compute; reflexivity.
Qed.

(** *** The progress bar *)

Lemma div_eucl_multiple (m : positive) (k : Z) :
  Z.div_eucl (Z.pos m * k) (Z.pos m) = (k, 0).
Proof.
  pose proof (Z.div_mul k (Z.pos m) ltac:(lia)) as Hd.
  pose proof (Z.mod_mul k (Z.pos m) ltac:(lia)) as Hm.
  rewrite Z.mul_comm. unfold Z.div, Z.modulo in Hd, Hm.
  destruct (Z.div_eucl (k * Z.pos m) (Z.pos m)) as [q r]. simpl in *. congruence.
Qed.

(** A finite number divided by itself is 1. *)
Lemma div_self (s : bool) (m : positive) (e : Z) :
  div (S754_finite s m e) (S754_finite s m e) = of_Z 1.
Proof.
  unfold div, SFdiv, SFdiv_core_binary.
  rewrite !Z.sub_diag.
  change (Z.min (fexp prec emax 0) 0) with (-53).
  change (0 - -53) with 53.
  rewrite Z.shiftl_mul_pow2 by lia.
  rewrite div_eucl_multiple.
  replace (xorb s s) with false by (by destruct s).
  assert (new_location (Z.pos m) 0 = loc_Exact) as ->.
  { unfold new_location. by destruct (Z.even (Z.pos m)). }
  vm_compute. reflexivity.
Qed.

(** The [timeupdate] listener at the edges. Before the duration is known
    (NaN) it writes the width ["NaN%"] and ["0:00"] for the duration.
    With an infinite duration it writes ["0%"] and ["Infinity:NaN"]. At
    position 0 of a clip with a known, non-zero length it writes ["0%"],
    and at the end of such a clip ["100%"]. A player as it is created
    shows what [_createTimeDisplay] wrote: ["0:00 / 0:00"]. *)
Theorem timeupdate_at_the_edges (x : Audio) :
  (isNaN (duration x) = true ->
     audio_timeupdate ts x = ("NaN%", formatTime ts (currentTime x) ++ " / 0:00")) /\
  (duration x = Infinity -> isFinite (currentTime x) = true ->
     audio_timeupdate ts x =
       ("0%", formatTime ts (currentTime x) ++ " / Infinity:NaN")) /\
  (forall m e, duration x = S754_finite false m e ->
     (currentTime x = of_Z 0 -> fst (audio_timeupdate ts x) = "0%") /\
     (currentTime x = duration x -> fst (audio_timeupdate ts x) = "100%")) /\
  (currentTime x = of_Z 0 -> isNaN (duration x) = true ->
     snd (audio_timeupdate ts x) = _createTimeDisplay).
Proof.
  unfold audio_timeupdate. split; [|split; [|split]].
  - destruct (duration x); try discriminate. intros _.
    replace (div (currentTime x) S754_nan) with NaN by (by destruct (currentTime x)).
    reflexivity.
  - intros -> Hf. unfold Infinity.
    destruct (currentTime x) as [s|s| |s m e]; try discriminate Hf;
      by destruct s.
  - intros m e Hd. rewrite Hd. split.
    + intros ->. reflexivity.
    + intros ->. rewrite div_self. reflexivity.
  - intros -> Hd. destruct (duration x); try discriminate. reflexivity.
Qed.

End Facts.

Lemma timeupdate_at_the_edges_witness :
  audio_timeupdate (fun _ => "")
    {| src := ""; paused := true; currentTime := of_Z 75; duration := NaN |} =
    ("NaN%", "1:15 / 0:00") /\
  audio_timeupdate (fun _ => "")
    {| src := ""; paused := false; currentTime := of_Z 75; duration := Infinity |} =
    ("0%", "1:15 / Infinity:NaN") /\
  fst (audio_timeupdate (fun _ => "")
    {| src := ""; paused := false; currentTime := decimal 1255 1;
       duration := decimal 1255 1 |}) = "100%".
Proof.
  split; [|split].
  - apply (proj1 (timeupdate_at_the_edges (fun _ => "")
      {| src := ""; paused := true; currentTime := of_Z 75; duration := NaN |})).
    reflexivity.
  - apply (proj1 (proj2 (timeupdate_at_the_edges (fun _ => "")
      {| src := ""; paused := false; currentTime := of_Z 75; duration := Infinity |})));
      reflexivity.
  - refine (proj2 (proj1 (proj2 (proj2 (timeupdate_at_the_edges (fun _ => "")
      {| src := ""; paused := false; currentTime := decimal 1255 1;
         duration := decimal 1255 1 |}))) _ _ _) _); vm_compute; reflexivity.
Defined.

End TimeDisplay.

(** ** The body of an error card *)

Module ErrorCardBody.

Import JSNumber JSString JSStringFacts Dom Frame HandlerFacts.
Import MessageComponent WebSocketHandler Dispatcher.
Local Open Scope string_scope.
Local Arguments String.append !_ _ / : simpl nomatch.

(** Only white space. *)
Fixpoint blank_text (s : string) : bool :=
  match s with
  | EmptyString => true
  | String c s' => isWhiteSpace c && blank_text s'
  end.

(** The first and the last character of a text. *)
Definition first_char (s : string) : option ascii :=
  match s with
  | EmptyString => None
  | String c _ => Some c
  end.

Fixpoint last_char (s : string) : option ascii :=
  match s with
  | EmptyString => None
  | String c EmptyString => Some c
  | String _ s' => last_char s'
  end.

(** A text that neither begins nor ends with white space. *)
Definition trimmed (s : string) : Prop :=
  (forall c, first_char s = Some c -> isWhiteSpace c = false) /\
  (forall c, last_char s = Some c -> isWhiteSpace c = false).

Lemma trimStart_spec (s : string) :
  exists pre, s = pre ++ trimStart s /\ blank_text pre = true /\
              forall c, first_char (trimStart s) = Some c -> isWhiteSpace c = false.
Proof.
  induction s as [|c s (pre & Hs & Hpre & Hfirst)].
  - by exists "".
  - simpl. destruct (isWhiteSpace c) eqn:Hc.
    + exists (String c pre). simpl. rewrite Hc, Hpre. split; [congruence|done].
    + exists "". split; [done|]. split; [done|]. intros c' [= <-]. done.
Qed.

Lemma trimEnd_cons (c : ascii) (s : string) :
  trimEnd (String c s) =
    match trimEnd s with
    | EmptyString => if isWhiteSpace c then EmptyString else String c EmptyString
    | r => String c r
    end.
Proof. reflexivity. Qed.

Lemma trimEnd_spec (s : string) :
  exists post, s = trimEnd s ++ post /\ blank_text post = true /\
               (forall c, last_char (trimEnd s) = Some c -> isWhiteSpace c = false) /\
               (forall c, first_char (trimEnd s) = Some c -> first_char s = Some c).
Proof.
  induction s as [|c s (post & Hs & Hpost & Hlast & Hfirst)].
  - by exists "".
  - rewrite trimEnd_cons. destruct (trimEnd s) as [|d r] eqn:Hr.
    + destruct (isWhiteSpace c) eqn:Hc.
      * exists (String c post). simpl in *. rewrite Hc, Hpost. split; [congruence|done].
      * exists post. simpl in *. split; [congruence|]. split; [done|].
        split; [|done]. by intros c' [= <-].
    + exists post. split; [simpl in *; congruence|]. split; [done|]. split; [|done].
      intros c'. exact (Hlast c').
Qed.

(** [trim] takes white space off both ends and nothing else. *)
Lemma trim_spec (s : string) :
  exists pre post,
    s = pre ++ trim s ++ post /\ blank_text pre = true /\ blank_text post = true /\
    trimmed (trim s).
Proof.
  unfold trim.
  destruct (trimStart_spec s) as (pre & Hs & Hpre & Hfirst).
  destruct (trimEnd_spec (trimStart s)) as (post & Ht & Hpost & Hlast & Hkeep).
  exists pre, post. split; [by rewrite <- Ht|]. split; [done|]. split; [done|].
  split; [|done]. intros c Hc. apply Hfirst. by apply Hkeep.
Qed.

Section Facts.

Variable ts : number -> string.

(** The card of an error frame shows the message from its eighth
    character on, without the white space at its two ends: the body
    neither begins nor ends with white space, and only white space lies
    between the seventh character and the body and after the body. The
    title is the classifier's for that body. So after ["Error: "] the
    rest of the message is shown trimmed. *)
Theorem error_card_body_is_trimmed (data : InboundFrame) (m : string) (p : Page) :
  message data = Some m ->
  startsWith m "Error:" = true ->
  exists body pre post,
    messagesContainer (settle (handleWebSocketMessage ts data) p) =
      (messagesContainer p ++ [ErrorCard (classify body) body])%list /\
    substring 7 m = pre ++ body ++ post /\
    blank_text pre = true /\ blank_text post = true /\
    trimmed body /\
    (forall rest, m = "Error: " ++ rest -> rest = pre ++ body ++ post).
Proof.
  intros Hm He.
  destruct (trim_spec (substring 7 m)) as (pre & post & Hs & Hpre & Hpost & Htrim).
  exists (trim (substring 7 m)), pre, post.
  split.
  { unfold settle. rewrite (error_frame_run ts data m p Hm He). simpl.
    by rewrite cost_step_container. }
  split; [exact Hs|]. split; [done|]. split; [done|]. split; [done|].
  intros rest ->. exact Hs.
Qed.

End Facts.

Lemma error_card_body_is_trimmed_witness :
  exists body pre post,
    messagesContainer
      (settle (handleWebSocketMessage (fun _ => "")
         {| message := Some "Error:   budget exceeded today  "; cost_info := None;
            agent_flow := None; base64_image := None; base64_audio := None;
            research_result := None |}) blank) =
      [ErrorCard (classify body) body] /\
    "  budget exceeded today  " = pre ++ body ++ post /\
    trimmed body.
Proof.
  destruct (error_card_body_is_trimmed (fun _ => "")
    {| message := Some "Error:   budget exceeded today  "; cost_info := None;
       agent_flow := None; base64_image := None; base64_audio := None;
       research_result := None |} "Error:   budget exceeded today  " blank
    eq_refl eq_refl) as (body & pre & post & Hl & Hs & _ & _ & Ht & _).
  exists body, pre, post. split; [exact Hl|]. split; [exact Hs|exact Ht].
Defined.

End ErrorCardBody.

(** ** Rounding, with the place of the exact value *)

Module Rounding.

Import JSNumber JSNumberFacts.

(** Where [N / D] lies between the integers [N / D] and [N / D + 1]. *)
Definition place (N D : Z) : location :=
  if N mod D =? 0 then loc_Exact else loc_Inexact (2 * (N mod D) ?= D).

(** The record holds the integer part of [N / D] and the place of
    [N / D]. *)
Definition holds (mrs : shr_record) (N D : Z) : Prop :=
  shr_m mrs = N / D /\ loc_of_shr_record mrs = place N D.

Lemma loc_of_record_of_loc (m : Z) (l : location) :
  loc_of_shr_record (shr_record_of_loc m l) = l.
Proof. by destruct l as [|[]]. Qed.

Lemma shr_m_record_of_loc (m : Z) (l : location) :
  shr_m (shr_record_of_loc m l) = m.
Proof. by destruct l as [|[]]. Qed.

Lemma holds_record_of_loc (N D : Z) :
  holds (shr_record_of_loc (N / D) (place N D)) N D.
Proof. split; [apply shr_m_record_of_loc|apply loc_of_record_of_loc]. Qed.

Lemma place_exact_iff (N D : Z) : place N D = loc_Exact <-> N mod D = 0.
Proof.
  unfold place. destruct (N mod D =? 0) eqn:H.
  - apply Z.eqb_eq in H. by split.
  - apply Z.eqb_neq in H. by split.
Qed.

Lemma shr_1_holds (mrs : shr_record) (N D : Z) :
  0 <= N -> 0 < D -> holds mrs N D -> holds (shr_1 mrs) N (2 * D).
Proof.
  intros HN HD [Hm Hl].
  assert (0 <= shr_m mrs) as Hnn by (rewrite Hm; apply Z.div_pos; lia).
  destruct (shr_1_spec mrs Hnn) as (Hm' & Hr' & Hs').
  assert (N / (2 * D) = shr_m mrs / 2) as Hq.
  { rewrite Hm, Z.div_div by lia. f_equal. lia. }
  assert (N mod (2 * D) = N mod D + D * (shr_m mrs mod 2)) as Hrem.
  { rewrite Hm, (Z.mul_comm 2 D). apply Z.rem_mul_r; lia. }
  pose proof (Z.mod_pos_bound N D HD) as Hb.
  pose proof (Zmod_odd (shr_m mrs)) as Hodd.
  assert (shr_r mrs || shr_s mrs = false <-> N mod D = 0) as Hex.
  { rewrite <- place_exact_iff, <- Hl. destruct mrs as [m [] []]; simpl; split; done. }
  split; [by rewrite Hm', Hq|].
  destruct (shr_1 mrs) as [m' r' s']. simpl in Hm', Hr', Hs'. subst m' r' s'.
  unfold place. rewrite Hrem.
  destruct (Z.odd (shr_m mrs)); rewrite Hodd;
    destruct (shr_r mrs || shr_s mrs) eqn:Hrs; simpl.
  - assert (N mod D <> 0) as Hne by (intros H0; apply Hex in H0; congruence).
    replace (N mod D + D * 1 =? 0) with false by (symmetry; apply Z.eqb_neq; lia).
    f_equal. symmetry. apply Z.compare_gt_iff. lia.
  - assert (N mod D = 0) as H0 by (by apply Hex).
    replace (N mod D + D * 1 =? 0) with false by (symmetry; apply Z.eqb_neq; lia).
    f_equal. symmetry. apply Z.compare_eq_iff. lia.
  - assert (N mod D <> 0) as Hne by (intros H0; apply Hex in H0; congruence).
    replace (N mod D + D * 0 =? 0) with false by (symmetry; apply Z.eqb_neq; lia).
    f_equal. symmetry. apply Z.compare_lt_iff. lia.
  - assert (N mod D = 0) as H0 by (by apply Hex).
    replace (N mod D + D * 0 =? 0) with true by (symmetry; apply Z.eqb_eq; lia).
    reflexivity.
Qed.

Lemma shr_iter_holds (n : nat) (mrs : shr_record) (N D : Z) :
  0 <= N -> 0 < D -> holds mrs N D ->
  holds (Nat.iter n shr_1 mrs) N (D * 2 ^ Z.of_nat n).
Proof.
  intros HN HD H. induction n as [|n IH].
  - simpl. by rewrite Z.mul_1_r.
  - cbn [Nat.iter]. rewrite Nat2Z.inj_succ, Z.pow_succ_r by lia.
    replace (D * (2 * 2 ^ Z.of_nat n)) with (2 * (D * 2 ^ Z.of_nat n)) by lia.
    apply shr_1_holds; [done| |done].
    pose proof (pow2_pos (Z.of_nat n) ltac:(lia)). nia.
Qed.

(** The first shift of [binary_round_aux]. *)
Lemma shr_fexp_holds (N D E : Z) :
  0 <= N -> 0 < D ->
  exists mrs e1,
    shr_fexp prec emax (N / D) E (place N D) = (mrs, e1) /\
    e1 = Z.max E (fexp prec emax (Zdigits2 (N / D) + E)) /\
    holds mrs N (D * 2 ^ (e1 - E)).
Proof.
  intros HN HD. unfold shr_fexp, shr.
  pose proof (holds_record_of_loc N D) as H0.
  destruct (fexp prec emax (Zdigits2 (N / D) + E) - E) as [|p|p] eqn:Hn.
  - eexists _, E. split; [reflexivity|]. split; [lia|].
    replace (E - E) with 0 by lia. by rewrite Z.mul_1_r.
  - eexists _, (E + Z.pos p). split; [reflexivity|]. split; [lia|].
    replace (E + Z.pos p - E) with (Z.pos p) by lia.
    rewrite iter_pos_nat, <- (positive_nat_Z p). by apply shr_iter_holds.
  - eexists _, E. split; [reflexivity|]. split; [lia|].
    replace (E - E) with 0 by lia. by rewrite Z.mul_1_r.
Qed.

(** Rounding to nearest, ties to even: up only from the upper half, down
    only from the lower half. *)
Lemma round_cases (N D : Z) :
  0 < D ->
  (round_nearest_even (N / D) (place N D) = N / D /\ 2 * (N mod D) <= D) \/
  (round_nearest_even (N / D) (place N D) = N / D + 1 /\ D <= 2 * (N mod D)).
Proof.
  intros HD. pose proof (Z.mod_pos_bound N D HD) as Hb. unfold place.
  destruct (N mod D =? 0) eqn:H0.
  - apply Z.eqb_eq in H0. left. simpl. lia.
  - destruct (Z.compare_spec (2 * (N mod D)) D) as [Heq|Hlt|Hgt]; simpl.
    + destruct (Z.even (N / D)); [left|right]; lia.
    + left. lia.
    + right. lia.
Qed.

Lemma round_cases_holds (mrs : shr_record) (N D : Z) :
  0 < D -> holds mrs N D ->
  (round_nearest_even (shr_m mrs) (loc_of_shr_record mrs) = N / D /\
   2 * (N mod D) <= D) \/
  (round_nearest_even (shr_m mrs) (loc_of_shr_record mrs) = N / D + 1 /\
   D <= 2 * (N mod D)).
Proof. intros HD [-> ->]. by apply round_cases. Qed.

(** *** The second shift *)

(** A mantissa that fits the exponent: 53 bits, or fewer at the smallest
    exponent. *)
Lemma fexp_fits (M e : Z) :
  0 < M < 2 ^ 53 -> 2 ^ 52 <= M \/ e = -1074 -> -1074 <= e ->
  fexp prec emax (Zdigits2 M + e) = e.
Proof.
  intros HM Hc He. destruct M as [|p|p]; try lia. simpl Zdigits2.
  pose proof (digits2_le p 53 ltac:(lia)) as Hle.
  destruct (digits2_bounds p) as [_ Hup].
  unfold fexp, SpecFloat.emin, prec, emax.
  destruct Hc as [Hc| ->]; [|lia].
  assert (52 < Z.pos (digits2_pos p)) as Hd.
  { apply (Z.pow_lt_mono_r_iff 2); lia. }
  lia.
Qed.

(** The number [binary_round_aux] makes of a rounded mantissa. *)
Definition finish (sx : bool) (M1 e1 : Z) : number :=
  match M1 with
  | Z0 => S754_zero sx
  | Z.pos m =>
      if M1 =? 2 ^ 53
      then if e1 + 1 <=? 971 then S754_finite sx (2 ^ 52)%positive (e1 + 1)
           else S754_infinity sx
      else if e1 <=? 971 then S754_finite sx m e1 else S754_infinity sx
  | Z.neg _ => S754_nan
  end.

Lemma second_shift (sx : bool) (M1 e1 : Z) :
  0 <= M1 <= 2 ^ 53 -> 2 ^ 52 <= M1 \/ e1 = -1074 -> -1074 <= e1 ->
  (let '(mrs, e2) := shr_fexp prec emax M1 e1 loc_Exact in
   match shr_m mrs with
   | Z0 => S754_zero sx
   | Z.pos m => if e2 <=? emax - prec then S754_finite sx m e2 else S754_infinity sx
   | Z.neg _ => S754_nan
   end) = finish sx M1 e1.
Proof.
  intros HM Hc He.
  destruct (Z.eq_dec M1 0) as [->|Hne0].
  { destruct (shr_fexp_exact 0 e1) as (mrs & e & -> & _ & Hm & _); [lia|].
    rewrite Hm, Zdiv_0_l. reflexivity. }
  destruct (Z.eq_dec M1 (2 ^ 53)) as [->|Hne].
  { unfold shr_fexp, shr. change (Zdigits2 (2 ^ 53)) with 54.
    assert (fexp prec emax (54 + e1) - e1 = 1) as ->.
    { unfold fexp, SpecFloat.emin, prec, emax. lia. }
    cbn [SpecFloat.iter_pos shr_record_of_loc shr_1]. change (2 ^ 53) with 9007199254740992.
    cbn [shr_1 shr_m finish]. unfold emax, prec.
    change (9007199254740992 =? 9007199254740992) with true.
    replace (e1 + 1 <=? 1024 - 53) with (e1 + 1 <=? 971) by reflexivity.
    reflexivity. }
  unfold shr_fexp, shr.
  rewrite (fexp_fits M1 e1) by lia. rewrite Z.sub_diag.
  cbn [shr_record_of_loc shr_m]. unfold finish.
  destruct M1 as [|m|m]; try lia.
  replace (Z.pos m =? 2 ^ 53) with false by (symmetry; apply Z.eqb_neq; lia).
  reflexivity.
Qed.

(** *** The whole of [binary_round_aux] *)

(** When the exponent is not above the one the number gets, the result
    is the nearest multiple of [2 ^ e1] of the exact value [N / D * 2 ^ E],
    with [e1] the exponent of the format for that value. *)
Lemma round_spec (sx : bool) (N D E : Z) :
  0 <= N -> 0 < D ->
  E <= fexp prec emax (Zdigits2 (N / D) + E) ->
  exists M1 : Z,
    ((M1 = N / (D * 2 ^ (fexp prec emax (Zdigits2 (N / D) + E) - E)) /\
      2 * (N mod (D * 2 ^ (fexp prec emax (Zdigits2 (N / D) + E) - E))) <=
        D * 2 ^ (fexp prec emax (Zdigits2 (N / D) + E) - E)) \/
     (M1 = N / (D * 2 ^ (fexp prec emax (Zdigits2 (N / D) + E) - E)) + 1 /\
      D * 2 ^ (fexp prec emax (Zdigits2 (N / D) + E) - E) <=
        2 * (N mod (D * 2 ^ (fexp prec emax (Zdigits2 (N / D) + E) - E))))) /\
    0 <= N / (D * 2 ^ (fexp prec emax (Zdigits2 (N / D) + E) - E)) < 2 ^ 53 /\
    (2 ^ 52 <= N / (D * 2 ^ (fexp prec emax (Zdigits2 (N / D) + E) - E)) \/
     fexp prec emax (Zdigits2 (N / D) + E) = -1074) /\
    binary_round_aux prec emax sx (N / D) E (place N D) =
      finish sx M1 (fexp prec emax (Zdigits2 (N / D) + E)).
Proof.
  intros HN HD HE.
  remember (N / D) as M eqn:HMdef.
  remember (fexp prec emax (Zdigits2 M + E)) as e1 eqn:He1def.
  assert (0 <= M) as HM by (subst M; apply Z.div_pos; lia).
  assert (-1074 <= e1) as He1 by (subst e1; unfold fexp, SpecFloat.emin, prec, emax; lia).
  pose proof (pow2_pos (e1 - E) ltac:(lia)) as Hpow.
  remember (D * 2 ^ (e1 - E)) as D1 eqn:HD1def.
  assert (0 < D1) as HD1 by (subst D1; nia).
  assert (N / D1 = M / 2 ^ (e1 - E)) as Hm1.
  { subst D1 M. by rewrite Z.div_div by lia. }
  assert (0 <= N / D1 < 2 ^ 53 /\ (2 ^ 52 <= N / D1 \/ e1 = -1074)) as [Hrange Hnorm].
  { rewrite Hm1. clear Hm1 HD1def HMdef. destruct M as [|p|p]; try lia.
    - rewrite Zdiv_0_l. split; [lia|]. right.
      simpl Zdigits2 in He1def.
      unfold fexp, SpecFloat.emin, prec, emax in *. lia.
    - destruct (digits2_bounds p) as [Hlo Hup].
      simpl Zdigits2 in He1def. remember (Z.pos (digits2_pos p)) as d eqn:Hd.
      rewrite <- ?Hd in Hlo, Hup.
      assert (e1 = Z.max (d + E - 53) (-1074)) as He1eq by (subst e1; reflexivity).
      assert (0 < d) as Hdpos by lia.
      assert (2 ^ d <= 2 ^ 53 * 2 ^ (e1 - E)) as Hup'.
      { rewrite <- Z.pow_add_r by lia. apply Z.pow_le_mono_r; lia. }
      split; [split|].
      + apply Z.div_pos; lia.
      + apply Z.div_lt_upper_bound; lia.
      + destruct (Z.eq_dec e1 (-1074)) as [|Hne]; [by right|left].
        assert (e1 - E = d - 53) as Hn by lia.
        apply Z.div_le_lower_bound; [lia|].
        rewrite Hn, <- Z.pow_add_r by lia.
        replace (d - 53 + 52) with (d - 1) by lia. lia. }
  destruct (shr_fexp_holds N D E HN HD) as (mrs & e1' & Hshr & He1' & Hholds).
  rewrite <- HMdef in Hshr, He1'. rewrite <- He1def in He1'.
  assert (e1' = e1) as -> by lia. rewrite <- HD1def in Hholds.
  exists (round_nearest_even (shr_m mrs) (loc_of_shr_record mrs)).
  split; [by apply round_cases_holds|]. split; [done|]. split; [done|].
  unfold binary_round_aux. rewrite Hshr.
  destruct (round_cases_holds mrs N D1 HD1 Hholds) as [[HM1 _]|[HM1 _]];
    apply second_shift; rewrite ?HM1; lia.
Qed.

End Rounding.

(** ** Order and products of numbers in their exact values *)

Module Exact.

Import JSNumber JSNumberFacts Rounding.

(** A valid finite number has a mantissa of 53 bits, or it has the
    smallest exponent. *)
Lemma valid_shape (s : bool) (m : positive) (e : Z) :
  valid_binary prec emax (S754_finite s m e) = true ->
  0 < Z.pos m < 2 ^ 53 /\ (2 ^ 52 <= Z.pos m \/ e = -1074) /\ -1074 <= e <= 971.
Proof.
  intros Hv. destruct (valid_finite_bounds s m e Hv) as [Hm He].
  split; [lia|].
  assert (-1074 <= e) as Hlo.
  { unfold valid_binary, bounded, canonical_mantissa, fexp, SpecFloat.emin, prec, emax in Hv.
    apply andb_true_iff in Hv as [Hc _]. apply Z.eqb_eq in Hc. lia. }
  split; [|lia].
  destruct (Z.eq_dec e (-1074)) as [|Hne]; [by right|left].
  apply (valid_normal_mantissa s m e Hv). lia.
Qed.

Lemma shape_valid (s : bool) (m : positive) (e : Z) :
  Z.pos m < 2 ^ 53 -> 2 ^ 52 <= Z.pos m \/ e = -1074 -> -1074 <= e <= 971 ->
  valid_binary prec emax (S754_finite s m e) = true.
Proof.
  intros Hm Hc He. unfold valid_binary, bounded, canonical_mantissa.
  apply andb_true_iff. split.
  - apply Z.eqb_eq. change (Z.pos (digits2_pos m)) with (Zdigits2 (Z.pos m)).
    apply fexp_fits; lia.
  - apply Z.leb_le. unfold emax, prec. lia.
Qed.

Lemma finish_valid (sx : bool) (M1 e1 : Z) :
  0 <= M1 <= 2 ^ 53 -> 2 ^ 52 <= M1 \/ e1 = -1074 -> -1074 <= e1 ->
  valid_binary prec emax (finish sx M1 e1) = true.
Proof.
  intros HM Hc He. unfold finish. destruct M1 as [|m|m]; try done.
  destruct (Z.pos m =? 2 ^ 53) eqn:H53.
  - destruct (e1 + 1 <=? 971) eqn:Hle; [|done]. apply Z.leb_le in Hle.
    apply shape_valid; [reflexivity|left; reflexivity|lia].
  - apply Z.eqb_neq in H53. destruct (e1 <=? 971) eqn:Hle; [|done].
    apply Z.leb_le in Hle. apply shape_valid; lia.
Qed.

(** Powers of two, split at an exponent in between. *)
Lemma pow2_split (a b : Z) : 0 <= b <= a -> 2 ^ a = 2 ^ (a - b) * 2 ^ b.
Proof. intros H. rewrite <- Z.pow_add_r by lia. f_equal. lia. Qed.

(** A mantissa at a lower exponent stays below a normal mantissa at a
    higher one. *)
Lemma scaled_below (a b X P : Z) :
  a < 2 ^ 53 -> 2 ^ 52 <= b -> 2 <= X -> 0 < P ->
  a * P < b * (X * P).
Proof.
  intros Ha Hb HX HP.
  apply Z.lt_le_trans with (2 ^ 53 * P); [nia|].
  apply Z.le_trans with (2 ^ 52 * (X * P)); [nia|].
  apply Z.mul_le_mono_nonneg_r; nia.
Qed.

(** The order of two valid numbers that are not negative is the order of
    their exact values. *)
Lemma leb_exact (m1 m2 : positive) (e1 e2 c : Z) :
  valid_binary prec emax (S754_finite false m1 e1) = true ->
  valid_binary prec emax (S754_finite false m2 e2) = true ->
  c <= e1 -> c <= e2 ->
  (SFleb (S754_finite false m1 e1) (S754_finite false m2 e2) = true <->
   Z.pos m1 * 2 ^ (e1 - c) <= Z.pos m2 * 2 ^ (e2 - c)).
Proof.
  intros Hv1 Hv2 Hc1 Hc2.
  destruct (valid_shape _ _ _ Hv1) as (Hm1 & Hn1 & He1).
  destruct (valid_shape _ _ _ Hv2) as (Hm2 & Hn2 & He2).
  pose proof (pow2_pos (e1 - c) ltac:(lia)) as Hp1.
  pose proof (pow2_pos (e2 - c) ltac:(lia)) as Hp2.
  unfold SFleb, SFcompare.
  change (Pos.compare_cont Eq m1 m2) with (m1 ?= m2)%positive.
  destruct (Z.compare_spec e1 e2) as [->|Hlt|Hgt].
  - destruct (Pos.compare_spec m1 m2) as [->|Hl|Hg].
    + split; [lia|done].
    + apply Pos2Z.pos_lt_pos in Hl. split; [nia|done].
    + apply Pos2Z.pos_lt_pos in Hg. split; [done|]. intros H. nia.
  - split; [intros _|done]. apply Z.lt_le_incl.
    rewrite (pow2_split (e2 - c) (e1 - c)) by lia.
    pose proof (pow2_pos (e2 - c - (e1 - c)) ltac:(lia)) as Hp.
    assert (2 <= 2 ^ (e2 - c - (e1 - c))) as H2.
    { change 2 with (2 ^ 1) at 1. apply Z.pow_le_mono_r; lia. }
    assert (2 ^ 52 <= Z.pos m2) as Hn by lia.
    apply (scaled_below (Z.pos m1) (Z.pos m2)); lia.
  - split; [done|]. intros H. exfalso.
    rewrite (pow2_split (e1 - c) (e2 - c)) in H by lia.
    pose proof (pow2_pos (e1 - c - (e2 - c)) ltac:(lia)) as Hp.
    assert (2 <= 2 ^ (e1 - c - (e2 - c))) as H2.
    { change 2 with (2 ^ 1) at 1. apply Z.pow_le_mono_r; lia. }
    assert (2 ^ 52 <= Z.pos m1) as Hn by lia.
    pose proof (scaled_below (Z.pos m2) (Z.pos m1) _ (2 ^ (e2 - c))
                  ltac:(lia) ltac:(lia) H2 ltac:(lia)) as Hs.
    lia.
Qed.

(** [finish] against a valid number, by exact values. *)
Lemma finish_leb (M1 e1 : Z) (m : positive) (e c : Z) :
  0 <= M1 <= 2 ^ 53 -> 2 ^ 52 <= M1 \/ e1 = -1074 -> -1074 <= e1 ->
  valid_binary prec emax (S754_finite false m e) = true ->
  c <= e1 -> c <= e ->
  M1 * 2 ^ (e1 - c) <= Z.pos m * 2 ^ (e - c) ->
  SFleb (finish false M1 e1) (S754_finite false m e) = true.
Proof.
  intros HM Hc He1 Hv Hc1 Hc2 Hle.
  destruct (valid_shape _ _ _ Hv) as (Hm & Hn & He).
  pose proof (pow2_pos (e - c) ltac:(lia)) as Hp.
  pose proof (pow2_pos (e1 - c) ltac:(lia)) as Hp1.
  assert (e1 <= 971 \/ M1 = 0) as Hsmall.
  { destruct (Z.eq_dec M1 0) as [|Hne]; [by right|left].
    destruct (Z.le_gt_cases e1 971) as [|Hgt]; [done|exfalso].
    assert (2 ^ (e - c) * 2 <= 2 ^ (e1 - c)) as Hpp.
    { rewrite (pow2_split (e1 - c) (e - c)) by lia.
      assert (2 <= 2 ^ (e1 - c - (e - c))).
      { change 2 with (2 ^ 1) at 1. apply Z.pow_le_mono_r; lia. }
      nia. }
    assert (2 ^ 52 <= M1) by lia. nia. }
  pose proof (finish_valid false M1 e1 HM Hc He1) as Hvf.
  unfold finish in *. destruct M1 as [|q|q]; [done| |lia].
  destruct (Z.pos q =? 2 ^ 53) eqn:H53.
  - apply Z.eqb_eq in H53.
    assert (e1 + 1 <= e) as Hee.
    { destruct (Z.le_gt_cases (e1 + 1) e) as [|Hgt]; [done|exfalso].
      assert (2 ^ (e - c) <= 2 ^ (e1 - c)) by (apply Z.pow_le_mono_r; lia). nia. }
    assert ((e1 + 1 <=? 971) = true) as Hle1 by (apply Z.leb_le; lia).
    rewrite Hle1 in *.
    apply (leb_exact _ _ _ _ c Hvf Hv); [lia|lia|].
    rewrite (pow2_split (e1 + 1 - c) (e1 - c)) by lia.
    replace (e1 + 1 - c - (e1 - c)) with 1 by lia.
    change (Z.pos (2 ^ 52)) with (2 ^ 52). rewrite H53 in Hle. lia.
  - assert ((e1 <=? 971) = true) as Hle1 by (apply Z.leb_le; lia).
    rewrite Hle1 in *. by apply (leb_exact _ _ _ _ c Hvf Hv).
Qed.

Lemma finish_nonnegative (M1 e1 : Z) :
  0 <= M1 -> SFleb (of_Z 0) (finish false M1 e1) = true.
Proof.
  intros HM. unfold finish. destruct M1 as [|q|q]; [done| |lia].
  destruct (Z.pos q =? 2 ^ 53); [destruct (e1 + 1 <=? 971)|destruct (e1 <=? 971)]; done.
Qed.

(** *** A product with a number of the unit interval *)

(** The product of two valid numbers is rounded at the exponent of the
    format. *)
Lemma mul_exponent (mp md : positive) (ep ed : Z) :
  valid_binary prec emax (S754_finite false mp ep) = true ->
  valid_binary prec emax (S754_finite false md ed) = true ->
  ep + ed <= fexp prec emax (Zdigits2 (Z.pos (mp * md)) + (ep + ed)).
Proof.
  intros Hvp Hvd.
  destruct (valid_shape _ _ _ Hvp) as (Hmp & Hnp & Hep).
  destruct (valid_shape _ _ _ Hvd) as (Hmd & Hnd & Hed).
  simpl Zdigits2. destruct (digits2_bounds (mp * md)) as [_ Hup].
  rewrite Pos2Z.inj_mul in Hup.
  unfold fexp, SpecFloat.emin, prec, emax.
  destruct (Z.le_gt_cases (ep + ed) (-1074)) as [|Hgt]; [lia|].
  assert (2 ^ 52 <= Z.pos mp * Z.pos md) as Hbig by nia.
  assert (52 < Z.pos (digits2_pos (mp * md))) as Hd.
  { apply (Z.pow_lt_mono_r_iff 2); lia. }
  lia.
Qed.

(** A number of [0, 1] times a number that is not negative: the product
    lies between 0 and that number. *)
Lemma mul_unit_bounds (pos d : number) :
  valid_binary prec emax pos = true ->
  valid_binary prec emax d = true ->
  in_unit_interval pos = true ->
  isFinite d = true -> SFleb (of_Z 0) d = true ->
  SFleb (of_Z 0) (mul pos d) = true /\ SFleb (mul pos d) d = true /\
  valid_binary prec emax (mul pos d) = true.
Proof.
  intros Hvp Hvd Hu Hfd H0d.
  destruct d as [sd|sd| |sd md ed]; try discriminate Hfd.
  { destruct pos as [sp|[]| |sp mp ep]; try discriminate Hu; by destruct sp, sd. }
  destruct sd; [discriminate H0d|].
  destruct pos as [sp|[]| |sp mp ep]; try discriminate Hu.
  { by destruct sp. }
  destruct sp; [discriminate Hu|].
  { destruct (unit_interval_bounds false mp ep Hvp Hu) as [Hep Hmp].
    destruct (valid_shape _ _ _ Hvp) as (Hmp' & Hnp & Hep').
    destruct (valid_shape _ _ _ Hvd) as (Hmd & Hnd & Hed).
    unfold mul, SFmul. cbn [xorb].
    pose proof (mul_exponent mp md ep ed Hvp Hvd) as HE.
    pose proof (round_spec false (Z.pos (mp * md)) 1 (ep + ed) ltac:(lia) ltac:(lia)) as Hr.
    rewrite Z.div_1_r in Hr. specialize (Hr HE).
    assert (place (Z.pos (mp * md)) 1 = loc_Exact) as Hpl.
    { unfold place. by rewrite Z.mod_1_r. }
    rewrite Hpl in Hr.
    remember (fexp prec emax (Zdigits2 (Z.pos (mp * md)) + (ep + ed))) as e1 eqn:He1.
    assert (-1074 <= e1) as He1lo by (subst e1; unfold fexp, SpecFloat.emin, prec, emax; lia).
    destruct Hr as (M1 & Hcases & Hrange & Hnorm & ->).
    rewrite Z.mul_1_l in Hcases, Hrange, Hnorm.
    pose proof (pow2_pos (e1 - (ep + ed)) ltac:(lia)) as Hpow.
    pose proof (pow2_pos (- ep) ltac:(lia)) as Hpp.
    rewrite Pos2Z.inj_mul in *.
    set (N := Z.pos mp * Z.pos md) in *.
    pose proof (Z.mod_pos_bound N _ Hpow) as Hmod.
    pose proof (Z.div_mod N (2 ^ (e1 - (ep + ed))) ltac:(lia)) as Hdm.
    (* the exponent of the product is not above the one of [d] *)
    assert (e1 <= ed) as Hle.
    { subst e1. simpl Zdigits2.
      assert (Z.pos (digits2_pos (mp * md)) <= 53 - ep) as Hdig.
      { apply digits2_le. rewrite Pos2Z.inj_mul. fold N.
        rewrite (pow2_split (53 - ep) 53) by lia.
        replace (53 - ep - 53) with (- ep) by lia.
        clear - Hmp Hmd Hmp' Hpp. subst N. nia. }
      unfold fexp, SpecFloat.emin, prec, emax. lia. }
    assert (0 <= M1 <= 2 ^ 53 /\ (2 ^ 52 <= M1 \/ e1 = -1074)) as [HM1 HM1n].
    { destruct Hcases as [[-> _]|[-> _]]; lia. }
    split; [by apply finish_nonnegative; lia|].
    split; [|by apply finish_valid].
    apply (finish_leb M1 e1 md ed (ep + ed)); try done; try lia.
    (* the value *)
    replace (ed - (ep + ed)) with (- ep) by lia.
    set (P := 2 ^ (e1 - (ep + ed))) in *.
    assert (2 ^ (- ep) = 2 ^ (ed - e1) * P) as Hsplit.
    { unfold P. rewrite <- Z.pow_add_r by lia. f_equal. lia. }
    pose proof (pow2_pos (ed - e1) ltac:(lia)) as Hq.
    assert (N <= Z.pos md * 2 ^ (- ep)) as HN.
    { clear - Hmp Hmd. subst N. rewrite (Z.mul_comm (Z.pos mp)).
      apply Z.mul_le_mono_nonneg_l; lia. }
    destruct Hcases as [[-> _]|[-> Hup]].
    + rewrite Hsplit in HN |- *.
      clear - HN Hdm Hmod Hpow Hq. fold P in Hdm, Hmod, Hpow.
      apply Z.mul_le_mono_pos_r with P; [lia|]. nia.
    + rewrite Hsplit in HN |- *.
      assert (N mod P <> 0) as Hne by lia.
      assert (N / P < Z.pos md * 2 ^ (ed - e1)) as Hlt.
      { apply Z.div_lt_upper_bound; [lia|].
        destruct (Z.eq_dec N (Z.pos md * (2 ^ (ed - e1) * P))) as [Heq|]; [|nia].
        exfalso. apply Hne. rewrite Heq.
        replace (Z.pos md * (2 ^ (ed - e1) * P)) with (Z.pos md * 2 ^ (ed - e1) * P) by lia.
        apply Z.mod_mul. lia. }
      clear - Hlt Hpow. fold P in Hpow. nia. }
Qed.

End Exact.

(** ** Quotients in their exact values *)

Module ExactDiv.

Import JSNumber JSNumberFacts Rounding Exact.

Lemma div_eucl_div_mod (a b : Z) : Z.div_eucl a b = (a / b, a mod b).
Proof. unfold Z.div, Z.modulo. by destruct (Z.div_eucl a b). Qed.

Lemma new_location_place (N D : Z) :
  0 < D -> new_location D (N mod D) = place N D.
Proof.
  intros HD. pose proof (Z.mod_pos_bound N D HD) as Hb.
  unfold new_location, new_location_even, new_location_odd, place.
  destruct (Z.even D) eqn:Hev; cbv beta;
    (destruct (N mod D =? 0) eqn:H0; [reflexivity|]); [reflexivity|].
  f_equal.
  assert (Z.odd D = true) as Hodd by (by rewrite <- Z.negb_even, Hev).
  pose proof (Zmod_odd D) as Hm. rewrite Hodd in Hm.
  destruct (Z.compare_spec (2 * (N mod D) + 1) D) as [Heq|Hlt|Hgt];
    symmetry; [apply Z.compare_lt_iff|apply Z.compare_lt_iff|apply Z.compare_gt_iff]; lia.
Qed.

(** The exponent [SFdiv] starts from. *)
Definition div_exponent (m1 m2 : positive) (e1 e2 : Z) : Z :=
  Z.min (fexp prec emax (Zdigits2 (Z.pos m1) + e1 - (Zdigits2 (Z.pos m2) + e2))) (e1 - e2).

(** The quotient [SFdiv] rounds: [N / D] with [D] the divisor's mantissa
    and [N] the dividend's, shifted. *)
Lemma div_core (m1 m2 : positive) (e1 e2 : Z) :
  SFdiv_core_binary prec emax (Z.pos m1) e1 (Z.pos m2) e2 =
    (Z.pos m1 * 2 ^ (e1 - e2 - div_exponent m1 m2 e1 e2) / Z.pos m2,
     div_exponent m1 m2 e1 e2,
     place (Z.pos m1 * 2 ^ (e1 - e2 - div_exponent m1 m2 e1 e2)) (Z.pos m2)).
Proof.
  unfold SFdiv_core_binary. fold (div_exponent m1 m2 e1 e2).
  remember (div_exponent m1 m2 e1 e2) as e' eqn:He'.
  assert (0 <= e1 - e2 - e') as Hs by (subst e'; unfold div_exponent; lia).
  assert ((match e1 - e2 - e' with
           | 0 => Z.pos m1
           | Z.pos _ => Z.shiftl (Z.pos m1) (e1 - e2 - e')
           | Z.neg _ => 0
           end) = Z.pos m1 * 2 ^ (e1 - e2 - e')) as ->.
  { destruct (e1 - e2 - e') as [|p|p] eqn:Hsp; [simpl; lia| |lia].
    by rewrite Z.shiftl_mul_pow2. }
  rewrite div_eucl_div_mod. by rewrite new_location_place.
Qed.

Lemma digits2_lower (p : positive) (k : Z) :
  2 ^ k <= Z.pos p -> k < Z.pos (digits2_pos p).
Proof.
  intros H. destruct (digits2_bounds p) as [_ Hup].
  destruct (Z.le_gt_cases 0 k) as [Hk|Hk]; [|lia].
  apply (Z.pow_lt_mono_r_iff 2); lia.
Qed.

(** The exponent [SFdiv] starts from is not above the one of the
    format. *)
Lemma div_exponent_low (m1 m2 : positive) (e1 e2 : Z) :
  div_exponent m1 m2 e1 e2 <=
    fexp prec emax
      (Zdigits2 (Z.pos m1 * 2 ^ (e1 - e2 - div_exponent m1 m2 e1 e2) / Z.pos m2) +
       div_exponent m1 m2 e1 e2).
Proof.
  remember (div_exponent m1 m2 e1 e2) as e' eqn:He'.
  destruct (Z.le_gt_cases e' (-1074)) as [|Hgt].
  { unfold fexp, SpecFloat.emin, prec, emax. lia. }
  assert (0 <= e1 - e2 - e') as Hs by (subst e'; unfold div_exponent; lia).
  destruct (digits2_bounds m1) as [Hlo1 _]. destruct (digits2_bounds m2) as [_ Hup2].
  remember (Z.pos (digits2_pos m1)) as d1. remember (Z.pos (digits2_pos m2)) as d2.
  assert (0 < d1 /\ 0 < d2) as [Hd1 Hd2] by lia.
  assert (53 <= d1 + (e1 - e2 - e') - d2) as Hwide.
  { subst e'. unfold div_exponent, fexp, SpecFloat.emin, prec, emax in *.
    simpl Zdigits2 in *. lia. }
  remember (e1 - e2 - e') as s.
  assert (2 ^ (d1 + s - d2 - 1) <= Z.pos m1 * 2 ^ s / Z.pos m2) as Hq.
  { apply Z.div_le_lower_bound; [lia|].
    apply Z.le_trans with (2 ^ d2 * 2 ^ (d1 + s - d2 - 1)).
    - apply Z.mul_le_mono_nonneg_r; [apply Z.pow_nonneg|]; lia.
    - rewrite <- Z.pow_add_r by lia.
      replace (d2 + (d1 + s - d2 - 1)) with (d1 - 1 + s) by lia.
      rewrite Z.pow_add_r by lia.
      apply Z.mul_le_mono_nonneg_r; [apply Z.pow_nonneg|]; lia. }
  pose proof (pow2_pos (d1 + s - d2 - 1) ltac:(lia)) as Hpos.
  destruct (Z.pos m1 * 2 ^ s / Z.pos m2) as [|q|q] eqn:Hqq; try lia.
  simpl Zdigits2. pose proof (digits2_lower q _ Hq) as Hdq.
  unfold fexp, SpecFloat.emin, prec, emax. lia.
Qed.

(** What [SFdiv] gives for two positive numbers. *)
Lemma div_finish (m1 m2 : positive) (e1 e2 : Z) :
  exists M1 : Z,
    let e' := div_exponent m1 m2 e1 e2 in
    let N := Z.pos m1 * 2 ^ (e1 - e2 - e') in
    let er := fexp prec emax (Zdigits2 (N / Z.pos m2) + e') in
    let D1 := Z.pos m2 * 2 ^ (er - e') in
    ((M1 = N / D1 /\ 2 * (N mod D1) <= D1) \/ (M1 = N / D1 + 1 /\ D1 <= 2 * (N mod D1))) /\
    0 <= N / D1 < 2 ^ 53 /\ (2 ^ 52 <= N / D1 \/ er = -1074) /\
    e' <= er /\ e' <= e1 - e2 /\
    div (S754_finite false m1 e1) (S754_finite false m2 e2) = finish false M1 er.
Proof.
  pose proof (div_exponent_low m1 m2 e1 e2) as Hlow.
  assert (div_exponent m1 m2 e1 e2 <= e1 - e2) as Hle by (unfold div_exponent; lia).
  destruct (round_spec false
              (Z.pos m1 * 2 ^ (e1 - e2 - div_exponent m1 m2 e1 e2)) (Z.pos m2)
              (div_exponent m1 m2 e1 e2)) as (M1 & Hc & Hr & Hn & Heq); [|lia|done|].
  { pose proof (pow2_pos (e1 - e2 - div_exponent m1 m2 e1 e2) ltac:(lia)). nia. }
  exists M1. cbv zeta. split; [exact Hc|]. split; [exact Hr|]. split; [exact Hn|].
  split; [exact Hlow|]. split; [exact Hle|].
  unfold div, SFdiv. rewrite div_core. exact Heq.
Qed.

(** A number divided by one that is not smaller is in [0, 1]. *)
Lemma div_unit (c d : number) :
  valid_binary prec emax c = true ->
  valid_binary prec emax d = true ->
  isFinite c = true -> SFleb (of_Z 0) c = true ->
  (exists m e, d = S754_finite false m e) ->
  SFleb c d = true ->
  valid_binary prec emax (div c d) = true /\ in_unit_interval (div c d) = true.
Proof.
  intros Hvc Hvd Hfc H0c (md & ed & ->) Hle.
  destruct c as [sc|sc| |sc mc ec]; try discriminate Hfc.
  { by destruct sc. }
  destruct sc; [discriminate H0c|].
  destruct (valid_shape _ _ _ Hvc) as (Hmc & Hnc & Hec).
  destruct (valid_shape _ _ _ Hvd) as (Hmd & Hnd & Hed).
  assert (ec <= ed) as Hee.
  { apply SFleb_finite in Hle. lia. }
  apply (leb_exact mc md ec ed ec Hvc Hvd ltac:(lia) Hee) in Hle.
  rewrite Z.sub_diag, Z.mul_1_r in Hle.
  destruct (div_finish mc md ec ed) as (M1 & H). cbv zeta in H.
  remember (div_exponent mc md ec ed) as e' eqn:He'.
  remember (Z.pos mc * 2 ^ (ec - ed - e')) as N eqn:HN.
  remember (fexp prec emax (Zdigits2 (N / Z.pos md) + e')) as er eqn:Her.
  remember (Z.pos md * 2 ^ (er - e')) as D1 eqn:HD1.
  destruct H as (Hcases & Hrange & Hnorm & Hlow & Hup & ->).
  assert (-1074 <= er) as Herlo.
  { clear - Her. subst er. unfold fexp, SpecFloat.emin, prec, emax. lia. }
  assert (-1074 <= er /\ e' <= er /\ e' <= ec - ed /\ ec <= ed) as Hexps by lia.
  pose proof (pow2_pos (ec - ed - e') ltac:(clear - Hexps; lia)) as Hps.
  pose proof (pow2_pos (ed - ec) ltac:(clear - Hexps; lia)) as Hpd.
  pose proof (pow2_pos (er - e') ltac:(clear - Hexps; lia)) as Hpw.
  pose proof (pow2_pos (- e') ltac:(clear - Hexps; lia)) as Hpe.
  (* the quotient is at most [2 ^ (- e')] *)
  assert (N <= Z.pos md * 2 ^ (- e')) as HNle.
  { subst N. rewrite (pow2_split (- e') (ec - ed - e')) by (clear - Hexps; lia).
    replace (- e' - (ec - ed - e')) with (ed - ec) by (clear; lia).
    rewrite Z.mul_assoc. apply Z.mul_le_mono_nonneg_r; [|exact Hle].
    clear - Hps. lia. }
  assert (N / Z.pos md <= 2 ^ (- e')) as Hq.
  { apply Z.div_le_upper_bound; [clear; lia|exact HNle]. }
  assert (0 <= N) as HN0.
  { subst N. apply Z.mul_nonneg_nonneg; [clear|clear - Hps]; lia. }
  assert (0 <= N / Z.pos md) as Hq0 by (apply Z.div_pos; [exact HN0|clear; lia]).
  assert (er <= -52) as Her52.
  { clear - Her Hq Hq0 Hpe Hexps.
    subst er. destruct (N / Z.pos md) as [|q|q] eqn:Hqq; try lia.
    - simpl Zdigits2. unfold fexp, SpecFloat.emin, prec, emax. lia.
    - simpl Zdigits2.
      assert (Z.pos (digits2_pos q) <= - e' + 1) as Hdq.
      { apply digits2_le. rewrite Z.pow_add_r by lia. lia. }
      unfold fexp, SpecFloat.emin, prec, emax. lia. }
  pose proof (pow2_pos (- er) ltac:(clear - Her52; lia)) as Hpr.
  assert (0 < D1) as HD1pos.
  { subst D1. apply Z.mul_pos_pos; [clear|clear - Hpw]; lia. }
  assert (Z.pos md * 2 ^ (- e') = D1 * 2 ^ (- er)) as Hsame.
  { subst D1. rewrite <- Z.mul_assoc, <- Z.pow_add_r by lia. do 2 f_equal. lia. }
  rewrite Hsame in HNle.
  pose proof (Z.mod_pos_bound N D1 HD1pos) as Hmod.
  assert (0 <= M1 <= 2 ^ (- er)) as HM1.
  { destruct Hcases as [[-> _]|[-> Hhalf]].
    - split; [lia|]. apply Z.div_le_upper_bound; lia.
    - split; [lia|].
      assert (N / D1 < 2 ^ (- er)); [|lia].
      apply Z.div_lt_upper_bound; [lia|].
      destruct (Z.eq_dec N (D1 * 2 ^ (- er))) as [Heq|]; [|lia].
      exfalso. rewrite Heq, (Z.mul_comm D1), Z.mod_mul in Hhalf by lia. lia. }
  assert (0 <= M1 <= 2 ^ 53 /\ (2 ^ 52 <= M1 \/ er = -1074)) as [HM1r HM1n].
  { destruct Hcases as [[-> _]|[-> _]]; lia. }
  split; [by apply finish_valid|].
  unfold in_unit_interval. apply andb_true_iff. split.
  - apply finish_nonnegative. lia.
  - rewrite of_Z_1.
    apply (finish_leb M1 er _ (-52) er); try done; try lia.
    rewrite Z.sub_diag, Z.mul_1_r.
    change (Z.pos 4503599627370496) with (2 ^ 52).
    rewrite <- Z.pow_add_r by lia. replace (52 + (-52 - er)) with (- er) by lia. lia.
Qed.

End ExactDiv.

(** ** The clock reading of any time *)

Module ClockReading.

Import JSNumber JSString JSNumberFacts AudioUtils Rounding Exact ExactDiv.

(** The whole seconds of a number that is not negative. *)
Definition floor_of (x : number) : Z :=
  match x with
  | S754_finite false m e => if 0 <=? e then Z.pos m * 2 ^ e else Z.pos m / 2 ^ (- e)
  | _ => 0
  end.

(** Rounding leaves a valid number as it is. *)
Lemma round_valid (sx : bool) (m : positive) (e : Z) :
  valid_binary prec emax (S754_finite sx m e) = true ->
  binary_round_aux prec emax sx (Z.pos m) e loc_Exact = S754_finite sx m e.
Proof.
  intros Hv. destruct (valid_shape _ _ _ Hv) as (Hm & Hn & He).
  assert (fexp prec emax (Zdigits2 (Z.pos m) + e) = e) as Hfit by (apply fexp_fits; lia).
  pose proof (round_spec sx (Z.pos m) 1 e ltac:(lia) ltac:(lia)) as Hr.
  rewrite Z.div_1_r, Hfit, Z.sub_diag, Z.mul_1_r, Z.div_1_r, Z.mod_1_r in Hr.
  assert (place (Z.pos m) 1 = loc_Exact) as Hpl by (unfold place; by rewrite Z.mod_1_r).
  rewrite Hpl in Hr.
  destruct (Hr ltac:(lia)) as (M1 & Hc & _ & _ & ->).
  assert (M1 = Z.pos m) as -> by lia.
  unfold finish.
  replace (Z.pos m =? 2 ^ 53) with false by (symmetry; apply Z.eqb_neq; lia).
  replace (e <=? 971) with true by (symmetry; apply Z.leb_le; lia).
  reflexivity.
Qed.

Lemma iter_xO (p d : positive) :
  Z.pos (Pos.iter xO p d) = Z.pos p * 2 ^ Z.pos d.
Proof.
  induction d as [|d IH] using Pos.peano_ind.
  - simpl. lia.
  - rewrite Pos.iter_succ, Pos2Z.inj_succ, Z.pow_succ_r by lia.
    rewrite (Pos2Z.inj_xO (Pos.iter xO p d)), IH. lia.
Qed.

(** A positive integer below [2^53] at an exponent of the format is a
    number, exactly. *)
Lemma normalize_exact (r : positive) (e : Z) :
  Z.pos r < 2 ^ 53 -> -1074 <= e <= 0 ->
  exists m e',
    binary_normalize prec emax (Z.pos r) e false = S754_finite false m e' /\
    e' <= e /\ Z.pos m = Z.pos r * 2 ^ (e - e') /\
    valid_binary prec emax (S754_finite false m e') = true.
Proof.
  intros Hr He. unfold binary_normalize, binary_round, shl_align.
  destruct (digits2_bounds r) as [Hlo Hup].
  pose proof (digits2_le r 53 Hr) as Hd.
  remember (Z.pos (digits2_pos r)) as d eqn:Hdd.
  assert (0 < d) as Hdpos by lia.
  remember (fexp prec emax (d + e)) as e' eqn:He'.
  assert (e' = Z.max (d + e - 53) (-1074)) as He'eq by (subst e'; reflexivity).
  assert (Z.pos r * 2 ^ (e - e') < 2 ^ 53 /\
          (2 ^ 52 <= Z.pos r * 2 ^ (e - e') \/ e' = -1074)) as [Hbig Hnorm].
  { pose proof (pow2_pos (e - e') ltac:(lia)) as Hp. split.
    - apply Z.lt_le_trans with (2 ^ d * 2 ^ (e - e')); [nia|].
      rewrite <- Z.pow_add_r by lia. apply Z.pow_le_mono_r; lia.
    - destruct (Z.eq_dec e' (-1074)) as [|Hne]; [by right|left].
      apply Z.le_trans with (2 ^ (d - 1) * 2 ^ (e - e')); [|nia].
      rewrite <- Z.pow_add_r by lia. apply Z.pow_le_mono_r; lia. }
  destruct (e' - e) as [|p|p] eqn:Hdiff; try lia.
  - assert (e' = e) as -> by lia.
    rewrite Z.sub_diag, Z.pow_0_r, Z.mul_1_r in Hbig, Hnorm.
    assert (valid_binary prec emax (S754_finite false r e) = true) as Hv.
    { apply shape_valid; lia. }
    exists r, e. split; [by apply round_valid|]. split; [lia|].
    split; [rewrite Z.sub_diag, Z.pow_0_r; lia|done].
  - assert (e - e' = Z.pos p) as Hp by lia. rewrite Hp in *.
    assert (valid_binary prec emax (S754_finite false (Pos.iter xO r p) e') = true) as Hv.
    { apply shape_valid; rewrite ?iter_xO; lia. }
    exists (Pos.iter xO r p), e'. split; [by apply round_valid|].
    split; [lia|]. split; [rewrite Hp; apply iter_xO|done].
Qed.

Section Facts.

Variable ts : number -> string.

(** A whole number below [2^53] is written with all its digits. *)
Lemma toString_exact (m : positive) (e : Z) (k : Z) :
  e <= 0 -> Z.pos m = k * 2 ^ (- e) -> k < 2 ^ 53 ->
  Number_toString ts (S754_finite false m e) = pretty (Z.to_N k).
Proof.
  intros He Hm Hk. unfold Number_toString, exact_integer.
  pose proof (pow2_pos (- e) ltac:(lia)) as Hp.
  destruct (0 <=? e) eqn:H0.
  - apply Z.leb_le in H0. assert (e = 0) as -> by lia.
    simpl in Hm. rewrite Z.mul_1_r in Hm. rewrite Z.pow_0_r, Z.mul_1_r, Hm.
    replace (k <? 2 ^ 53) with true by (symmetry; apply Z.ltb_lt; lia). reflexivity.
  - rewrite Hm, Z.mod_mul, Z.div_mul by lia. simpl (0 =? 0). cbv iota.
    replace (k <? 2 ^ 53) with true by (symmetry; apply Z.ltb_lt; lia). reflexivity.
Qed.

Lemma toString_of_Z (k : Z) :
  0 <= k < 2 ^ 53 -> Number_toString ts (of_Z k) = pretty (Z.to_N k).
Proof.
  intros Hk. destruct k as [|p|p]; [reflexivity| |lia].
  destruct (normalize_exact p 0 ltac:(lia) ltac:(lia)) as (m & e' & Heq & He' & Hm & _).
  unfold of_Z. rewrite Heq. apply toString_exact; [lia| |lia].
  rewrite Hm. reflexivity.
Qed.

(** The floor of a number that is not negative, written out. *)
Lemma toString_floor (y : number) :
  (exists s, y = S754_zero s) \/ (exists m e, y = S754_finite false m e) ->
  floor_of y < 2 ^ 53 ->
  Number_toString ts (Math_floor y) = pretty (Z.to_N (floor_of y)).
Proof.
  intros [[s ->]|(m & e & ->)] Hf; [reflexivity|].
  unfold Math_floor, floor_of in *. destruct (0 <=? e) eqn:H0.
  - apply Z.leb_le in H0. unfold Number_toString, exact_integer.
    replace (0 <=? e) with true by (symmetry; apply Z.leb_le; lia).
    replace (Z.pos m * 2 ^ e <? 2 ^ 53) with true by (symmetry; apply Z.ltb_lt; lia).
    reflexivity.
  - apply Z.leb_gt in H0. apply toString_of_Z.
    pose proof (pow2_pos (- e) ltac:(lia)) as Hp.
    split; [apply Z.div_pos; lia|lia].
Qed.

End Facts.

Lemma floor_finish (M1 e1 : Z) :
  0 <= M1 <= 2 ^ 53 -> e1 < 0 ->
  floor_of (finish false M1 e1) = M1 / 2 ^ (- e1).
Proof.
  intros HM He. unfold finish.
  pose proof (pow2_pos (- e1) ltac:(lia)) as Hp.
  destruct M1 as [|q|q]; [by rewrite Zdiv_0_l| |lia].
  replace (e1 <=? 971) with true by (symmetry; apply Z.leb_le; lia).
  replace (e1 + 1 <=? 971) with true by (symmetry; apply Z.leb_le; lia).
  destruct (Z.pos q =? 2 ^ 53) eqn:H53.
  - apply Z.eqb_eq in H53. rewrite H53. unfold floor_of.
    assert (2 ^ (- e1) = 2 * 2 ^ (- (e1 + 1))) as Hsplit.
    { rewrite <- Z.pow_succ_r by lia. f_equal. lia. }
    destruct (0 <=? e1 + 1) eqn:H0.
    + apply Z.leb_le in H0. assert (e1 = -1) as -> by lia. reflexivity.
    + rewrite Hsplit. change (2 ^ 53) with (2 * 2 ^ 52).
      rewrite Z.div_mul_cancel_l; [reflexivity| |lia].
      pose proof (pow2_pos (- (e1 + 1)) ltac:(apply Z.leb_gt in H0; lia)). lia.
  - unfold floor_of. by replace (0 <=? e1) with false by (symmetry; apply Z.leb_gt; lia).
Qed.

(** Two neighbours have the same quotient by [T] unless [T] divides the
    larger one. *)
Lemma div_succ (a T : Z) :
  0 < T -> (a + 1) mod T <> 0 -> (a + 1) / T = a / T.
Proof.
  intros HT Hne.
  pose proof (Z.div_mod (a + 1) T ltac:(lia)) as H1.
  pose proof (Z.mod_pos_bound (a + 1) T HT) as Hb.
  apply (Z.div_unique a T ((a + 1) / T) ((a + 1) mod T - 1)); lia.
Qed.

(** The quotient cannot be rounded up to a multiple of [T]: the gap to
    the next mantissa would be at least [S], more than half of [D1]. *)
Lemma round_up_gap (N D1 Q R j T A S m : Z) :
  0 < D1 -> 0 < T -> 0 < A -> 0 < S ->
  N = D1 * Q + R -> 0 <= R < D1 -> D1 <= 2 * R ->
  Q + 1 = j * T -> N = m * S -> D1 * T = 60 * A * S -> 32 * A <= T ->
  False.
Proof.
  intros HD HT HA HS HN HR Hhalf Hj Hm Hscale HT32.
  assert ((Q + 1) * D1 - N = S * (60 * j * A - m)) as Hgap.
  { rewrite Hj. replace (j * T * D1) with (j * (D1 * T)) by ring.
    rewrite Hscale, Hm. ring. }
  assert (0 < S * (60 * j * A - m)) as Hgap0 by (rewrite <- Hgap; nia).
  assert (1 <= 60 * j * A - m) as HJ by nia.
  assert (S * 1 <= (Q + 1) * D1 - N) as HS1.
  { rewrite Hgap. apply Z.mul_le_mono_nonneg_l; lia. }
  assert (2 * S <= D1) as H2S by nia.
  assert (A * (32 * D1) <= A * (60 * S)) as Hcmp.
  { replace (A * (60 * S)) with (D1 * T) by (rewrite Hscale; ring).
    replace (A * (32 * D1)) with (D1 * (32 * A)) by ring.
    apply Z.mul_le_mono_nonneg_l; lia. }
  apply Z.mul_le_mono_pos_l in Hcmp; lia.
Qed.

Lemma of_Z_60 : of_Z 60 = S754_finite false 8444249301319680 (-47).
Proof. vm_compute. reflexivity. Qed.

(** The quotient by 60, rounded, has the whole part of the exact
    quotient. *)
Lemma floor_div_60 (mx : positive) (ex : Z) :
  valid_binary prec emax (S754_finite false mx ex) = true ->
  ex <= 0 ->
  ((exists s, div (S754_finite false mx ex) (of_Z 60) = S754_zero s) \/
   (exists m e, div (S754_finite false mx ex) (of_Z 60) = S754_finite false m e)) /\
  floor_of (div (S754_finite false mx ex) (of_Z 60)) =
    floor_of (S754_finite false mx ex) / 60.
Proof.
  intros Hv Hex. rewrite of_Z_60.
  destruct (valid_shape _ _ _ Hv) as (Hmx & Hnx & Hexb).
  destruct (div_finish mx 8444249301319680 ex (-47)) as (M1 & H). cbv zeta in H.
  remember (div_exponent mx 8444249301319680 ex (-47)) as e' eqn:He'.
  remember (ex - -47 - e') as s eqn:Hs.
  remember (Z.pos mx * 2 ^ s) as N eqn:HN.
  remember (fexp prec emax (Zdigits2 (N / 8444249301319680) + e')) as er eqn:Her.
  remember (8444249301319680 * 2 ^ (er - e')) as D1 eqn:HD1.
  destruct H as (Hcases & Hrange & Hnorm & Hlow & Hup & ->).
  (* the exponent the quotient starts from *)
  pose proof (digits2_le mx 53 ltac:(lia)) as Hd1.
  assert (e' = Z.max (Z.pos (digits2_pos mx) + ex - 59) (-1074)) as He'eq.
  { clear - He' Hd1 Hexb. subst e'. unfold div_exponent.
    change (Zdigits2 8444249301319680) with 53.
    simpl Zdigits2. unfold fexp, SpecFloat.emin, prec, emax. lia. }
  assert (47 <= s) as Hs47 by (clear - Hs He'eq Hd1 Hexb; lia).
  pose proof (pow2_pos s ltac:(clear - Hs47; lia)) as HS.
  pose proof (pow2_pos (- ex) ltac:(clear - Hex; lia)) as HA.
  pose proof (pow2_pos (er - e') ltac:(clear - Hlow; lia)) as HW.
  assert (0 <= N) as HN0.
  { subst N. apply Z.mul_nonneg_nonneg; [clear|clear - HS]; lia. }
  (* the quotient has at most [s + 1] bits *)
  assert (N / 8444249301319680 < 2 ^ (s + 1)) as Hq.
  { apply Z.div_lt_upper_bound; [clear; lia|]. subst N.
    rewrite Z.pow_add_r by (clear - Hs47; lia). change (2 ^ 1) with 2.
    change (2 ^ 53) with 9007199254740992 in Hmx. clear - Hmx HS. nia. }
  assert (0 <= N / 8444249301319680) as Hq0 by (apply Z.div_pos; [exact HN0|clear; lia]).
  assert (-1074 <= er) as Herlo.
  { clear - Her. subst er. unfold fexp, SpecFloat.emin, prec, emax. lia. }
  assert (er <= ex - 5 \/ er = -1074) as Herup.
  { clear - Her Hq Hq0 Hs He'eq Hd1 Hexb. subst er.
    destruct (N / 8444249301319680) as [|q|q] eqn:Hqq; try lia.
    - simpl Zdigits2. unfold fexp, SpecFloat.emin, prec, emax. lia.
    - simpl Zdigits2. pose proof (digits2_le q (s + 1) Hq) as Hdq.
      unfold fexp, SpecFloat.emin, prec, emax. lia. }
  assert (er < 0) as Herneg by (clear - Herup Hex; lia).
  pose proof (pow2_pos (- er) ltac:(clear - Herneg; lia)) as HT.
  assert (0 < D1) as HD1pos.
  { subst D1. apply Z.mul_pos_pos; [clear|clear - HW]; lia. }
  assert (0 <= M1 <= 2 ^ 53) as HM1.
  { clear - Hcases Hrange. destruct Hcases as [[-> _]|[-> _]]; lia. }
  split.
  { unfold finish. destruct M1 as [|q|q]; [left; by eexists| |lia]. right.
    destruct (Z.pos q =? 2 ^ 53).
    - replace (er + 1 <=? 971) with true by (symmetry; apply Z.leb_le; lia). by eexists _, _.
    - replace (er <=? 971) with true by (symmetry; apply Z.leb_le; lia). by eexists _, _. }
  rewrite floor_finish by lia.
  (* the exact quotient *)
  assert (D1 * 2 ^ (- er) = 60 * 2 ^ (- ex) * 2 ^ s) as Hscale.
  { subst D1. change 8444249301319680 with (60 * 2 ^ 47).
    rewrite <- !Z.mul_assoc, <- !Z.pow_add_r by lia. do 2 f_equal. lia. }
  assert (N / D1 / 2 ^ (- er) = floor_of (S754_finite false mx ex) / 60) as Hexact.
  { rewrite Z.div_div, Hscale by lia. subst N.
    rewrite Z.div_mul_cancel_r by lia.
    unfold floor_of. destruct (0 <=? ex) eqn:H0.
    - apply Z.leb_le in H0. assert (ex = 0) as -> by lia. simpl. f_equal. lia.
    - rewrite Z.div_div, (Z.mul_comm 60) by lia. reflexivity. }
  destruct Hcases as [[-> _]|[-> Hhalf]]; [exact Hexact|].
  rewrite <- Hexact. apply div_succ; [lia|]. intros Hdiv.
  (* rounding up to a multiple of [2 ^ (- er)] is not possible *)
  apply Z.mod_divide in Hdiv; [|lia]. destruct Hdiv as [j Hj].
  pose proof (Z.mod_pos_bound N D1 HD1pos) as Hmod.
  pose proof (Z.div_mod N D1 ltac:(clear - HD1pos; lia)) as Hdm.
  destruct Herup as [Her5|Her1074].
  - assert (32 * 2 ^ (- ex) <= 2 ^ (- er)) as HT32.
    { clear - Her5 Hex. change 32 with (2 ^ 5). rewrite <- Z.pow_add_r by lia.
      apply Z.pow_le_mono_r; lia. }
    clear - Hj HN Hscale Hmod Hdm Hhalf HT32 HT HA HS HD1pos.
    remember (2 ^ (- er)) as T. remember (2 ^ (- ex)) as A. remember (2 ^ s) as S.
    remember (N / D1) as Q. remember (N mod D1) as R.
    exact (round_up_gap N D1 Q R j T A S (Z.pos mx)
             HD1pos HT HA HS Hdm Hmod Hhalf Hj HN Hscale HT32).
  - assert (2 ^ 53 < 2 ^ (- er)) as Hbig.
    { clear - Her1074. rewrite Her1074. apply Z.pow_lt_mono_r; lia. }
    clear - Hj Hrange Hbig HT. remember (2 ^ (- er)) as T. remember (N / D1) as Q.
    assert (0 < j) as Hjpos by nia.
    assert (T * 1 <= j * T) by nia. lia.
Qed.

(** The remainder by 60 is exact. *)
Lemma floor_rem_60 (mx : positive) (ex : Z) :
  valid_binary prec emax (S754_finite false mx ex) = true ->
  ex <= 0 ->
  ((exists s, rem (S754_finite false mx ex) (of_Z 60) = S754_zero s) \/
   (exists m e, rem (S754_finite false mx ex) (of_Z 60) = S754_finite false m e)) /\
  floor_of (rem (S754_finite false mx ex) (of_Z 60)) =
    floor_of (S754_finite false mx ex) mod 60.
Proof.
  intros Hv Hex. rewrite of_Z_60.
  destruct (valid_shape _ _ _ Hv) as (Hmx & Hnx & Hexb).
  unfold rem.
  remember (Z.min ex (-47)) as e eqn:He.
  assert (-1074 <= e <= -47) as Heb by lia.
  pose proof (pow2_pos (- e) ltac:(lia)) as HT.
  pose proof (pow2_pos (ex - e) ltac:(lia)) as HP.
  pose proof (pow2_pos (- ex) ltac:(lia)) as HA.
  assert (8444249301319680 * 2 ^ (-47 - e) = 2 ^ (- e) * 60) as HY.
  { change 8444249301319680 with (60 * 2 ^ 47).
    rewrite <- Z.mul_assoc, <- Z.pow_add_r by lia.
    replace (47 + (-47 - e)) with (- e) by lia. lia. }
  rewrite HY.
  remember (Z.pos mx * 2 ^ (ex - e)) as X eqn:HX.
  assert (0 <= X) as HX0 by (subst X; nia).
  assert (X / 2 ^ (- e) = floor_of (S754_finite false mx ex)) as Hfloor.
  { subst X. rewrite (pow2_split (- e) (ex - e)) by lia.
    replace (- e - (ex - e)) with (- ex) by lia.
    rewrite Z.div_mul_cancel_r by lia.
    unfold floor_of. destruct (0 <=? ex) eqn:H0; [|reflexivity].
    apply Z.leb_le in H0. assert (ex = 0) as -> by lia.
    change (2 ^ (- 0)) with 1. rewrite Z.div_1_r. lia. }
  assert (X mod (2 ^ (- e) * 60) / 2 ^ (- e) = X / 2 ^ (- e) mod 60) as Hid.
  { rewrite Z.rem_mul_r by lia.
    rewrite (Z.mul_comm (2 ^ (- e))), Z.div_add by lia.
    rewrite Z.div_small by (apply Z.mod_pos_bound; lia). lia. }
  pose proof (Z.mod_pos_bound X (2 ^ (- e) * 60) ltac:(lia)) as Hr.
  remember (X mod (2 ^ (- e) * 60)) as r eqn:Hrdef.
  destruct (r =? 0) eqn:Hr0.
  - apply Z.eqb_eq in Hr0. split; [left; by eexists|].
    rewrite <- Hfloor, <- Hid, Hr0. by rewrite Zdiv_0_l.
  - apply Z.eqb_neq in Hr0. destruct r as [|q|q]; try lia.
    assert (Z.pos q < 2 ^ 53) as Hq53.
    { destruct (Z.le_gt_cases ex (-47)) as [Hle|Hgt].
      - assert (e = ex) as Hee by lia.
        assert (X = Z.pos mx) as HXm.
        { subst X. rewrite Hee, Z.sub_diag. lia. }
        assert (Z.pos q <= X); [|lia].
        rewrite Hrdef. apply Z.mod_le; lia.
      - assert (e = -47) as Hee by lia. rewrite Hee in Hr.
        change (2 ^ (- -47) * 60) with 8444249301319680 in Hr.
        change (2 ^ 53) with 9007199254740992. lia. }
    destruct (normalize_exact q e Hq53 ltac:(lia)) as (m & e' & -> & He' & Hm & _).
    split; [right; by eexists _, _|].
    rewrite <- Hfloor, <- Hid. unfold floor_of.
    replace (0 <=? e') with false by (symmetry; apply Z.leb_gt; lia).
    rewrite Hm, (pow2_split (- e') (e - e')) by lia.
    replace (- e' - (e - e')) with (- e) by lia.
    pose proof (pow2_pos (e - e') ltac:(lia)).
    by rewrite Z.div_mul_cancel_r by lia.
Qed.

End ClockReading.

(** ** Times on the track *)

Module Track.

Import JSNumber JSString JSNumberFacts AudioUtils Dom HandlerFacts.
Import MessageComponent Player Rounding Exact ExactDiv ClockReading.
Local Open Scope string_scope.

Lemma two_digits_checked :
  Bounded.all_from (N.to_nat 60) 0
    (fun n => String.eqb (padStart 2 "0" (pretty n))
                ((if (n <? 10)%N then "0" else "") ++ pretty n)) = true.
Proof. vm_compute. reflexivity. Qed.

Lemma of_Z_2_53 : of_Z (2 ^ 53) = S754_finite false 4503599627370496 1.
Proof. vm_compute. reflexivity. Qed.

(** A valid number below [2^53] has no positive exponent. *)
Lemma below_2_53 (m : positive) (e : Z) :
  valid_binary prec emax (S754_finite false m e) = true ->
  SFltb (S754_finite false m e) (of_Z (2 ^ 53)) = true -> e <= 0.
Proof.
  intros Hv Hlt. destruct (valid_shape _ _ _ Hv) as (Hm & Hn & He).
  rewrite of_Z_2_53 in Hlt. apply SFltb_finite in Hlt as [Hlt|[-> Hlt]]; lia.
Qed.

(** One times a number is the number. *)
Lemma mul_one (d : number) :
  valid_binary prec emax d = true -> isFinite d = true ->
  SFleb (of_Z 0) d = true -> mul (of_Z 1) d = d.
Proof.
  intros Hv Hf H0. destruct d as [[]|s| |[] m e]; try done.
  destruct (valid_shape _ _ _ Hv) as (Hm & Hn & He).
  rewrite of_Z_1. unfold mul, SFmul. simpl xorb.
  change (-52 + e) with (e - 52) || replace (-52 + e) with (e - 52) by lia.
  rewrite Pos2Z.inj_mul. change (Z.pos 4503599627370496) with (2 ^ 52).
  assert (fexp prec emax (Zdigits2 (Z.pos m) + e) = e) as Hfit by (apply fexp_fits; lia).
  assert (Zdigits2 (2 ^ 52 * Z.pos m) = Zdigits2 (Z.pos m) + 52) as Hdig.
  { change (2 ^ 52 * Z.pos m) with (Z.pos (4503599627370496 * m)). unfold Zdigits2.
    destruct (digits2_bounds m) as [Hlo Hup].
    pose proof (digits2_le (4503599627370496 * m) (Z.pos (digits2_pos m) + 52)) as Hle.
    pose proof (digits2_lower (4503599627370496 * m) (Z.pos (digits2_pos m) + 51)) as Hge.
    rewrite Pos2Z.inj_mul in Hle, Hge. change (Z.pos 4503599627370496) with (2 ^ 52) in *.
    assert (2 ^ (Z.pos (digits2_pos m) + 52) = 2 ^ 52 * 2 ^ Z.pos (digits2_pos m)) as E1.
    { rewrite <- Z.pow_add_r by lia. f_equal. lia. }
    assert (2 ^ (Z.pos (digits2_pos m) + 51) = 2 ^ 52 * 2 ^ (Z.pos (digits2_pos m) - 1)) as E2.
    { rewrite <- Z.pow_add_r by lia. f_equal. lia. }
    rewrite E1 in Hle. rewrite E2 in Hge.
    pose proof (pow2_pos 52 ltac:(lia)) as H52.
    specialize (Hle ltac:(nia)). specialize (Hge ltac:(nia)). lia. }
  assert (fexp prec emax (Zdigits2 (2 ^ 52 * Z.pos m) + (e - 52)) = e) as Hfit'.
  { rewrite Hdig, <- Hfit. f_equal. lia. }
  pose proof (round_spec false (2 ^ 52 * Z.pos m) 1 (e - 52) ltac:(lia) ltac:(lia)) as Hr.
  rewrite Z.div_1_r, Hfit' in Hr.
  replace (e - (e - 52)) with 52 in Hr by lia. rewrite Z.mul_1_l in Hr.
  rewrite (Z.mul_comm (2 ^ 52)), Z.div_mul, Z.mod_mul in Hr by lia.
  assert (place (Z.pos m * 2 ^ 52) 1 = loc_Exact) as Hpl by (unfold place; by rewrite Z.mod_1_r).
  rewrite Hpl in Hr. rewrite (Z.mul_comm (2 ^ 52)).
  destruct (Hr ltac:(lia)) as (M1 & Hc & _ & _ & ->).
  assert (M1 = Z.pos m) as -> by lia.
  unfold finish.
  replace (Z.pos m =? 2 ^ 53)%Z with false by (symmetry; apply Z.eqb_neq; lia).
  replace (e <=? 971)%Z with true by (symmetry; apply Z.leb_le; lia).
  reflexivity.
Qed.

Section Facts.

Variable ts : number -> string.

(** [formatTime] on the clock. For every number of seconds from 0 up to,
    not including, [2^53], whole or not, [formatTime] gives the minutes
    and seconds of the whole seconds: the integer quotient of
    [floor seconds] by 60, a colon, and the remainder in two digits. The
    rounding of [seconds / 60] never carries the minutes up. *)
Theorem formatTime_reads_the_whole_seconds (x : number) :
  valid_binary prec emax x = true ->
  SFleb (of_Z 0) x = true ->
  SFltb x (of_Z (2 ^ 53)) = true ->
  formatTime ts x = FormatTime.clock (Z.to_N (floor_of x)).
Proof.
  intros Hv H0 Hlt. destruct x as [[]|[]| |[] m e]; try done.
  pose proof (below_2_53 m e Hv Hlt) as He.
  destruct (valid_shape _ _ _ Hv) as (Hm & Hn & Heb).
  destruct (floor_div_60 m e Hv He) as [Hdshape Hdiv].
  destruct (floor_rem_60 m e Hv He) as [Hrshape Hrem].
  assert (0 <= floor_of (S754_finite false m e) < 2 ^ 53) as HF.
  { unfold floor_of. destruct (0 <=? e)%Z eqn:Hz.
    - apply Z.leb_le in Hz. assert (e = 0) as -> by lia. lia.
    - pose proof (pow2_pos (- e) ltac:(lia)) as Hp. split; [apply Z.div_pos; lia|].
      apply Z.le_lt_trans with (Z.pos m); [|lia].
      apply Z.div_le_upper_bound; nia. }
  remember (floor_of (S754_finite false m e)) as F eqn:HFdef.
  unfold formatTime. simpl isNaN. cbv zeta.
  rewrite (toString_floor ts _ Hdshape), Hdiv.
  2:{ rewrite Hdiv. apply Z.le_lt_trans with F; [|lia].
      apply Z.div_le_upper_bound; lia. }
  rewrite (toString_floor ts _ Hrshape), Hrem.
  2:{ rewrite Hrem. pose proof (Z.mod_pos_bound F 60 ltac:(lia)). lia. }
  unfold FormatTime.clock.
  rewrite Z2N.inj_div, Z2N.inj_mod by lia. change (Z.to_N 60) with 60%N.
  do 2 f_equal.
  assert (Z.to_N F mod 60 < 60)%N as Hlt60 by (apply N.mod_lt; lia).
  apply String.eqb_eq.
  exact (Bounded.all_below _ _ two_digits_checked _ Hlt60).
Qed.

(** The progress bar stays on the track. When the position of a clip of
    known, non-zero length lies between 0 and the length, the width the
    [timeupdate] listener writes is the percentage
    [currentTime / duration * 100], and that number lies between 0 and
    100. *)
Theorem progress_stays_on_the_track (x : Audio) :
  valid_binary prec emax (currentTime x) = true ->
  valid_binary prec emax (duration x) = true ->
  isFinite (currentTime x) = true ->
  SFleb (of_Z 0) (currentTime x) = true ->
  (exists m e, duration x = S754_finite false m e) ->
  SFleb (currentTime x) (duration x) = true ->
  fst (audio_timeupdate ts x) =
    Number_toString ts (mul (div (currentTime x) (duration x)) (of_Z 100)) ++ "%" /\
  SFleb (of_Z 0) (mul (div (currentTime x) (duration x)) (of_Z 100)) = true /\
  SFleb (mul (div (currentTime x) (duration x)) (of_Z 100)) (of_Z 100) = true.
Proof.
  intros Hvc Hvd Hf H0 Hd Hle. split; [reflexivity|].
  destruct (div_unit _ _ Hvc Hvd Hf H0 Hd Hle) as [Hvq Hq].
  destruct (mul_unit_bounds _ (of_Z 100) Hvq eq_refl Hq eq_refl eq_refl) as (Hlo & Hup & _).
  by split.
Qed.

End Facts.

(** A seek stays within the clip. A click on the track of a player whose
    duration is finite and not negative, at a fraction in [0, 1], leaves
    [currentTime] between 0 and the duration: the rounding of
    [pos * duration] never passes the end of the clip. A click at the
    right end, fraction 1, sets [currentTime] to the duration itself. *)
Theorem seek_stays_within_the_clip (a : nat) (pos : number) (w : AudioControls) (p : Page) :
  audios p !! a = Some w ->
  valid_binary prec emax pos = true ->
  valid_binary prec emax (duration (audio w)) = true ->
  in_unit_interval pos = true ->
  isFinite (duration (audio w)) = true ->
  SFleb (of_Z 0) (duration (audio w)) = true ->
  exists w',
    audios (settle (progressContainer_click a pos) p) !! a = Some w' /\
    duration (audio w') = duration (audio w) /\
    SFleb (of_Z 0) (currentTime (audio w')) = true /\
    SFleb (currentTime (audio w')) (duration (audio w')) = true /\
    (pos = of_Z 1 -> currentTime (audio w') = duration (audio w)).
Proof.
  intros Hw Hvp Hvd Hu Hf H0. unfold settle.
  rewrite progressContainer_click_run, Hw.
  rewrite (mul_unit_finite pos _ Hvp Hvd Hu Hf). simpl.
  rewrite lookup_alter_eq, Hw.
  destruct (mul_unit_bounds pos _ Hvp Hvd Hu Hf H0) as (Hlo & Hup & _).
  eexists. split; [reflexivity|]. simpl.
  split; [reflexivity|]. split; [exact Hlo|]. split; [exact Hup|].
  intros ->. by apply mul_one.
Qed.

Lemma formatTime_reads_the_whole_seconds_witness :
  formatTime (fun _ => "") (decimal 755 1) = "1:15" /\
  formatTime (fun _ => "") (decimal 599999 4) = "0:59".
Proof.
  split.
  - rewrite (formatTime_reads_the_whole_seconds (fun _ => "") (decimal 755 1));
      vm_compute; reflexivity.
  - rewrite (formatTime_reads_the_whole_seconds (fun _ => "") (decimal 599999 4));
      vm_compute; reflexivity.
Defined.

Lemma progress_stays_on_the_track_witness :
  SFleb (mul (div (of_Z 1) (of_Z 3)) (of_Z 100)) (of_Z 100) = true.
Proof.
  refine (proj2 (proj2 (progress_stays_on_the_track (fun _ => "")
    {| src := ""; paused := false; currentTime := of_Z 1; duration := of_Z 3 |}
    eq_refl eq_refl eq_refl eq_refl _ eq_refl))).
  vm_compute. by eexists _, _.
Defined.

Lemma seek_stays_within_the_clip_witness :
  exists w',
    audios (settle (progressContainer_click 0 (decimal 3 1)) (one_player ten_seconds))
      !! 0%nat = Some w' /\
    duration (audio w') = of_Z 10 /\
    SFleb (of_Z 0) (currentTime (audio w')) = true /\
    SFleb (currentTime (audio w')) (duration (audio w')) = true /\
    (decimal 3 1 = of_Z 1 -> currentTime (audio w') = of_Z 10).
Proof.
  exact (seek_stays_within_the_clip 0 (decimal 3 1) _ (one_player ten_seconds)
           eq_refl eq_refl eq_refl eq_refl eq_refl eq_refl).
Defined.

End Track.
